(** * Medical NER pipeline: a shallow embedding of
      [src/pipelines/medical_ner_pipeline.py] and its verified properties.

    The first part embeds the code: the rule classifier, the client of the
    terminology service with its cache, and the pipeline from text
    normalization to the grouped document result. The second part states
    and proves the properties.

    Modelling conventions.
    - Python [str] is [string]; the text is taken to be ASCII, so
      [str.lower], [str.isspace] and the regex classes are the ASCII ones.
    - Python [float] is an exact rational ([Q]); [0.95] is [95 # 100].
      Sums, products and quotients are exact here, where the code rounds
      each one to a double, so a value of the code and its value here
      differ by that rounding. Where the exact value lies halfway between
      two multiples of 0.001, as [0.95 * 0.85 = 0.8075] does, the double of
      the code lies beside it and [round(x, 3)] may give the other
      neighbour (0.807 for 0.808).
    - Python [int] is [Z].
    - Python's [re] module is modelled by a small backtracking matcher
      ([Module Re]) with Python's priorities: alternatives left to right,
      greedy quantifiers longest first, leftmost match when scanning.
    - The client object, the clock, the environment and the network are one
      record ([World]); the methods of the client are computations over it
      that may raise ([M]). The network is the list of replies still to
      come, so every behaviour of the service, failures included, is a
      world. The clock stands still during one call.
    - JSON replies are modelled at the shape the client reads: a list of
      search hits or a list of semantic types, whose fields may be missing
      or [null]; a body that is not JSON makes [json()] raise. *)

From Stdlib Require Import ZArith QArith Qround Ascii String List Bool Lia.
From Stdlib Require Import DecimalString Lqa.
From stdpp Require Import base option list strings gmap.

Local Open Scope string_scope.
Local Open Scope list_scope.

(** ** Python string primitives *)

Module Py.

Definition chars (s : string) : list ascii := list_ascii_of_string s.
Definition str (l : list ascii) : string := string_of_list_ascii l.

Definition code (c : ascii) : N := N_of_ascii c.

Definition in_range (lo hi : N) (c : ascii) : bool :=
  (lo <=? code c)%N && (code c <=? hi)%N.

Definition is_upper (c : ascii) : bool := in_range 65 90 c.
Definition is_lower (c : ascii) : bool := in_range 97 122 c.
Definition is_alpha (c : ascii) : bool := is_upper c || is_lower c.
Definition is_digit (c : ascii) : bool := in_range 48 57 c.

(** [\w] on ASCII text: letters, digits and the underscore. *)
Definition is_word (c : ascii) : bool :=
  is_alpha c || is_digit c || (code c =? 95)%N.

(** [str.isspace] and [\s] on ASCII text: TAB, LF, VT, FF, CR, the four
    separators 0x1c-0x1f and the space. *)
Definition is_space (c : ascii) : bool :=
  in_range 9 13 c || in_range 28 31 c || (code c =? 32)%N.

Definition lower_char (c : ascii) : ascii :=
  if is_upper c then ascii_of_N (code c + 32) else c.

(** [s.lower()] *)
Definition lower (s : string) : string := str (map lower_char (chars s)).

Fixpoint lstrip_chars (l : list ascii) : list ascii :=
  match l with
  | c :: l' => if is_space c then lstrip_chars l' else l
  | [] => []
  end.

Definition strip_chars (l : list ascii) : list ascii :=
  rev (lstrip_chars (rev (lstrip_chars l))).

(** [s.strip()] *)
Definition strip (s : string) : string := str (strip_chars (chars s)).

(** [len(s)] *)
Definition len (s : string) : Z := Z.of_nat (String.length s).

(** Truthiness of a [str]: the empty string is falsy. *)
Definition truthy (s : string) : bool :=
  match s with EmptyString => false | _ => true end.

(** [needle in hay] for two strings. *)
Fixpoint is_prefix (p l : list ascii) : bool :=
  match p, l with
  | [], _ => true
  | a :: p', b :: l' => if Ascii.eqb a b then is_prefix p' l' else false
  | _ :: _, [] => false
  end.

Fixpoint contains_chars (needle hay : list ascii) : bool :=
  is_prefix needle hay ||
  match hay with
  | [] => false
  | _ :: hay' => contains_chars needle hay'
  end.

Definition contains (needle hay : string) : bool :=
  contains_chars (chars needle) (chars hay).

(** [s.split()]: the maximal runs of non-whitespace characters. *)
Fixpoint split_chars (cur : list ascii) (l : list ascii) : list string :=
  match l with
  | [] => match cur with [] => [] | _ => [str (rev cur)] end
  | c :: l' =>
      if is_space c
      then match cur with
           | [] => split_chars [] l'
           | _ => str (rev cur) :: split_chars [] l'
           end
      else split_chars (c :: cur) l'
  end.

Definition split (s : string) : list string := split_chars [] (chars s).

(** [s.split(sep)[-1]] for a separator that is not empty: what follows the
    last of the occurrences of [sep] that [split] cuts at, the whole string
    when [sep] does not occur. [split] takes the occurrences from the left
    and goes on behind each one, so that an occurrence which overlaps the
    one before it is not cut at: [skip] counts the characters of the
    occurrence still to pass. *)
Fixpoint after_last_chars (sep : list ascii) (skip : nat) (l : list ascii)
    (best : list ascii) : list ascii :=
  match l with
  | [] => best
  | _ :: l' =>
      match skip with
      | S k => after_last_chars sep k l' best
      | O =>
          if is_prefix sep l
          then after_last_chars sep (length sep - 1) l'
                                (drop (length sep) l)
          else after_last_chars sep 0 l' best
      end
  end.

Definition after_last (sep s : string) : string :=
  str (after_last_chars (chars sep) 0 (chars s) (chars s)).

(** [s[a:b]] with Python's clamping of both bounds. *)
Definition clamp_index (n i : Z) : Z :=
  if (i <? 0)%Z then Z.max (i + n) 0 else Z.min i n.

Definition slice (s : string) (a b : Z) : string :=
  let n := len s in
  let a' := clamp_index n a in
  let b' := clamp_index n b in
  str (take (Z.to_nat (b' - a')) (drop (Z.to_nat a') (chars s))).

End Py.

(** ** Python's [re] on the fragment the pipeline uses *)

Module Re.

(** Sets of one character. *)
Inductive cset : Type :=
  | CChar (c : ascii)   (* a literal character *)
  | CDigit              (* \d *)
  | CWord               (* \w *)
  | CSpace              (* \s *)
  | CAlpha.             (* [a-zA-Z] *)

(** Patterns. Quantifiers range over one-character sets, which is all the
    source patterns need ([\w+], [\d*], [\s?], [s?], ...). *)
Inductive re : Type :=
  | Lit (s : string)          (* a literal string *)
  | One (c : cset)            (* one character of a set *)
  | WordB                     (* \b *)
  | Seq (r1 r2 : re)
  | Alt (r1 r2 : re)
  | Star (c : cset)           (* c* , greedy *)
  | Opt (r : re)              (* r? , greedy *)
  | Group (n : nat) (r : re). (* the n-th capturing group *)

Definition Plus (c : cset) : re := Seq (One c) (Star c).

Fixpoint seqs (rs : list re) : re :=
  match rs with
  | [] => Lit ""
  | [r] => r
  | r :: rs' => Seq r (seqs rs')
  end.

Fixpoint alts (rs : list re) : re :=
  match rs with
  | [] => One (CChar "000") (* unused: every alternation is non-empty *)
  | [r] => r
  | r :: rs' => Alt r (alts rs')
  end.

(** [(w1|w2|...)] for literal words. *)
Definition words (ws : list string) : re := alts (map Lit ws).

(** One way of matching at a position: the matched text, the captured
    groups (latest first) and the rest of the subject. *)
Record mres : Type := MRes {
  m_text : list ascii;
  m_caps : list (nat * list ascii);
  m_rest : list ascii
}.

Section Matcher.
(** [re.IGNORECASE] *)
Variable ignorecase : bool.

Definition char_eq (a b : ascii) : bool :=
  if ignorecase
  then Ascii.eqb (Py.lower_char a) (Py.lower_char b)
  else Ascii.eqb a b.

Definition cset_match (c : cset) (a : ascii) : bool :=
  match c with
  | CChar b => char_eq b a
  | CDigit => Py.is_digit a
  | CWord => Py.is_word a
  | CSpace => Py.is_space a
  | CAlpha => Py.is_alpha a
  end.

(** A literal against the head of the subject. *)
Fixpoint lit_match (p l : list ascii) : option (list ascii * list ascii) :=
  match p, l with
  | [], _ => Some ([], l)
  | a :: p', b :: l' =>
      if char_eq a b
      then match lit_match p' l' with
           | Some (t, r) => Some (b :: t, r)
           | None => None
           end
      else None
  | _ :: _, [] => None
  end.

(** All ways of matching [c*], longest first. *)
Fixpoint star_run (c : cset) (l : list ascii)
    : list (list ascii * list ascii) :=
  match l with
  | a :: l' =>
      if cset_match c a
      then map (fun tr => (a :: fst tr, snd tr)) (star_run c l') ++ [([], l)]
      else [([], l)]
  | [] => [([], [])]
  end.

Definition word_opt (o : option ascii) : bool :=
  match o with Some c => Py.is_word c | None => false end.

(** The character before the position reached after consuming [t]. *)
Definition prev_after (prev : option ascii) (t : list ascii) : option ascii :=
  match last t with Some c => Some c | None => prev end.

(** All ways of matching [r] at a position, in the order a backtracking
    matcher tries them. [prev] is the character before the position. *)
Fixpoint run (r : re) (prev : option ascii) (l : list ascii) : list mres :=
  match r with
  | Lit s =>
      match lit_match (Py.chars s) l with
      | Some (t, rest) => [MRes t [] rest]
      | None => []
      end
  | One c =>
      match l with
      | a :: l' => if cset_match c a then [MRes [a] [] l'] else []
      | [] => []
      end
  | WordB =>
      if xorb (word_opt prev) (word_opt (head l)) then [MRes [] [] l] else []
  | Seq r1 r2 =>
      flat_map (fun m1 =>
        map (fun m2 => MRes (m_text m1 ++ m_text m2)
                            (m_caps m2 ++ m_caps m1) (m_rest m2))
            (run r2 (prev_after prev (m_text m1)) (m_rest m1)))
        (run r1 prev l)
  | Alt r1 r2 => run r1 prev l ++ run r2 prev l
  | Star c => map (fun tr => MRes (fst tr) [] (snd tr)) (star_run c l)
  | Opt r1 => run r1 prev l ++ [MRes [] [] l]
  | Group n r1 =>
      map (fun m => MRes (m_text m) ((n, m_text m) :: m_caps m) (m_rest m))
          (run r1 prev l)
  end.

(** The match the engine reports at a position: the first one. *)
Definition match_at (r : re) (prev : option ascii) (l : list ascii)
    : option mres :=
  head (run r prev l).

(** [pattern.search(s)] as a truth value: a match at some position. *)
Fixpoint search_from (r : re) (prev : option ascii) (l : list ascii) : bool :=
  match match_at r prev l with
  | Some _ => true
  | None =>
      match l with
      | [] => false
      | a :: l' => search_from r (Some a) l'
      end
  end.

Definition search (r : re) (s : string) : bool :=
  search_from r None (Py.chars s).

(** [pattern.fullmatch(s)] as a truth value: some way of matching at the
    start consumes the whole subject. *)
Definition fullmatch (r : re) (s : string) : bool :=
  existsb (fun m => match m_rest m with [] => true | _ => false end)
          (run r None (Py.chars s)).

(** A match found by scanning: [match.start()], [match.end()],
    [match.group()]. *)
Record found : Type := Found {
  f_start : Z;
  f_end : Z;
  f_group : string
}.

(** [re.finditer]: the leftmost matches, none overlapping. [skip] counts
    the characters still covered by the match reported last. The patterns
    of the pipeline never match the empty string; an empty match is passed
    over. *)
Fixpoint finditer_from (r : re) (prev : option ascii) (l : list ascii)
    (pos : Z) (skip : nat) : list found :=
  match l with
  | [] => []
  | a :: l' =>
      match skip with
      | S k => finditer_from r (Some a) l' (pos + 1) k
      | O =>
          match match_at r prev l with
          | Some m =>
              match m_text m with
              | [] => finditer_from r (Some a) l' (pos + 1) 0
              | _ :: t =>
                  Found pos (pos + Z.of_nat (length (m_text m)))
                        (Py.str (m_text m))
                  :: finditer_from r (Some a) l' (pos + 1) (length t)
              end
          | None => finditer_from r (Some a) l' (pos + 1) 0
          end
      end
  end.

Definition finditer (r : re) (s : string) : list found :=
  finditer_from r None (Py.chars s) 0 0.

(** Replacement templates: literal text and group references [\n]. *)
Inductive piece : Type :=
  | PLit (s : string)
  | PRef (n : nat).

Definition group_text (caps : list (nat * list ascii)) (n : nat)
    : list ascii :=
  match find (fun c => Nat.eqb (fst c) n) caps with
  | Some c => snd c
  | None => []
  end.

Definition expand (repl : list piece) (m : mres) : list ascii :=
  flat_map (fun p =>
    match p with
    | PLit s => Py.chars s
    | PRef n => group_text (m_caps m) n
    end) repl.

(** [re.sub(pattern, repl, s)] for patterns that never match the empty
    string. *)
Fixpoint sub_from (r : re) (repl : list piece) (prev : option ascii)
    (l : list ascii) (skip : nat) : list ascii :=
  match l with
  | [] => []
  | a :: l' =>
      match skip with
      | S k => sub_from r repl (Some a) l' k
      | O =>
          match match_at r prev l with
          | Some m =>
              match m_text m with
              | [] => a :: sub_from r repl (Some a) l' 0
              | _ :: t => expand repl m ++ sub_from r repl (Some a) l' (length t)
              end
          | None => a :: sub_from r repl (Some a) l' 0
          end
      end
  end.

Definition sub (r : re) (repl : list piece) (s : string) : string :=
  Py.str (sub_from r repl None (Py.chars s) 0).

End Matcher.

End Re.

Import Re.

Local Open Scope Q_scope.

(** ** Floats as rationals *)

(** [x < y] on floats. *)
Definition Qltb (x y : Q) : bool := negb (Qle_bool y x).

(** [min(x, y)] *)
Definition Qmin' (x y : Q) : Q := if Qle_bool x y then x else y.

(** [round(x, 3)]: the nearest multiple of 1/1000, ties to even, on the
    exact value. The code rounds the double that stands for the value; a
    double is exactly halfway only at an odd multiple of 1/16, so where the
    exact value is another tie the code gives one of the two neighbours,
    not always the even one. *)
Definition round_half_even (x : Q) : Z :=
  let f := Qfloor x in
  let d := x - inject_Z f in
  if Qltb d (1 # 2) then f
  else if Qltb (1 # 2) d then (f + 1)%Z
  else if Z.even f then f else (f + 1)%Z.

Definition round3 (x : Q) : Q := Qmake (round_half_even (x * 1000)) 1000.

(** ** Data model *)

Inductive EntityType : Type :=
  | DISEASE | SYMPTOM | MEDICATION | DOSAGE | ANATOMY | UNKNOWN.

#[global] Instance EntityType_eq_dec : EqDecision EntityType.
Proof. solve_decision. Defined.

(** [entity_type.value] *)
Definition EntityType_value (t : EntityType) : string :=
  match t with
  | DISEASE => "DISEASE" | SYMPTOM => "SYMPTOM" | MEDICATION => "MEDICATION"
  | DOSAGE => "DOSAGE" | ANATOMY => "ANATOMY" | UNKNOWN => "UNKNOWN"
  end.

(** [EntityType[name]]; [None] stands for the [KeyError]. *)
Definition EntityType_of_name (name : string) : option EntityType :=
  find (fun t => String.eqb (EntityType_value t) name)
       [DISEASE; SYMPTOM; MEDICATION; DOSAGE; ANATOMY; UNKNOWN].

Record MedicalEntity : Type := mkEntity {
  text : string;
  type : EntityType;
  start_pos : Z;
  end_pos : Z;
  confidence : Q;
  umls_code : option string;
  normalized_text : option string;
  metadata : option (gmap string string)
}.

Record NERConfig : Type := mkConfig {
  AUTO_ACCEPT_THRESHOLD : Q;
  REVIEW_THRESHOLD : Q;
  REJECT_THRESHOLD : Q;
  ENABLE_UMLS : bool;
  USE_CACHE : bool
}.

(** The class attributes of [NERConfig]. *)
Definition default_config : NERConfig := {|
  AUTO_ACCEPT_THRESHOLD := 50 # 100;
  REVIEW_THRESHOLD := 30 # 100;
  REJECT_THRESHOLD := 20 # 100;
  ENABLE_UMLS := true;
  USE_CACHE := true
|}.

(** ** RuleBasedClassifier *)

Module RuleBasedClassifier.

(** [word + "s?"] *)
Definition plural (w : string) : re := Seq (Lit w) (Opt (One (CChar "s"))).

(** The pattern lists of [_initialize_patterns], one per entity type.
    Groups are written without their capture index, which [classify] never
    reads. *)
Definition medication_patterns : list re := [
  (* \b\w+(olol|pril|...|ate)\b *)
  seqs [WordB; Plus CWord;
        words ["olol"; "pril"; "pine"; "zole"; "cillin"; "mycin"; "vir";
               "mab"; "nib"; "stat"; "pram"; "zepam"; "done"; "sone";
               "ide"; "ine"; "ate"];
        WordB];
  (* \b(metformin|insulin|...|tramadol)\b *)
  seqs [WordB;
        words ["metformin"; "insulin"; "aspirin"; "ibuprofen";
               "acetaminophen"; "tylenol"; "advil"; "amoxicillin";
               "lisinopril"; "metoprolol"; "atorvastatin"; "lipitor";
               "omeprazole"; "levothyroxine"; "gabapentin"; "prednisone";
               "hydrochlorothiazide"; "furosemide"; "amlodipine";
               "losartan"; "simvastatin"; "pantoprazole"; "warfarin";
               "tramadol"];
        WordB]
].

Definition dosage_patterns : list re := [
  (* \d+\.?\d*\s?(mg|milligrams?|...|puffs?) *)
  seqs [Plus CDigit; Opt (One (CChar ".")); Star CDigit; Opt (One CSpace);
        alts [Lit "mg"; plural "milligram"; Lit "mcg"; plural "microgram";
              Lit "g"; plural "gram"; Lit "ml"; plural "milliliter";
              Lit "cc"; plural "unit"; Lit "iu"; plural "tablet";
              plural "pill"; plural "cap"; plural "capsule"; plural "drop";
              plural "puff"]];
  (* \b(once|twice|three times|four times)\s+(daily|a day|per day) *)
  seqs [WordB; words ["once"; "twice"; "three times"; "four times"];
        Plus CSpace; words ["daily"; "a day"; "per day"]];
  (* \b(bid|tid|qid|prn|qd|qhs|qod)\b *)
  seqs [WordB; words ["bid"; "tid"; "qid"; "prn"; "qd"; "qhs"; "qod"]; WordB];
  (* \b(every|each)\s+\d+\s+(hours?|days?|weeks?|months?) *)
  seqs [WordB; words ["every"; "each"]; Plus CSpace; Plus CDigit; Plus CSpace;
        alts [plural "hour"; plural "day"; plural "week"; plural "month"]]
].

Definition symptom_patterns : list re := [
  (* \b\w*\s*(pain|ache|soreness|tenderness|discomfort)\b *)
  seqs [WordB; Star CWord; Star CSpace;
        words ["pain"; "ache"; "soreness"; "tenderness"; "discomfort"];
        WordB];
  (* \b(fever|chills|...|depression)\b *)
  seqs [WordB;
        words ["fever"; "chills"; "fatigue"; "weakness"; "nausea";
               "vomiting"; "diarrhea"; "constipation"; "cough";
               "shortness of breath"; "dyspnea"; "headache"; "dizziness";
               "vertigo"; "rash"; "itching"; "pruritus"; "swelling";
               "edema"; "bleeding"; "discharge"; "numbness"; "tingling";
               "paresthesia"; "insomnia"; "anxiety"; "depression"];
        WordB];
  (* \b(acute|chronic|...|stabbing)\s+\w+ *)
  seqs [WordB;
        words ["acute"; "chronic"; "severe"; "mild"; "moderate";
               "intermittent"; "constant"; "sudden"; "gradual"; "sharp";
               "dull"; "burning"; "throbbing"; "stabbing"];
        Plus CSpace; Plus CWord]
].

Definition disease_patterns : list re := [
  (* \b\w+(itis|osis|...|deficiency)\b *)
  seqs [WordB; Plus CWord;
        words ["itis"; "osis"; "emia"; "oma"; "pathy"; "syndrome";
               "disease"; "disorder"; "deficiency"];
        WordB];
  (* \b(diabetes|hypertension|...|seizure)\b *)
  seqs [WordB;
        words ["diabetes"; "hypertension"; "asthma"; "copd"; "pneumonia";
               "bronchitis"; "arthritis"; "osteoporosis"; "cancer"; "tumor";
               "malignancy"; "infection"; "sepsis"; "stroke"; "cva"; "mi";
               "myocardial infarction"; "heart failure"; "chf";
               "atrial fibrillation"; "afib"; "anemia"; "hypothyroidism";
               "hyperthyroidism"; "depression"; "anxiety"; "bipolar";
               "schizophrenia"; "alzheimer"; "dementia"; "parkinson";
               "epilepsy"; "seizure"];
        WordB]
].

Definition anatomy_patterns : list re := [
  (* \b(head|brain|...|vein)\b *)
  seqs [WordB;
        words ["head"; "brain"; "skull"; "eye"; "ear"; "nose"; "mouth";
               "throat"; "neck"; "chest"; "heart"; "lung"; "liver";
               "kidney"; "stomach"; "intestine"; "colon"; "arm"; "leg";
               "foot"; "hand"; "finger"; "toe"; "back"; "spine"; "bone";
               "muscle"; "skin"; "blood"; "nerve"; "vessel"; "artery";
               "vein"];
        WordB];
  (* \b(cardiac|pulmonary|...|cranial)\b *)
  seqs [WordB;
        words ["cardiac"; "pulmonary"; "hepatic"; "renal"; "gastric";
               "cerebral"; "thoracic"; "abdominal"; "cervical"; "lumbar";
               "cranial"];
        WordB]
].

(** [_initialize_patterns]: the pattern table in the order the dictionary
    literal lists it. *)
Definition _initialize_patterns : list (EntityType * list re) := [
  (MEDICATION, medication_patterns);
  (DOSAGE, dosage_patterns);
  (SYMPTOM, symptom_patterns);
  (DISEASE, disease_patterns);
  (ANATOMY, anatomy_patterns)
].

(** [compile_patterns] compiles every pattern with [re.IGNORECASE] and keeps
    the order of the table. *)
Definition compiled_patterns : list (EntityType * list re) :=
  _initialize_patterns.

Definition pattern_search (p : re) (s : string) : bool := Re.search true p s.
Definition pattern_fullmatch (p : re) (s : string) : bool :=
  Re.fullmatch true p s.

(** The inner loop of [classify]: the first pattern of one group that is
    found in the text decides. *)
Fixpoint classify_group (entity_type : EntityType) (patterns : list re)
    (text_lower : string) : option (option EntityType * Q) :=
  match patterns with
  | [] => None
  | pattern :: rest =>
      if pattern_search pattern text_lower
      then Some (Some entity_type,
                 if pattern_fullmatch pattern text_lower
                 then 95 # 100 else 85 # 100)
      else classify_group entity_type rest text_lower
  end.

(** The outer loop of [classify] over the groups. *)
Fixpoint classify_groups (groups : list (EntityType * list re))
    (text_lower : string) : option EntityType * Q :=
  match groups with
  | [] => (None, 0)
  | (entity_type, patterns) :: rest =>
      match classify_group entity_type patterns text_lower with
      | Some r => r
      | None => classify_groups rest text_lower
      end
  end.

Definition classify (text : string) : option EntityType * Q :=
  let text_lower := Py.strip (Py.lower text) in
  classify_groups compiled_patterns text_lower.

End RuleBasedClassifier.

(** ** UMLSClient *)

(** A Python exception; [exn_msg] is [str(e)]. *)
Inductive exn : Type := Exn (exn_msg : string).

Definition exn_msg (e : exn) : string := match e with Exn m => m end.

(** A field of a JSON object as the client reads it: missing, [null] or a
    string. *)
Inductive pyfield : Type :=
  | Absent
  | Null
  | Str (s : string).

(** [obj.get(key, default)] for a string default: [None] is Python's
    [None]. *)
Definition field_get (f : pyfield) (default : string) : option string :=
  match f with
  | Absent => Some default
  | Null => None
  | Str s => Some s
  end.

(** Truthiness of an optional string ([None] and [''] are falsy). *)
Definition opt_truthy (o : option string) : bool :=
  match o with Some s => Py.truthy s | None => false end.

Record SearchItem : Type := mkItem { ui : pyfield; name : pyfield }.
Record SemType : Type := mkSemType { uri : pyfield }.

(** The value under ["result"] of a JSON reply of the terminology service. *)
Inductive JResult : Type :=
  | NoResult                                (* no "result", or {} *)
  | Results (results : list SearchItem)     (* {"results": [...]} *)
  | Concept (semanticTypes : list SemType). (* a concept object *)

(** [response.json()] *)
Inductive Body : Type :=
  | NotJson                (* json() raises *)
  | Json (result : JResult).

Record Response : Type := mkResponse {
  status_code : Z;
  location : option string; (* headers.get('location') *)
  resp_text : string;       (* response.text *)
  body : Body
}.

(** What one HTTP call gives: an exception (connection error, timeout) or a
    response. *)
Definition Reply : Type := exn + Response.

Inductive Request : Type :=
  | PostAuth (endpoint apikey : string)
  | PostTicket (tgt service : string)
  | GetSearch (ticket term searchType : string)
  | GetConcept (cui ticket : string).

(** A lookup result: the dictionary [lookup_term] returns. *)
Inductive KBMeta : Type :=
  | MetaError (error : string)
  | MetaNoResults                 (* {"umls_search": "no_results"} *)
  | MetaSuccess (concept_name : string) (semantic_types : list string)
                (name_similarity : Q).

Record Result : Type := mkResult {
  res_entity_type : string;
  res_umls_code : option string;
  res_confidence : Q;
  res_metadata : option KBMeta
}.

(** A row of the table [umls_cache]; the key is the column [term]. *)
Record CacheRow : Type := mkRow {
  row_entity_type : string;
  row_umls_code : option string;
  row_confidence : Q;
  row_metadata : option KBMeta;
  row_timestamp : Z
}.

(** The client object together with what it reads from outside: the clock,
    the environment and the network. The network is the list of replies
    still to come; every call is logged in [requests]. *)
Record World : Type := mkWorld {
  clock : Q;                       (* time.time() *)
  env_api_key : option string;     (* os.environ.get("UMLS_API_KEY") *)
  replies : list Reply;
  requests : list Request;
  api_key : string;                (* self.api_key *)
  use_cache : bool;                (* self.use_cache *)
  tgt_url : option string;         (* self.tgt_url *)
  tgt_expiry : Q;                  (* self.tgt_expiry *)
  cache : gmap string CacheRow     (* the table umls_cache *)
}.

Definition set_replies (rs : list Reply) (rq : list Request) (w : World) :=
  mkWorld (clock w) (env_api_key w) rs rq (api_key w) (use_cache w)
          (tgt_url w) (tgt_expiry w) (cache w).
Definition set_tgt_url (u : option string) (w : World) :=
  mkWorld (clock w) (env_api_key w) (replies w) (requests w) (api_key w)
          (use_cache w) u (tgt_expiry w) (cache w).
Definition set_tgt_expiry (t : Q) (w : World) :=
  mkWorld (clock w) (env_api_key w) (replies w) (requests w) (api_key w)
          (use_cache w) (tgt_url w) t (cache w).
Definition set_cache (c : gmap string CacheRow) (w : World) :=
  mkWorld (clock w) (env_api_key w) (replies w) (requests w) (api_key w)
          (use_cache w) (tgt_url w) (tgt_expiry w) c.
Definition set_clock (t : Q) (w : World) :=
  mkWorld t (env_api_key w) (replies w) (requests w) (api_key w)
          (use_cache w) (tgt_url w) (tgt_expiry w) (cache w).

(** Computations that read and change the world and may raise. *)
Definition M (A : Type) : Type := World -> (exn + A) * World.

Definition ret {A} (a : A) : M A := fun w => (inr a, w).
Definition raise {A} (e : exn) : M A := fun w => (inl e, w).
Definition bind {A B} (m : M A) (k : A -> M B) : M B :=
  fun w => match m w with
           | (inr a, w') => k a w'
           | (inl e, w') => (inl e, w')
           end.
(** [try: body except Exception as e: handler(e)] *)
Definition try_except {A} (body : M A) (handler : exn -> M A) : M A :=
  fun w => match body w with
           | (inr a, w') => (inr a, w')
           | (inl e, w') => handler e w'
           end.
Definition get {A} (f : World -> A) : M A := fun w => (inr (f w), w).
Definition modify (f : World -> World) : M unit := fun w => (inr tt, f w).

#[global] Instance M_ret : MRet M := @ret.
#[global] Instance M_bind : MBind M := fun A B k m => bind m k.

Module UMLSClient.

Definition auth_endpoint : string :=
  "https://utslogin.nlm.nih.gov/cas/v1/api-key".

(** [requests.post] / [requests.get]: the next reply of the network; a
    network that has nothing more to say refuses the connection. *)
Definition http (rq : Request) : M Response :=
  fun w =>
    match replies w with
    | [] => (inl (Exn "connection refused"),
             set_replies [] (requests w ++ [rq]) w)
    | r :: rs =>
        match r with
        | inl e => (inl e, set_replies rs (requests w ++ [rq]) w)
        | inr resp => (inr resp, set_replies rs (requests w ++ [rq]) w)
        end
    end.

(** [__init__]: a client with the given key and cache switch and no
    granting credential yet; the table [umls_cache] is kept as it is on
    disk. *)
Definition init (key : string) (cache_on : bool) (w : World) : World :=
  mkWorld (clock w) (env_api_key w) (replies w) (requests w) key cache_on
          None 0 (cache w).

(** The key of a term in the cache: [term.lower().strip()]. *)
Definition cache_key (term : string) : string := Py.strip (Py.lower term).

(** [CACHE_EXPIRY]: 30 * 24 * 3600 seconds. *)
Definition cache_ttl : Q := inject_Z (30 * 24 * 3600).

Definition row_result (row : CacheRow) : Result :=
  mkResult (row_entity_type row) (row_umls_code row) (row_confidence row)
           (row_metadata row).

Definition row_live (now : Q) (row : CacheRow) : bool :=
  Qltb (now - inject_Z (row_timestamp row)) cache_ttl.

Definition _get_cached_result (term : string) : M (option Result) :=
  uc ← get use_cache;
  if negb uc then ret None else
  let term_lower := cache_key term in
  c ← get cache;
  now ← get clock;
  match c !! term_lower with
  | Some row =>
      if row_live now row then ret (Some (row_result row)) else ret None
  | None => ret None
  end.

(** [int(x)]: truncation towards zero. *)
Definition py_int (x : Q) : Z := Z.quot (Qnum x) (Zpos (Qden x)).

Definition _cache_result (term : string) (result : Result) : M unit :=
  uc ← get use_cache;
  if negb uc then ret tt else
  let term_lower := cache_key term in
  now ← get clock;
  modify (fun w =>
    set_cache (<[term_lower :=
                 mkRow (res_entity_type result) (res_umls_code result)
                       (res_confidence result) (res_metadata result)
                       (py_int now)]> (cache w)) w).

Definition _get_tgt_url : M (option string) :=
  tgt ← get tgt_url;
  now ← get clock;
  expiry ← get tgt_expiry;
  if opt_truthy tgt && Qltb now expiry then ret tgt else
  try_except
    (key ← get api_key;
     response ← http (PostAuth auth_endpoint key);
     if (status_code response =? 201)%Z then
       modify (set_tgt_url (location response));;
       if opt_truthy (location response) then
         modify (set_tgt_expiry (now + inject_Z (8 * 3600)));;
         ret (location response)
       else ret None
     else ret None)
    (fun e => ret None).

Definition _get_fresh_service_ticket : M (option string) :=
  tgt ← _get_tgt_url;
  match tgt with
  | Some tgt_url =>
      if negb (Py.truthy tgt_url) then ret None else
      try_except
        (response ← http (PostTicket tgt_url "http://umlsks.nlm.nih.gov");
         if (status_code response =? 200)%Z
         then ret (Some (Py.strip (resp_text response)))
         else ret None)
        (fun e => ret None)
  | None => ret None
  end.

(** [response.json().get('result', {}).get('results', [])] *)
Definition json_results (b : Body) : M (list SearchItem) :=
  match b with
  | NotJson => raise (Exn "Expecting value")
  | Json (Results rs) => ret rs
  | Json _ => ret []
  end.

Definition _search_umls_concept (term : string) : M (list SearchItem) :=
  service_ticket ← _get_fresh_service_ticket;
  if negb (opt_truthy service_ticket) then ret [] else
  try_except
    (response ← http (GetSearch (default "" service_ticket) term "exact");
     if (status_code response =? 200)%Z then
       results ← json_results (body response);
       match results with
       | _ :: _ => ret results
       | [] =>
           service_ticket ← _get_fresh_service_ticket;
           if negb (opt_truthy service_ticket) then ret [] else
           response ← http (GetSearch (default "" service_ticket) term
                                      "approximate");
           if (status_code response =? 200)%Z
           then json_results (body response)
           else ret []
       end
     else ret [])
    (fun e => ret []).

(** [response.json().get('result', {})]; [None] is the empty dictionary. *)
Definition json_concept (b : Body) : M (option (list SemType)) :=
  match b with
  | NotJson => raise (Exn "Expecting value")
  | Json NoResult => ret None
  | Json (Results _) => ret (Some [])
  | Json (Concept sts) => ret (Some sts)
  end.

(** [cui.startswith('C') and len(cui) == 8] *)
Definition looks_like_cui (cui : string) : bool :=
  match cui with
  | String c _ => Ascii.eqb c "C" && (String.length cui =? 8)%nat
  | EmptyString => false
  end.

Definition _get_concept_details (cui : option string)
    : M (option (list SemType)) :=
  service_ticket ← _get_fresh_service_ticket;
  if negb (opt_truthy service_ticket) then ret None else
  try_except
    (match cui with
     | None => raise (Exn "'NoneType' object has no attribute 'startswith'")
     | Some c =>
         if looks_like_cui c then
           response ← http (GetConcept c (default "" service_ticket));
           if (status_code response =? 200)%Z
           then json_concept (body response)
           else ret None
         else ret None
     end)
    (fun e => ret None).

Definition semantic_mapping : list (string * string) := [
  ("T047", "DISEASE"); ("T046", "DISEASE"); ("T048", "DISEASE");
  ("T049", "DISEASE"); ("T019", "DISEASE"); ("T020", "DISEASE");
  ("T037", "DISEASE"); ("T050", "DISEASE");
  ("T184", "SYMPTOM"); ("T033", "DISEASE"); ("T034", "SYMPTOM");
  ("T201", "SYMPTOM");
  ("T121", "MEDICATION"); ("T195", "MEDICATION"); ("T200", "MEDICATION");
  ("T203", "MEDICATION"); ("T122", "MEDICATION"); ("T103", "MEDICATION");
  ("T109", "MEDICATION"); ("T114", "MEDICATION"); ("T115", "MEDICATION");
  ("T116", "MEDICATION"); ("T118", "MEDICATION"); ("T119", "MEDICATION");
  ("T120", "MEDICATION"); ("T125", "MEDICATION"); ("T126", "MEDICATION");
  ("T127", "MEDICATION"); ("T129", "MEDICATION"); ("T130", "MEDICATION");
  ("T131", "MEDICATION");
  ("T017", "ANATOMY"); ("T029", "ANATOMY"); ("T023", "ANATOMY");
  ("T030", "ANATOMY"); ("T031", "ANATOMY"); ("T022", "ANATOMY");
  ("T025", "ANATOMY"); ("T026", "ANATOMY"); ("T018", "ANATOMY");
  ("T021", "ANATOMY"); ("T024", "ANATOMY"); ("T028", "ANATOMY")
].

Definition mapping_get (sem_type : string) : option string :=
  snd <$> find (fun kv => String.eqb (fst kv) sem_type) semantic_mapping.

(** [confidence_scores[entity_type] += 0.9] on the four-key dictionary,
    kept in the order of its literal. *)
Definition add_score (entity_type : string) (scores : list (string * Q))
    : list (string * Q) :=
  map (fun kv => if String.eqb (fst kv) entity_type
                 then (fst kv, snd kv + (9 # 10)) else kv) scores.

Fixpoint accumulate (semantic_types : list string)
    (scores : list (string * Q)) : list (string * Q) :=
  match semantic_types with
  | [] => scores
  | sem_type :: rest =>
      match mapping_get sem_type with
      | Some entity_type => accumulate rest (add_score entity_type scores)
      | None => accumulate rest scores
      end
  end.

(** [max(d, key=d.get)]: the first key with the largest value. *)
Fixpoint max_key (best : string * Q) (scores : list (string * Q))
    : string * Q :=
  match scores with
  | [] => best
  | kv :: rest => if Qltb (snd best) (snd kv) then max_key kv rest
                  else max_key best rest
  end.

Definition _map_semantic_type_to_entity (semantic_types : list string)
    : string * Q :=
  let confidence_scores :=
    accumulate semantic_types
      [("DISEASE", 0); ("SYMPTOM", 0); ("MEDICATION", 0); ("ANATOMY", 0)] in
  let '(best_type, best_confidence) :=
    match confidence_scores with
    | kv :: rest => max_key kv rest
    | [] => ("DISEASE", 0)
    end in
  if Qltb 0 best_confidence
  then (best_type, Qmin' best_confidence (95 # 100))
  else ("UNKNOWN", 5 # 10).

Definition _calculate_name_similarity (term1 term2 : string) : Q :=
  if String.eqb term1 term2 then 1
  else if Py.contains term1 term2 || Py.contains term2 term1 then 9 # 10
  else
    let words1 : gset string := list_to_set (Py.split term1) in
    let words2 : gset string := list_to_set (Py.split term2) in
    let overlap := size (words1 ∩ words2) in
    let total := size (words1 ∪ words2) in
    if (0 <? overlap)%nat
    then (7 # 10) + (Z.of_nat overlap # Pos.of_nat total) * (2 # 10)
    else 6 # 10.

(** The loop of [lookup_term] that extracts the T-codes from the URIs. *)
Fixpoint extract_tcodes (sem_types : list SemType) : list string :=
  match sem_types with
  | [] => []
  | st :: rest =>
      match field_get (uri st) "" with
      | Some u =>
          if Py.truthy u && Py.contains "/TUI/" u
          then Py.after_last "/TUI/" u :: extract_tcodes rest
          else extract_tcodes rest
      | None => extract_tcodes rest
      end
  end.

(** [concept_name.lower()]; [None] has no such method. *)
Definition lower_opt (s : option string) : M string :=
  match s with
  | Some s => ret (Py.lower s)
  | None => raise (Exn "'NoneType' object has no attribute 'lower'")
  end.

Definition no_key_result : Result :=
  mkResult "UNKNOWN" None 0 (Some (MetaError "No API key")).
Definition no_results_result : Result :=
  mkResult "UNKNOWN" None (3 # 10) (Some MetaNoResults).
Definition error_result (e : exn) : Result :=
  mkResult "UNKNOWN" None 0 (Some (MetaError (exn_msg e))).

(** The body of the [try] block of [lookup_term]: the search, the concept
    details, the mapping and the write to the cache. *)
Definition lookup_remote (term : string) : M Result :=
  search_results ← _search_umls_concept term;
  match search_results with
  | [] =>
      _cache_result term no_results_result;;
      ret no_results_result
  | best_result :: _ =>
      let cui := field_get (ui best_result) "" in
      let concept_name := field_get (name best_result) "" in
      concept_details ← _get_concept_details cui;
      let semantic_types :=
        match concept_details with
        | Some sem_types => extract_tcodes sem_types
        | None => []
        end in
      let '(entity_type, base_confidence) :=
        _map_semantic_type_to_entity semantic_types in
      name_lower ← lower_opt concept_name;
      let name_similarity :=
        _calculate_name_similarity (Py.lower term) name_lower in
      let final_confidence := base_confidence * name_similarity in
      let result :=
        mkResult entity_type cui (round3 final_confidence)
          (Some (MetaSuccess (default "" concept_name) semantic_types
                             (round3 name_similarity))) in
      _cache_result term result;;
      ret result
  end.

Definition lookup_term (term : string) : M Result :=
  cached ← _get_cached_result term;
  match cached with
  | Some r => ret r
  | None =>
      key ← get env_api_key;
      if negb (opt_truthy key) then ret no_key_result else
      try_except (lookup_remote term) (fun e => ret (error_result e))
  end.

End UMLSClient.

(** ** MedicalNERPipeline *)

(** A candidate span: the dictionary with the keys [text], [start], [end]
    and [score]. The tagger's spans ([word], [start], [end], [score]) have
    the same shape. *)
Record Candidate : Type := mkCand {
  c_text : string;
  c_start : Z;
  c_end : Z;
  c_score : Q
}.

(** The token-classification pipeline: an external tagger that may fail. *)
Definition Tagger : Type := string -> exn + list Candidate.

(** The pipeline object: its configuration and the tagger, [None] when the
    token-classification model could not be loaded. *)
Record Pipeline : Type := mkPipeline {
  config : NERConfig;
  ner_pipeline : option Tagger
}.

(** An insertion-ordered dictionary with string keys. *)
Fixpoint odict_set {V} (k : string) (v : V) (d : list (string * V))
    : list (string * V) :=
  match d with
  | [] => [(k, v)]
  | (k', v') :: d' =>
      if String.eqb k' k then (k, v) :: d' else (k', v') :: odict_set k v d'
  end.

Definition odict_get {V} (k : string) (d : list (string * V)) : option V :=
  snd <$> find (fun kv => String.eqb (fst kv) k) d.

(** [entity.to_dict()] *)
Record EntityDict : Type := mkDict {
  d_text : string;
  d_type : string;
  d_position : Z * Z;
  d_confidence : Q;
  d_umls_code : option string;
  d_normalized : option string;
  d_metadata : option (gmap string string)
}.

Definition to_dict (e : MedicalEntity) : EntityDict :=
  mkDict (text e) (EntityType_value (type e)) (start_pos e, end_pos e)
         (round3 (confidence e)) (umls_code e) (normalized_text e)
         (metadata e).

(** A value of [medications_with_dosage]. *)
Record MedRecord : Type := mkMed {
  med_name : string;
  med_normalized_name : option string;
  med_confidence : Q;
  med_position : Z * Z;
  med_dosage : option string;
  med_umls_code : option string
}.

Definition set_dosage (d : string) (m : MedRecord) : MedRecord :=
  mkMed (med_name m) (med_normalized_name m) (med_confidence m)
        (med_position m) (Some d) (med_umls_code m).

(** [grouped_entities] while the loop of [process_document] runs, with
    [medications_with_dosage] next to it. *)
Record Grouped : Type := mkGrouped {
  diseases : list EntityDict;
  symptoms : list EntityDict;
  dosages : list EntityDict;
  anatomy : list EntityDict;
  unclassified : list EntityDict;
  medications_with_dosage : list (string * MedRecord)
}.

Record Statistics : Type := mkStats {
  n_diseases : nat;
  n_symptoms : nat;
  n_medications : nat;
  n_auto_accepted : nat;
  n_needs_review : nat
}.

(** The document result; the wall-clock latency is left out. *)
Record Output : Type := mkOutput {
  status : string;
  text_length : Z;
  total_entities : nat;
  entities : Grouped;
  medications : list MedRecord;
  statistics : Statistics;
  confidence_summary : nat * nat * nat (* high, medium, low *)
}.

Module MedicalNERPipeline.

Import UMLSClient.

Definition set_normalized (n : option string) (e : MedicalEntity) :=
  mkEntity (text e) (type e) (start_pos e) (end_pos e) (confidence e)
           (umls_code e) n (metadata e).
Definition set_metadata (m : option (gmap string string)) (e : MedicalEntity) :=
  mkEntity (text e) (type e) (start_pos e) (end_pos e) (confidence e)
           (umls_code e) (normalized_text e) m.

(** [entity.metadata = entity.metadata or {}; entity.metadata[k] = v] *)
Definition metadata_set (k v : string) (e : MedicalEntity) : MedicalEntity :=
  set_metadata (Some (<[k := v]> (default ∅ (metadata e)))) e.

(** [entity.metadata.get(k) if entity.metadata else None] *)
Definition metadata_get (k : string) (e : MedicalEntity) : option string :=
  match metadata e with
  | Some m => m !! k
  | None => None
  end.

(** [__init__] builds the client from the configuration:
    [UMLSClient(self.config.UMLS_API_KEY, self.config.USE_CACHE)]. *)
Definition init_umls_client (cfg : NERConfig) (key : string) (w : World)
    : World :=
  UMLSClient.init key (USE_CACHE cfg) w.

Definition abbreviations : list (string * string) := [
  ("pt", "patient"); ("hx", "history"); ("dx", "diagnosis");
  ("tx", "treatment"); ("rx", "prescription"); ("sx", "symptoms");
  ("c/o", "complains of"); ("w/", "with"); ("w/o", "without");
  ("yo", "year old"); ("y/o", "year old")
].

(** [r'\b' + abbr + r'\b'] *)
Definition abbr_pattern (abbr : string) : re := seqs [WordB; Lit abbr; WordB].

(** The loop over [abbreviations.items()]. *)
Fixpoint expand_abbreviations (abbrs : list (string * string))
    (text : string) : string :=
  match abbrs with
  | [] => text
  | (abbr, full) :: rest =>
      expand_abbreviations rest
        (Re.sub true (abbr_pattern abbr) [PLit full] text)
  end.

Definition _preprocess_text (text : string) : string :=
  (* re.sub(r'\s+', ' ', text) *)
  let text := Re.sub false (Plus CSpace) [PLit " "] text in
  (* re.sub(r'(\d+)([a-zA-Z]+)', r'\1 \2', text) *)
  let text := Re.sub false (Seq (Group 1 (Plus CDigit)) (Group 2 (Plus CAlpha)))
                     [PRef 1; PLit " "; PRef 2] text in
  expand_abbreviations abbreviations text.

(** The regex patterns of [_extract_entity_candidates] with their base
    scores. *)
Definition candidate_patterns : list (re * Q) := [
  (* \b(\w+)\s+(\d+\s?mg)\b *)
  (seqs [WordB; Group 1 (Plus CWord); Plus CSpace;
         Group 2 (seqs [Plus CDigit; Opt (One CSpace); Lit "mg"]); WordB],
   85 # 100);
  (* \b(diabetes|hypertension|infection|infarction)\b *)
  (seqs [WordB; words ["diabetes"; "hypertension"; "infection"; "infarction"];
         WordB], 90 # 100);
  (* \b(fever|headache|pain|stiffness|nausea)\b *)
  (seqs [WordB; words ["fever"; "headache"; "pain"; "stiffness"; "nausea"];
         WordB], 85 # 100);
  (* \b\d+\s?(mg|ml|mcg|daily|twice daily|BID)\b *)
  (seqs [WordB; Plus CDigit; Opt (One CSpace);
         words ["mg"; "ml"; "mcg"; "daily"; "twice daily"; "BID"]; WordB],
   80 # 100);
  (* \b\w+(itis|osis|emia|oma|pathy)\b *)
  (seqs [WordB; Plus CWord; words ["itis"; "osis"; "emia"; "oma"; "pathy"];
         WordB], 75 # 100);
  (* \b(metformin|aspirin|atorvastatin|metoprolol|ibuprofen|lisinopril)\b *)
  (seqs [WordB;
         words ["metformin"; "aspirin"; "atorvastatin"; "metoprolol";
                "ibuprofen"; "lisinopril"];
         WordB], 90 # 100)
].

Definition regex_candidates (text : string) : list Candidate :=
  flat_map (fun pb =>
    map (fun m => mkCand (f_group m) (f_start m) (f_end m) (snd pb))
        (Re.finditer true (fst pb) text))
    candidate_patterns.

(** The loop that removes duplicates, keyed by [(text.lower(), start)]. *)
Fixpoint unique_candidates (seen : gset (string * Z))
    (candidates : list Candidate) : list Candidate :=
  match candidates with
  | [] => []
  | cand :: rest =>
      let key := (Py.lower (c_text cand), c_start cand) in
      if bool_decide (key ∈ seen)
      then unique_candidates seen rest
      else cand :: unique_candidates ({[key]} ∪ seen) rest
  end.

Definition _extract_entity_candidates (p : Pipeline) (text : string)
    : list Candidate :=
  let tagged :=
    match ner_pipeline p with
    | Some tagger =>
        match tagger text with
        | inr ents => ents
        | inl _ => []
        end
    | None => []
    end in
  unique_candidates ∅ (tagged ++ regex_candidates text).

(** Steps 1 and 2 of the loop of [_classify_entities]: the rule classifier,
    then the knowledge base when the rules say nothing or too little. The
    result is the type, the classification confidence and the code. *)
Definition fuse (cfg : NERConfig) (text : string)
    : M (option EntityType * Q * option string) :=
  let '(entity_type, confidence) := RuleBasedClassifier.classify text in
  if bool_decide (entity_type = None) || Qltb confidence (8 # 10) then
    if ENABLE_UMLS cfg then
      umls_result ← lookup_term text;
      if Qltb confidence (res_confidence umls_result) then
        match EntityType_of_name (res_entity_type umls_result) with
        | Some t =>
            mret (Some t, res_confidence umls_result,
                  res_umls_code umls_result)
        | None => raise (Exn (res_entity_type umls_result))
        end
      else mret (entity_type, confidence, None)
    else mret (entity_type, confidence, None)
  else mret (entity_type, confidence, None).

(** The body of the loop of [_classify_entities]. *)
Definition classify_candidate (cfg : NERConfig) (cand : Candidate)
    : M (option MedicalEntity) :=
  '(entity_type, confidence, umls_code) ← fuse cfg (c_text cand);
  match entity_type with
  | Some t =>
      mret (Some (mkEntity (c_text cand) t (c_start cand) (c_end cand)
                           (confidence * c_score cand) umls_code None None))
  | None => mret None
  end.

Fixpoint _classify_entities (cfg : NERConfig) (candidates : list Candidate)
    : M (list MedicalEntity) :=
  match candidates with
  | [] => mret []
  | cand :: rest =>
      entity ← classify_candidate cfg cand;
      classified ← _classify_entities cfg rest;
      mret (match entity with
            | Some e => e :: classified
            | None => classified
            end)
  end.

Definition brand_to_generic : list (string * string) := [
  ("tylenol", "acetaminophen"); ("advil", "ibuprofen");
  ("motrin", "ibuprofen"); ("lipitor", "atorvastatin");
  ("zocor", "simvastatin"); ("prilosec", "omeprazole");
  ("nexium", "esomeprazole")
].

Definition _normalize_drug_name (drug_name : string) : string :=
  default drug_name (odict_get (Py.lower drug_name) brand_to_generic).

(** [distance < min_distance] where [None] is [float('inf')]. *)
Definition below (distance : Z) (min_distance : option Z) : bool :=
  match min_distance with
  | Some m => (distance <? m)%Z
  | None => true
  end.

(** The loop of [_find_nearest_medication]. *)
Fixpoint nearest_loop (dosage_entity : MedicalEntity)
    (medications : list MedicalEntity) (min_distance : option Z)
    (nearest_med : option MedicalEntity) : option MedicalEntity :=
  match medications with
  | [] => nearest_med
  | med :: rest =>
      let distance := Z.abs (start_pos dosage_entity - end_pos med) in
      if below distance min_distance && (distance <? 50)%Z
      then nearest_loop dosage_entity rest (Some distance) (Some med)
      else nearest_loop dosage_entity rest min_distance nearest_med
  end.

Definition _find_nearest_medication (dosage_entity : MedicalEntity)
    (all_entities : list MedicalEntity) : option MedicalEntity :=
  let medications :=
    filter (fun e => type e = MEDICATION) all_entities in
  match medications with
  | [] => None
  | _ => nearest_loop dosage_entity medications None None
  end.

(** The body of the loop of [_postprocess_entities] for one entity, which
    reads the list as it is at that moment. *)
Definition postprocess_entity (entity : MedicalEntity)
    (entities : list MedicalEntity) (original_text : string) : MedicalEntity :=
  let entity :=
    if bool_decide (type entity = MEDICATION)
    then set_normalized (Some (_normalize_drug_name (text entity))) entity
    else entity in
  let entity :=
    if bool_decide (type entity = DOSAGE)
    then match _find_nearest_medication entity entities with
         | Some med_entity =>
             set_metadata (Some {[ "linked_medication" := text med_entity ]})
                          entity
         | None => entity
         end
    else entity in
  let context_start := Z.max 0 (start_pos entity - 20) in
  let context_end := Z.min (Py.len original_text) (end_pos entity + 20) in
  metadata_set "context" (Py.slice original_text context_start context_end)
               entity.

(** The loop of [_postprocess_entities]: the entities are updated in place,
    one index after the other. *)
Fixpoint postprocess_loop (n i : nat) (entities : list MedicalEntity)
    (original_text : string) : list MedicalEntity :=
  match n with
  | O => entities
  | S n' =>
      match entities !! i with
      | Some entity =>
          postprocess_loop n' (S i)
            (<[i := postprocess_entity entity entities original_text]> entities)
            original_text
      | None => entities
      end
  end.

Definition _postprocess_entities (entities : list MedicalEntity)
    (original_text : string) : list MedicalEntity :=
  postprocess_loop (length entities) 0 entities original_text.

Fixpoint _filter_by_confidence (cfg : NERConfig) (entities : list MedicalEntity)
    : list MedicalEntity :=
  match entities with
  | [] => []
  | entity :: rest =>
      if Qle_bool (AUTO_ACCEPT_THRESHOLD cfg) (confidence entity)
      then metadata_set "review_status" "auto_accepted" entity
           :: _filter_by_confidence cfg rest
      else if Qle_bool (REVIEW_THRESHOLD cfg) (confidence entity)
      then metadata_set "review_status" "needs_review" entity
           :: _filter_by_confidence cfg rest
      else _filter_by_confidence cfg rest
  end.

Definition extract_entities (p : Pipeline) (text : string)
    : M (list MedicalEntity) :=
  let preprocessed_text := _preprocess_text text in
  let entity_candidates := _extract_entity_candidates p preprocessed_text in
  classified_entities ← _classify_entities (config p) entity_candidates;
  let final_entities := _postprocess_entities classified_entities text in
  let filtered_entities := _filter_by_confidence (config p) final_entities in
  mret filtered_entities.

Definition empty_grouped : Grouped := mkGrouped [] [] [] [] [] [].

(** The body of the grouping loop of [process_document]. *)
Definition group_entity (g : Grouped) (entity : MedicalEntity) : Grouped :=
  let entity_dict := to_dict entity in
  match type entity with
  | DISEASE =>
      mkGrouped (diseases g ++ [entity_dict]) (symptoms g) (dosages g)
                (anatomy g) (unclassified g) (medications_with_dosage g)
  | SYMPTOM =>
      mkGrouped (diseases g) (symptoms g ++ [entity_dict]) (dosages g)
                (anatomy g) (unclassified g) (medications_with_dosage g)
  | MEDICATION =>
      let med_key := text entity in
      mkGrouped (diseases g) (symptoms g) (dosages g) (anatomy g)
                (unclassified g)
                (odict_set med_key
                   (mkMed (text entity) (normalized_text entity)
                          (confidence entity)
                          (start_pos entity, end_pos entity) None
                          (umls_code entity))
                   (medications_with_dosage g))
  | DOSAGE =>
      let linked_med := metadata_get "linked_medication" entity in
      match linked_med with
      | Some lm =>
          match (if Py.truthy lm
                 then odict_get lm (medications_with_dosage g) else None) with
          | Some rec =>
              mkGrouped (diseases g) (symptoms g) (dosages g) (anatomy g)
                        (unclassified g)
                        (odict_set lm (set_dosage (text entity) rec)
                                   (medications_with_dosage g))
          | None =>
              mkGrouped (diseases g) (symptoms g) (dosages g ++ [entity_dict])
                        (anatomy g) (unclassified g)
                        (medications_with_dosage g)
          end
      | None =>
          mkGrouped (diseases g) (symptoms g) (dosages g ++ [entity_dict])
                    (anatomy g) (unclassified g) (medications_with_dosage g)
      end
  | ANATOMY =>
      mkGrouped (diseases g) (symptoms g) (dosages g)
                (anatomy g ++ [entity_dict]) (unclassified g)
                (medications_with_dosage g)
  | UNKNOWN =>
      mkGrouped (diseases g) (symptoms g) (dosages g) (anatomy g)
                (unclassified g ++ [entity_dict]) (medications_with_dosage g)
  end.

Definition group_entities (entities : list MedicalEntity) : Grouped :=
  fold_left group_entity entities empty_grouped.

Definition count {A} (f : A -> bool) (l : list A) : nat :=
  length (List.filter f l).

Definition has_status (s : string) (e : MedicalEntity) : bool :=
  bool_decide (metadata_get "review_status" e = Some s).

Definition build_output (text : string) (entities : list MedicalEntity)
    : Output :=
  let grouped_entities := group_entities entities in
  let meds := map snd (medications_with_dosage grouped_entities) in
  mkOutput "success" (Py.len text) (length entities) grouped_entities meds
    (mkStats (length (diseases grouped_entities))
             (length (symptoms grouped_entities))
             (length meds)
             (count (has_status "auto_accepted") entities)
             (count (has_status "needs_review") entities))
    (count (fun e => Qle_bool (9 # 10) (confidence e)) entities,
     count (fun e => Qle_bool (7 # 10) (confidence e)
                     && Qltb (confidence e) (9 # 10)) entities,
     count (fun e => Qltb (confidence e) (7 # 10)) entities).

Definition process_document (p : Pipeline) (text : string) : M Output :=
  entities ← extract_entities p text;
  mret (build_output text entities).

End MedicalNERPipeline.

Import MedicalNERPipeline.

(** ** MedicalNLPAgent and its caller

    [MedicalNLPAgent] wraps the pipeline for the agents of
    [src/agents/medical_nlp_crew_agent.py]; [Enhanced_Medical_NLP_Agent]
    adds a one-line summary to the document result. *)

Module MedicalNLPAgent.

Definition get_structured_entities (p : Pipeline) (text : string) : M Output :=
  process_document p text.

End MedicalNLPAgent.

Module Enhanced_Medical_NLP_Agent.

(** [str(n)] for a count. *)
Definition py_str (n : nat) : string := NilZero.string_of_uint (Nat.to_uint n).

(** [summary.append(f"{n} {what}")] when [n > 0]. *)
Definition append_count (n : nat) (what : string) (summary : list string)
    : list string :=
  if (0 <? n)%nat
  then summary ++ [(py_str n ++ " " ++ what)%string]
  else summary.

Definition _generate_summary (result : Output) : string :=
  let summary := [] in
  let summary :=
    append_count (n_diseases (statistics result)) "disease(s)" summary in
  let summary :=
    append_count (n_symptoms (statistics result)) "symptom(s)" summary in
  let summary :=
    append_count (n_medications (statistics result)) "medication(s)" summary in
  match summary with
  | [] => "No medical entities found"
  | _ => ("Extracted: " ++ String.concat ", " summary)%string
  end.

(** [process_medical_text]: the document result with its summary, the value
    stored under the key ["summary"]. *)
Definition process_medical_text (p : Pipeline) (text : string)
    : M (Output * string) :=
  result ← MedicalNLPAgent.get_structured_entities p text;
  mret (result, _generate_summary result).

End Enhanced_Medical_NLP_Agent.

(** ** Vocabulary of the statements *)

(** A configuration that differs from [cfg] in [REJECT_THRESHOLD] only. *)
Definition with_reject (r : Q) (cfg : NERConfig) : NERConfig :=
  mkConfig (AUTO_ACCEPT_THRESHOLD cfg) (REVIEW_THRESHOLD cfg) r
           (ENABLE_UMLS cfg) (USE_CACHE cfg).

(** The three outcomes of the confidence gate for one entity; [kept] is what
    the entity contributes to the filtered list. *)
Inductive Outcome : Type := KeptAccepted | KeptReview | Dropped.

Definition outcome_holds (e : MedicalEntity) (kept : list MedicalEntity)
    (o : Outcome) : Prop :=
  match o with
  | KeptAccepted =>
      50 # 100 <= confidence e /\
      kept = [metadata_set "review_status" "auto_accepted" e]
  | KeptReview =>
      (30 # 100 <= confidence e /\ confidence e < 50 # 100) /\
      kept = [metadata_set "review_status" "needs_review" e]
  | Dropped => confidence e < 30 # 100 /\ kept = []
  end.

(** What the loop of [_classify_entities] appends for a candidate, given
    the type, the classification confidence and the code the fusion step
    returned for it: nothing when there is no type, otherwise one entity
    whose confidence is the classification confidence times the detection
    score of the candidate. *)
Definition stored_for (cand : Candidate)
    (r : option EntityType * Q * option string) (es : list MedicalEntity)
    : Prop :=
  match r with
  | (Some t, c, code) =>
      exists e : MedicalEntity,
        es = [e]
        /\ text e = c_text cand /\ type e = t
        /\ start_pos e = c_start cand /\ end_pos e = c_end cand
        /\ umls_code e = code /\ normalized_text e = None /\ metadata e = None
        /\ confidence e = c * c_score cand
        /\ ((0 <= c /\ c <= 1) -> (0 <= c_score cand /\ c_score cand <= 1) ->
            0 <= confidence e /\ confidence e <= 1)
  | (None, _, _) => es = []
  end.

(** Where the classification of the fusion step comes from: it is what the
    rule classifier says of the text, without a code, or it is the type,
    the confidence and the code of the result [lookup_term] returns for the
    text, whose confidence is then above the rule classifier's. *)
Definition fusion_choice (text : string) (w1 : World)
    (r : option EntityType * Q * option string) (w2 : World) : Prop :=
  let rule := RuleBasedClassifier.classify text in
  r = (fst rule, snd rule, None)
  \/ exists kb : Result,
       UMLSClient.lookup_term text w1 = (inr kb, w2)
       /\ snd rule < res_confidence kb
       /\ r = (EntityType_of_name (res_entity_type kb), res_confidence kb,
               res_umls_code kb).

(** The candidate at a position of the list, reached in the world [w1]
    that the loop has made of [w] on the candidates before it; there the
    fusion step returns [r] and leaves [w2]. *)
Definition fused_at (cfg : NERConfig) (candidates : list Candidate)
    (w : World) (pre : list Candidate) (cand : Candidate)
    (post : list Candidate) (es1 : list MedicalEntity) (w1 : World)
    (r : option EntityType * Q * option string) (w2 : World) : Prop :=
  candidates = pre ++ cand :: post
  /\ _classify_entities cfg pre w = (inr es1, w1)
  /\ fuse cfg (c_text cand) w1 = (inr r, w2)
  /\ fusion_choice (c_text cand) w1 r w2.

(** [|dosage start - medication end|] *)
Definition distance (dosage med : MedicalEntity) : Z :=
  Z.abs (start_pos dosage - end_pos med).

(** The fields of an entity that post-processing never writes. *)
Definition same_core (a b : MedicalEntity) : Prop :=
  text a = text b /\ type a = type b /\ start_pos a = start_pos b
  /\ end_pos a = end_pos b /\ confidence a = confidence b
  /\ umls_code a = umls_code b.

(** The accumulators of [nearest_loop]: either nothing was found yet, or
    [min_distance] is the distance of [nearest_med], below 50. *)
Definition acc_ok (d : MedicalEntity) (md : option Z)
    (nm : option MedicalEntity) : Prop :=
  match nm with
  | None => md = None
  | Some n0 => md = Some (distance d n0) /\ (distance d n0 < 50)%Z
  end.

(** [r] is the first element of [meds] at the least distance from the
    dosage, and that distance is below 50. *)
Definition first_nearest (d : MedicalEntity) (meds : list MedicalEntity)
    (r : MedicalEntity) : Prop :=
  exists pre post,
    meds = pre ++ r :: post
    /\ (distance d r < 50)%Z
    /\ Forall (fun m => (distance d r < distance d m)%Z) pre
    /\ Forall (fun m => (distance d r <= distance d m)%Z) post.

(** [med] is a medication of [es] within 50 characters of the dosage, no
    medication of [es] is nearer, and no medication before it is as near. *)
Definition is_nearest (dosage : MedicalEntity) (es : list MedicalEntity)
    (med : MedicalEntity) : Prop :=
  exists pre post,
    es = pre ++ med :: post
    /\ type med = MEDICATION
    /\ (distance dosage med < 50)%Z
    /\ Forall (fun m => type m = MEDICATION ->
                        (distance dosage med < distance dosage m)%Z) pre
    /\ Forall (fun m => type m = MEDICATION ->
                        (distance dosage med <= distance dosage m)%Z) post.

(** Two optional entities that agree on the fields post-processing never
    writes. *)
Definition same_core_opt (a b : option MedicalEntity) : Prop :=
  match a, b with
  | Some x, Some y => same_core x y
  | None, None => True
  | _, _ => False
  end.

(** The entities of the two dosage-linking examples: "lisinopril" ends at
    offset 50; "10mg" starts at offset 52, or at offset 150. *)
Definition near_text : string :=
  "The patient was started this morning on lisinopril, 10mg daily".
Definition far_text : string :=
  "The patient was started this morning on lisinopril and, after a review of the chart by the attending physician, later on received an iron infusion of 10mg".
Definition lisinopril : MedicalEntity :=
  mkEntity "lisinopril" MEDICATION 40 50 (855 # 1000) None None None.
Definition dosage_at_52 : MedicalEntity :=
  mkEntity "10mg" DOSAGE 52 56 (76 # 100) None None None.
Definition dosage_at_150 : MedicalEntity :=
  mkEntity "10mg" DOSAGE 150 154 (76 # 100) None None None.

(** A world for the examples: no API key in the environment, a silent
    network, an empty cache. *)
Definition quiet_world : World := mkWorld 1000 None [] [] "" true None 0 ∅.

(** The regex candidate "fever" of the text "patient has fever" and the
    entity the classifier builds from it. *)
Definition fever_candidate : Candidate := mkCand "fever" 12 17 (85 # 100).
Definition fever_entity : MedicalEntity :=
  mkEntity "fever" SYMPTOM 12 17 ((95 # 100) * (85 # 100)) None None None.

(** No pattern of the group is found in [t]. *)
Definition group_silent (t : string) (g : EntityType * list re) : Prop :=
  Forall (fun p => RuleBasedClassifier.pattern_search p t = false) (snd g).

(** The confidence of a rule match: 0.95 on a full match, 0.85 otherwise. *)
Definition rule_confidence (p : re) (t : string) : Q :=
  if RuleBasedClassifier.pattern_fullmatch p t then 95 # 100 else 85 # 100.

(** No two whitespace characters in a row. *)
Fixpoint no_adjacent_space (l : list ascii) : bool :=
  match l with
  | a :: l' =>
      match l' with
      | b :: _ => negb (Py.is_space a && Py.is_space b) && no_adjacent_space l'
      | [] => true
      end
  | [] => true
  end.

(** The first step of [_preprocess_text] on its own:
    [re.sub(r'\s+', ' ', text)]. *)
Definition collapse_whitespace (text : string) : string :=
  Re.sub false (Plus CSpace) [PLit " "] text.

(** The pattern has no capturing group. *)
Fixpoint no_group (r : re) : bool :=
  match r with
  | Lit _ | One _ | WordB | Star _ => true
  | Seq r1 r2 | Alt r1 r2 => no_group r1 && no_group r2
  | Opt r1 => no_group r1
  | Group _ _ => false
  end.

(** The longest text a pattern can match, when there is a bound. *)
Fixpoint max_len (r : re) : option nat :=
  match r with
  | Lit s => Some (String.length s)
  | One _ => Some 1%nat
  | WordB => Some 0%nat
  | Seq r1 r2 =>
      match max_len r1, max_len r2 with
      | Some a, Some b => Some (a + b)%nat
      | _, _ => None
      end
  | Alt r1 r2 =>
      match max_len r1, max_len r2 with
      | Some a, Some b => Some (Nat.max a b)
      | _, _ => None
      end
  | Star _ => None
  | Opt r1 => match max_len r1 with Some a => Some a | None => None end
  | Group _ r1 => max_len r1
  end.

(** The pipeline with the class defaults and no tagger (the fallback of
    [_init_biobert]): candidates come from the regex patterns alone. *)
Definition regex_pipeline : Pipeline := mkPipeline default_config None.

(** What the network phase of a lookup never writes: the clock, the
    environment, the API key, the cache switch and the cache. *)
Definition net_frame (w w' : World) : Prop :=
  clock w' = clock w /\ env_api_key w' = env_api_key w
  /\ api_key w' = api_key w /\ use_cache w' = use_cache w
  /\ cache w' = cache w.

(** The computation relates every world to the world it leaves behind. *)
Definition keeps {A} (R : World -> World -> Prop) (m : M A) : Prop :=
  forall w, R w (snd (m w)).

(** The computation returns; it never raises. *)
Definition total {A} (m : M A) : Prop :=
  forall w, exists a w', m w = (inr a, w').

(** The row [_cache_result] writes for a result at a given time. *)
Definition result_row (r : Result) (now : Q) : CacheRow :=
  mkRow (res_entity_type r) (res_umls_code r) (res_confidence r)
        (res_metadata r) (UMLSClient.py_int now).

(** The entity type of the result is a name of [EntityType]. *)
Definition valid_type (name : string) : Prop :=
  is_Some (EntityType_of_name name).

(** Every row of the cache holds a name of [EntityType], as every row
    [_cache_result] writes does. *)
Definition cache_valid (w : World) : Prop :=
  map_Forall (fun _ row => valid_type (row_entity_type row)) (cache w).

(** Replies of the terminology service used in the examples. *)
Definition ok_auth : Reply :=
  inr (mkResponse 201 (Some "https://utslogin.nlm.nih.gov/cas/v1/tickets/TGT-1")
                  "" NotJson).
Definition ok_ticket (t : string) : Reply := inr (mkResponse 200 None t NotJson).
Definition ok_search (item : SearchItem) : Reply :=
  inr (mkResponse 200 None "" (Json (Results [item]))).
Definition ok_concept : Reply :=
  inr (mkResponse 200 None ""
         (Json (Concept [mkSemType
           (Str "https://uts-ws.nlm.nih.gov/rest/semantic-network/2025AA/TUI/T184")]))).
Definition timed_out : Reply := inl (Exn "Read timed out").

Definition fever_item : SearchItem := mkItem (Str "C0015967") (Str "Fever").

(** A client with an API key, an empty cache and a scripted network. *)
Definition kb_world (cache_on : bool) (rs : list Reply) : World :=
  mkWorld 1700000000 (Some "key") rs [] "key" cache_on None 0 ∅.

(** One successful lookup: credential, ticket, exact search, ticket,
    concept details. *)
Definition one_lookup : list Reply :=
  [ok_auth; ok_ticket "ST-1"; ok_search fever_item; ok_ticket "ST-2";
   ok_concept].

(** Candidates for the fusion examples: no rule knows "heparin", which is
    met twice, around the candidate "fever" that a rule matches. *)
Definition heparin_candidate : Candidate := mkCand "heparin" 20 27 (70 # 100).
Definition kb_candidates : list Candidate :=
  [heparin_candidate; fever_candidate; heparin_candidate].

(** A later lookup with the credential still cached. *)
Definition next_lookup : list Reply :=
  [ok_ticket "ST-3"; ok_search fever_item; ok_ticket "ST-4"; ok_concept].

Definition fever_result : Result :=
  mkResult "SYMPTOM" (Some "C0015967") (900 # 1000)
           (Some (MetaSuccess "Fever" ["T184"] (1000 # 1000))).

(** The world a first successful lookup of "Fever" leaves behind. *)
Definition after_fever (cache_on : bool) : World :=
  snd (UMLSClient.lookup_term "Fever"
         (kb_world cache_on (one_lookup ++ next_lookup))).

(** An hour later: the granting credential is still good. *)
Definition next_hour (w : World) : World :=
  set_clock (clock w + inject_Z 3600) w.

(** A search hit whose name is JSON [null]. *)
Definition nameless_item : SearchItem := mkItem (Str "C0015967") Null.
Definition nameless_lookup : list Reply :=
  [ok_auth; ok_ticket "ST-1"; ok_search nameless_item; ok_ticket "ST-2";
   ok_concept].
Definition after_nameless : World :=
  snd (UMLSClient.lookup_term "Fever"
         (kb_world true (nameless_lookup ++ next_lookup))).

(** The network answers everything but the request for the concept
    details, which times out. *)
Definition detail_failure_world : World :=
  kb_world true [ok_auth; ok_ticket "ST-1"; ok_search fever_item;
                 ok_ticket "ST-2"; timed_out].

(** The authentication server cannot be reached. *)
Definition no_credential_world : World := kb_world true [timed_out].

(** The result of a lookup whose search found [best] and whose concept
    details are missing. *)
Definition unresolved_result (term : string) (best : SearchItem) : Result :=
  match field_get (name best) "" with
  | Some nm =>
      let sim :=
        UMLSClient._calculate_name_similarity (Py.lower term) (Py.lower nm) in
      mkResult "UNKNOWN" (field_get (ui best) "") (round3 ((5 # 10) * sim))
               (Some (MetaSuccess nm [] (round3 sim)))
  | None =>
      UMLSClient.error_result
        (Exn "'NoneType' object has no attribute 'lower'")
  end.

(** A bucket entry is the dictionary of an entity of [es]. *)
Definition from_entity (es : list MedicalEntity) (d : EntityDict) : Prop :=
  exists e, e ∈ es /\ d = to_dict e.

(** A medication record was built from a MEDICATION entity of [es]. *)
Definition record_of (es : list MedicalEntity) (m : MedRecord) : Prop :=
  exists e, e ∈ es /\ type e = MEDICATION /\ med_name m = text e
            /\ med_confidence m = confidence e
            /\ med_position m = (start_pos e, end_pos e).

(** Every bucket of [g] holds entries built from entities of [es]. *)
Definition grouped_from (es : list MedicalEntity) (g : Grouped) : Prop :=
  Forall (from_entity es)
         (diseases g ++ symptoms g ++ dosages g ++ anatomy g ++ unclassified g)
  /\ Forall (fun kv => record_of es (snd kv)) (medications_with_dosage g).

(** Kept by the gate: confidence at least 0.30 and a review status. *)
Definition gate_kept (e : MedicalEntity) : Prop :=
  30 # 100 <= confidence e
  /\ (metadata_get "review_status" e = Some "auto_accepted"
      \/ metadata_get "review_status" e = Some "needs_review").

(** A way of matching with every character lower-cased. *)
Definition lower_mres (m : mres) : mres :=
  MRes (map Py.lower_char (m_text m))
       (map (fun c => (fst c, map Py.lower_char (snd c))) (m_caps m))
       (map Py.lower_char (m_rest m)).

(** A span lies in a text: [0 <= start < end <= len(text)]. *)
Definition span_in (text : string) (a b : Z) : Prop :=
  (0 <= a /\ a < b /\ b <= Py.len text)%Z.

(** The tagger reports spans of the text it was given. *)
Definition tagger_in_range (p : Pipeline) : Prop :=
  match ner_pipeline p with
  | Some tagger =>
      forall t ents, tagger t = inr ents ->
                     Forall (fun c => span_in t (c_start c) (c_end c)) ents
  | None => True
  end.

(** ** Vocabulary of the further properties *)

(** The computation neither reads nor writes the table [umls_cache]: on a
    world with another table it gives the same result and leaves that table
    behind. *)
Definition cache_blind {A} (m : M A) : Prop :=
  forall c w, m (set_cache c w) = (fst (m w), set_cache c (snd (m w))).

(** What a lookup may do to the table: nothing, or write one row under the
    key of its term. *)
Definition write_row (k : string) (upd : option CacheRow)
    (c : gmap string CacheRow) : gmap string CacheRow :=
  match upd with
  | Some row => <[k := row]> c
  | None => c
  end.

(** The world with the row of a key removed from the table. *)
Definition without_row (k : string) (w : World) : World :=
  set_cache (delete k (cache w)) w.

(** A cached result for the examples. *)
Definition aspirin_result : Result :=
  mkResult "MEDICATION" (Some "C0004057") (900 # 1000)
           (Some (MetaSuccess "Aspirin" ["T121"] (1000 # 1000))).

(** A world whose table holds a row for "fever" written 31 days before the
    clock's time; the network answers one lookup. *)
Definition stale_world : World :=
  mkWorld 1700000000 (Some "key") one_lookup [] "key" true None 0
          {[ "fever" := mkRow "UNKNOWN" None (3 # 10) (Some MetaNoResults)
                              (1700000000 - 31 * 24 * 3600) ]}.

(** The granting credential in memory is still good:
    [self.tgt_url and time.time() < self.tgt_expiry]. *)
Definition tgt_valid (w : World) : bool :=
  opt_truthy (tgt_url w) && Qltb (clock w) (tgt_expiry w).

Definition is_get (rq : Request) : bool :=
  match rq with
  | GetSearch _ _ _ | GetConcept _ _ => true
  | _ => false
  end.

Definition is_ticket (rq : Request) : bool :=
  match rq with
  | PostTicket _ _ => true
  | _ => false
  end.

(** Every search or concept request of the log comes right after the
    minting of a service ticket; [minted] says whether the request before
    the log was one. *)
Fixpoint ticketed (minted : bool) (l : list Request) : bool :=
  match l with
  | [] => true
  | rq :: l' =>
      (if is_get rq then minted else true) && ticketed (is_ticket rq) l'
  end.

(** What a request of a lookup of [term] by a client with the API key [key]
    carries. *)
Definition well_formed (key term : string) (rq : Request) : Prop :=
  match rq with
  | PostAuth endpoint apikey =>
      endpoint = UMLSClient.auth_endpoint /\ apikey = key
  | PostTicket tgt service =>
      Py.truthy tgt = true /\ service = "http://umlsks.nlm.nih.gov"
  | GetSearch ticket s searchType =>
      Py.truthy ticket = true /\ s = term
      /\ (searchType = "exact" \/ searchType = "approximate")
  | GetConcept cui ticket =>
      Py.truthy ticket = true /\ UMLSClient.looks_like_cui cui = true
  end.

(** The network phase between two worlds: the requests [new] were sent,
    each well formed; the clock and the API key are as before, and a
    granting credential that was good is kept. *)
Definition net_step (term : string) (w w' : World) (new : list Request)
    : Prop :=
  requests w' = requests w ++ new
  /\ clock w' = clock w /\ api_key w' = api_key w
  /\ (tgt_valid w = true ->
      tgt_url w' = tgt_url w /\ tgt_expiry w' = tgt_expiry w)
  /\ Forall (well_formed (api_key w) term) new.

(** A search that finds nothing exactly. *)
Definition empty_search : Reply :=
  inr (mkResponse 200 None "" (Json (Results []))).

(** The longest lookup: credential, ticket, exact search without a hit,
    ticket, approximate search, ticket, concept details. *)
Definition longest_lookup : list Reply :=
  [ok_auth; ok_ticket "ST-1"; empty_search; ok_ticket "ST-2";
   ok_search fever_item; ok_ticket "ST-3"; ok_concept].

(** The keys of [confidence_scores] in the order of the dictionary
    literal. *)
Definition entity_order : list string :=
  ["DISEASE"; "SYMPTOM"; "MEDICATION"; "ANATOMY"].

(** The number of semantic types of the list that [semantic_mapping] maps
    to the entity type [ty]. *)
Definition votes (ty : string) (semantic_types : list string) : nat :=
  length (List.filter
            (fun s => bool_decide (UMLSClient.mapping_get s = Some ty))
            semantic_types).

(** The confidence of a result of the knowledge base: between 0 and
    0.95. *)
Definition kb_confidence (c : Q) : Prop := 0 <= c /\ c <= 95 # 100.

(** Every row of the cache holds such a confidence, as every row
    [_cache_result] writes for [lookup_term] does. *)
Definition cache_bounded (w : World) : Prop :=
  map_Forall (fun _ row => kb_confidence (row_confidence row)) (cache w).

(** The key under which [_extract_entity_candidates] removes duplicates:
    [(cand["text"].lower(), cand["start"])]. *)
Definition cand_key (c : Candidate) : string * Z :=
  (Py.lower (c_text c), c_start c).

(** The entity the rule classifier alone makes of a candidate. *)
Definition rule_entity (cand : Candidate) : option MedicalEntity :=
  match RuleBasedClassifier.classify (c_text cand) with
  | (Some t, c) =>
      Some (mkEntity (c_text cand) t (c_start cand) (c_end cand)
                     (c * c_score cand) None None None)
  | (None, _) => None
  end.

(** The entity a knowledge-base result makes of a candidate no rule
    matches. *)
Definition kb_entity (cand : Candidate) (r : Result) : exn + option MedicalEntity :=
  if Qltb 0 (res_confidence r)
  then match EntityType_of_name (res_entity_type r) with
       | Some t =>
           inr (Some (mkEntity (c_text cand) t (c_start cand) (c_end cand)
                               (res_confidence r * c_score cand)
                               (res_umls_code r) None None))
       | None => inl (Exn (res_entity_type r))
       end
  else inr None.

(** Extraction needs no lookup: the knowledge base is switched off, or a
    rule matches every candidate of the text. *)
Definition needs_no_lookup (p : Pipeline) (text : string) : Prop :=
  ENABLE_UMLS (config p) = false
  \/ Forall (fun c => is_Some (fst (RuleBasedClassifier.classify (c_text c))))
            (_extract_entity_candidates p (_preprocess_text text)).

(** The pipeline with the knowledge base switched off. *)
Definition offline_pipeline : Pipeline :=
  mkPipeline (mkConfig (50 # 100) (30 # 100) (20 # 100) false true) None.

(** The context window [_postprocess_entities] records for an entity:
    [original_text[max(0, start - 20) : min(len(original_text), end + 20)]]. *)
Definition context_of (original : string) (e : MedicalEntity) : string :=
  Py.slice original (Z.max 0 (start_pos e - 20))
           (Z.min (Py.len original) (end_pos e + 20)).

(** What post-processing makes of one entity. *)
Definition postprocessed (original : string) (e e' : MedicalEntity) : Prop :=
  same_core e e'
  /\ normalized_text e'
     = (if bool_decide (type e = MEDICATION)
        then Some (_normalize_drug_name (text e))
        else normalized_text e)
  /\ metadata_get "context" e' = Some (context_of original e)
  /\ (type e <> DOSAGE ->
      forall k, k <> "context" -> metadata_get k e' = metadata_get k e).

(** What the gate changes of an entity it keeps: the review status. *)
Definition gated (e e' : MedicalEntity) : Prop :=
  same_core e e' /\ normalized_text e' = normalized_text e
  /\ forall k, k <> "review_status" -> metadata_get k e' = metadata_get k e.

(** The number of entries in the buckets of a grouping, one for each
    medication record. *)
Definition bucket_total (g : Grouped) : nat :=
  (length (diseases g) + length (symptoms g) + length (dosages g)
   + length (anatomy g) + length (unclassified g)
   + length (medications_with_dosage g))%nat.

(** The record [m] kept under the name [k] reports the last MEDICATION
    entity of [es] with the text [k]; its dosage, if it has one, is the text
    of a DOSAGE entity that comes after that entity and is linked to [k]. *)
Definition last_mention (es : list MedicalEntity) (k : string)
    (m : MedRecord) : Prop :=
  exists pre e post,
    es = pre ++ e :: post
    /\ type e = MEDICATION /\ text e = k
    /\ med_name m = k
    /\ med_normalized_name m = normalized_text e
    /\ med_confidence m = confidence e
    /\ med_position m = (start_pos e, end_pos e)
    /\ med_umls_code m = umls_code e
    /\ Forall (fun x => type x = MEDICATION -> text x <> k) post
    /\ forall d, med_dosage m = Some d ->
         exists x, In x post /\ type x = DOSAGE /\ text x = d
                   /\ metadata_get "linked_medication" x = Some k.

(** The text and the offsets of an entity and of a candidate. *)
Definition entity_span (e : MedicalEntity) : string * Z * Z :=
  (text e, start_pos e, end_pos e).
Definition cand_span (c : Candidate) : string * Z * Z :=
  (c_text c, c_start c, c_end c).

(** The tagger reports scores between 0 and 1. *)
Definition tagger_scores (p : Pipeline) : Prop :=
  match ner_pipeline p with
  | Some tagger =>
      forall t ents, tagger t = inr ents ->
                     Forall (fun c => 0 <= c_score c /\ c_score c <= 1) ents
  | None => True
  end.

(** A text whose only entities are dosages ("take 500 mg" and "500 mg"). *)
Definition dosage_only_text : string := "take 500 mg".

(** The network is down for one lookup and answers the next one. *)
Definition outage_world : World := kb_world true (timed_out :: one_lookup).

(** The first character is a whitespace character. *)
Definition head_space (l : list ascii) : bool :=
  match l with
  | c :: _ => Py.is_space c
  | [] => false
  end.

(** Whitespace is normalized: every whitespace character is a space, and no
    whitespace character follows it. *)
Fixpoint ws_normal (l : list ascii) : Prop :=
  match l with
  | [] => True
  | a :: l' =>
      (Py.is_space a = true -> a = " "%char /\ head_space l' = false)
      /\ ws_normal l'
  end.

(** The last character, if there is one, is no whitespace character. *)
Definition ends_clear (l : list ascii) : Prop :=
  match last l with
  | Some c => Py.is_space c = false
  | None => True
  end.

(** A replacement text that keeps whitespace normalized wherever it is put:
    normalized itself, not empty, and without whitespace at either end. *)
Definition clean_text (l : list ascii) : Prop :=
  ws_normal l /\ l <> [] /\ head_space l = false /\ ends_clear l.

(** The dictionaries of the entities of one type, in the order of the
    entities. *)
Definition of_type (ty : EntityType) (es : list MedicalEntity)
    : list EntityDict :=
  map to_dict (List.filter (fun e => bool_decide (type e = ty)) es).

(** The entity types the knowledge base can answer with: the four keys of
    [confidence_scores] and UNKNOWN, never DOSAGE. *)
Definition kb_type (name : string) : Prop :=
  In name ["DISEASE"; "SYMPTOM"; "MEDICATION"; "ANATOMY"; "UNKNOWN"].

(** Every row of the cache holds such a type, as every row [_cache_result]
    writes for [lookup_term] does. *)
Definition cache_kb_types (w : World) : Prop :=
  map_Forall (fun _ row => kb_type (row_entity_type row)) (cache w).


(** * Properties *)

(** ** Arithmetic on confidences *)

Lemma Qltb_lt (x y : Q) : Qltb x y = true <-> x < y.
Proof.
  unfold Qltb. rewrite negb_true_iff. split.
  - intros H. apply Qnot_le_lt. intros Hle.
    apply Qle_bool_iff in Hle. congruence.
  - intros H. destruct (Qle_bool y x) eqn:E; [|reflexivity].
    apply Qle_bool_iff in E. exfalso. exact (Qlt_not_le _ _ H E).
Qed.

Lemma Qltb_ge (x y : Q) : Qltb x y = false <-> y <= x.
Proof.
  unfold Qltb. rewrite negb_false_iff. apply Qle_bool_iff.
Qed.

Lemma Qle_bool_false (x y : Q) : Qle_bool x y = false <-> y < x.
Proof.
  rewrite <- Qltb_lt. unfold Qltb. rewrite negb_true_iff. reflexivity.
Qed.

(** ** The confidence gate *)

Lemma filter_by_confidence_app cfg (l1 l2 : list MedicalEntity) :
  _filter_by_confidence cfg (l1 ++ l2)
  = _filter_by_confidence cfg l1 ++ _filter_by_confidence cfg l2.
Proof.
  induction l1 as [|e l1 IH]; simpl; [reflexivity|].
  destruct (Qle_bool _ _); [simpl; f_equal; exact IH|].
  destruct (Qle_bool _ _); [simpl; f_equal; exact IH|exact IH].
Qed.

Lemma metadata_set_confidence k v e :
  confidence (metadata_set k v e) = confidence e.
Proof. reflexivity. Qed.

Lemma metadata_set_get k v e : metadata_get k (metadata_set k v e) = Some v.
Proof. unfold metadata_get, metadata_set. simpl. apply lookup_insert_eq. Qed.

Lemma filter_by_confidence_kept (es : list MedicalEntity) :
  Forall gate_kept (_filter_by_confidence default_config es).
Proof.
  induction es as [|e es IH]; simpl; [constructor|].
  destruct (Qle_bool (50 # 100) (confidence e)) eqn:E1.
  - constructor; [|exact IH]. apply Qle_bool_iff in E1. unfold gate_kept.
    rewrite metadata_set_confidence, metadata_set_get. split; [|by left].
    eapply Qle_trans; [|exact E1]. discriminate.
  - destruct (Qle_bool (30 # 100) (confidence e)) eqn:E2; [|exact IH].
    constructor; [|exact IH]. apply Qle_bool_iff in E2. unfold gate_kept.
    rewrite metadata_set_confidence, metadata_set_get. split; [exact E2|by right].
Qed.

(** ** The buckets hold kept entities only *)

Lemma odict_set_Forall {V} (P : string * V -> Prop) k v (d : list (string * V)) :
  P (k, v) -> Forall P d -> Forall P (odict_set k v d).
Proof.
  intros Hv. induction 1 as [|[k' v'] d Hx Hd IH]; simpl.
  - constructor; [exact Hv|constructor].
  - destruct (String.eqb k' k); constructor; assumption.
Qed.

Lemma odict_get_Forall {V} (P : string * V -> Prop) k v (d : list (string * V)) :
  odict_get k d = Some v -> Forall P d -> exists k', P (k', v).
Proof.
  unfold odict_get. intros Hg. induction 1 as [|[k' v'] d Hx Hd IH];
    simpl in Hg; [discriminate|].
  destruct (String.eqb k' k); simpl in Hg.
  - injection Hg as <-. exists k'. exact Hx.
  - apply IH. exact Hg.
Qed.

Lemma Forall_from_entity es e :
  e ∈ es -> Forall (from_entity es) [to_dict e].
Proof.
  intros He. constructor; [exists e; split; [exact He|reflexivity]|constructor].
Qed.

Lemma group_entity_from es g e :
  e ∈ es -> grouped_from es g -> grouped_from es (group_entity g e).
Proof.
  intros He [Hb Hm]. unfold grouped_from in *.
  rewrite !Forall_app in Hb. destruct Hb as (Hd & Hs & Hdo & Ha & Hu).
  unfold group_entity.
  destruct (type e) eqn:Hty; simpl; rewrite ?Forall_app.
  - repeat split; try assumption. by apply Forall_from_entity.
  - repeat split; try assumption. by apply Forall_from_entity.
  - repeat split; try assumption.
    apply odict_set_Forall; [|exact Hm].
    exists e. simpl. repeat split; assumption.
  - destruct (metadata_get "linked_medication" e) as [lm|].
    + destruct (if Py.truthy lm then _ else None) as [rec|] eqn:Hg; simpl;
        rewrite ?Forall_app.
      * repeat split; try assumption.
        apply odict_set_Forall; [|exact Hm].
        destruct (Py.truthy lm); [|discriminate Hg].
        destruct (odict_get_Forall _ _ _ _ Hg Hm) as (k' & e0 & H0).
        exists e0. exact H0.
      * repeat split; try assumption. by apply Forall_from_entity.
    + simpl. rewrite ?Forall_app.
      repeat split; try assumption. by apply Forall_from_entity.
  - repeat split; try assumption. by apply Forall_from_entity.
  - repeat split; try assumption. by apply Forall_from_entity.
Qed.

Lemma fold_group_from es (l : list MedicalEntity) :
  forall g, Forall (fun e => e ∈ es) l -> grouped_from es g ->
            grouped_from es (fold_left group_entity l g).
Proof.
  induction l as [|e l IH]; intros g Hl Hg; simpl; [exact Hg|].
  inversion Hl as [|? ? He Hl']; subst.
  apply IH; [exact Hl'|]. apply group_entity_from; assumption.
Qed.

Lemma group_entities_from (es : list MedicalEntity) :
  grouped_from es (group_entities es).
Proof.
  unfold group_entities. apply fold_group_from.
  - apply Forall_forall. auto.
  - split; constructor.
Qed.

Lemma process_document_from_kept tagger text w out w' :
  process_document (mkPipeline default_config tagger) text w = (inr out, w') ->
  exists kept : list MedicalEntity,
    Forall gate_kept kept
    /\ grouped_from kept (entities out)
    /\ Forall (record_of kept) (medications out).
Proof.
  unfold process_document, extract_entities, mbind, M_bind, bind. simpl.
  destruct (_classify_entities _ _ w) as [[ex|classified] w1]; [discriminate|].
  unfold mret, M_ret, ret. intros [= <- _].
  exists (_filter_by_confidence default_config
            (_postprocess_entities classified text)).
  split; [apply filter_by_confidence_kept|].
  pose proof (group_entities_from
    (_filter_by_confidence default_config
       (_postprocess_entities classified text))) as [Hb Hm].
  split; [split; assumption|].
  simpl. apply Forall_map. eapply Forall_impl; [exact Hm|]. auto.
Qed.

(** C2. At the confidence gate every entity has exactly one of three
    outcomes: confidence >= 0.50, kept as 'auto_accepted'; 0.30 <= confidence
    < 0.50, kept as 'needs_review'; confidence < 0.30, dropped. What the
    entity contributes to the filtered list is fixed by its outcome; every
    entity of the filtered list has confidence >= 0.30 and a review status;
    and every bucket entry and medication record of the document result is
    built from an entity of the filtered list, so a dropped entity is in no
    output bucket. *)
Theorem filter_by_confidence_partition :
  forall (before after : list MedicalEntity) (e : MedicalEntity),
    (exists kept : list MedicalEntity,
       _filter_by_confidence default_config (before ++ e :: after)
       = _filter_by_confidence default_config before ++ kept
         ++ _filter_by_confidence default_config after
       /\ exists! o : Outcome, outcome_holds e kept o)
    /\ Forall gate_kept
              (_filter_by_confidence default_config (before ++ e :: after))
    /\ (forall tagger text w out w',
          process_document (mkPipeline default_config tagger) text w
          = (inr out, w') ->
          exists kept_entities : list MedicalEntity,
            Forall gate_kept kept_entities
            /\ grouped_from kept_entities (entities out)
            /\ Forall (record_of kept_entities) (medications out)).
Proof.
  intros before after e.
  split; [|split; [apply filter_by_confidence_kept
                  |intros; eapply process_document_from_kept; eassumption]].
  exists (_filter_by_confidence default_config [e]).
  split.
  - rewrite filter_by_confidence_app.
    change (e :: after) with ([e] ++ after).
    rewrite filter_by_confidence_app. reflexivity.
  - simpl.
    destruct (Qle_bool (50 # 100) (confidence e)) eqn:E1.
    + apply Qle_bool_iff in E1.
      exists KeptAccepted. split; [split; [exact E1|reflexivity]|].
      intros [| |]; simpl; [reflexivity| |].
      * intros [[_ Hlt] _]. exfalso. exact (Qlt_not_le _ _ Hlt E1).
      * intros [_ Hk]. discriminate Hk.
    + apply Qle_bool_false in E1.
      destruct (Qle_bool (30 # 100) (confidence e)) eqn:E2.
      * apply Qle_bool_iff in E2.
        exists KeptReview. split; [split; [split; assumption|reflexivity]|].
        intros [| |]; simpl; [|reflexivity|].
        -- intros [Hle _]. exfalso. exact (Qlt_not_le _ _ E1 Hle).
        -- intros [_ Hk]. discriminate Hk.
      * apply Qle_bool_false in E2.
        exists Dropped. split; [split; [exact E2|reflexivity]|].
        intros [| |]; simpl; [| |reflexivity].
        -- intros [_ Hk]. discriminate Hk.
        -- intros [_ Hk]. discriminate Hk.
Qed.

(** ** REJECT_THRESHOLD is never read *)

Lemma filter_by_confidence_reject r cfg (es : list MedicalEntity) :
  _filter_by_confidence (with_reject r cfg) es = _filter_by_confidence cfg es.
Proof.
  induction es as [|e es IH]; simpl; [reflexivity|].
  rewrite IH. reflexivity.
Qed.

Lemma classify_entities_reject r cfg (cands : list Candidate) :
  _classify_entities (with_reject r cfg) cands = _classify_entities cfg cands.
Proof.
  induction cands as [|c cands IH]; simpl; [reflexivity|].
  rewrite IH. reflexivity.
Qed.

(** C9. Two runs that differ only in the configured REJECT_THRESHOLD give the
    same result, for the confidence filter, for [extract_entities] and for
    [process_document], in every state of the client and the network. *)
Theorem reject_threshold_never_read :
  forall (r : Q) (cfg : NERConfig) (tagger : option Tagger)
         (es : list MedicalEntity) (text : string) (w : World),
    _filter_by_confidence (with_reject r cfg) es = _filter_by_confidence cfg es
    /\ extract_entities (mkPipeline (with_reject r cfg) tagger) text w
       = extract_entities (mkPipeline cfg tagger) text w
    /\ process_document (mkPipeline (with_reject r cfg) tagger) text w
       = process_document (mkPipeline cfg tagger) text w.
Proof.
  intros r cfg tagger es text w.
  assert (Hx : forall w,
             extract_entities (mkPipeline (with_reject r cfg) tagger) text w
             = extract_entities (mkPipeline cfg tagger) text w).
  { intros w'. unfold extract_entities, mbind, M_bind, bind. simpl.
    rewrite classify_entities_reject.
    destruct (_classify_entities cfg _ w') as [[e|classified] w''];
      [reflexivity|].
    unfold mret, M_ret, ret.
    rewrite filter_by_confidence_reject. reflexivity. }
  split; [apply filter_by_confidence_reject|].
  split; [apply Hx|].
  unfold process_document, mbind, M_bind, bind. rewrite Hx. reflexivity.
Qed.

(** ** Confidence fusion *)

Lemma product_in_unit (c s : Q) :
  0 <= c /\ c <= 1 -> 0 <= s /\ s <= 1 -> 0 <= c * s /\ c * s <= 1.
Proof.
  intros [Hc0 Hc1] [Hs0 Hs1]. split.
  - apply Qmult_le_0_compat; assumption.
  - apply Qle_trans with (1 * s).
    + apply Qmult_le_compat_r; assumption.
    + rewrite Qmult_1_l. exact Hs1.
Qed.

Lemma fuse_choice cfg text w r w2 :
  fuse cfg text w = (inr r, w2) -> fusion_choice text w r w2.
Proof.
  unfold fuse, fusion_choice.
  destruct (RuleBasedClassifier.classify text) as [ot c]. simpl.
  destruct (bool_decide (ot = None) || Qltb c (8 # 10));
    [|intros [= <- <-]; left; reflexivity].
  destruct (ENABLE_UMLS cfg); [|intros [= <- <-]; left; reflexivity].
  unfold mbind, M_bind, bind.
  destruct (UMLSClient.lookup_term text w) as [[ex|kb] w1] eqn:Hl;
    [discriminate|].
  destruct (Qltb c (res_confidence kb)) eqn:Hlt;
    [|intros [= <- <-]; left; reflexivity].
  destruct (EntityType_of_name (res_entity_type kb)) as [t|] eqn:Ht;
    [|discriminate].
  intros [= <- <-]. right. exists kb.
  split; [reflexivity|]. split; [|rewrite Ht; reflexivity].
  unfold Qltb in Hlt. apply negb_true_iff in Hlt.
  apply Qnot_le_lt. intros Hle. apply Qle_bool_iff in Hle. congruence.
Qed.

Lemma classify_candidate_stored cfg cand w oe w1 :
  classify_candidate cfg cand w = (inr oe, w1) ->
  exists r,
    fuse cfg (c_text cand) w = (inr r, w1)
    /\ stored_for cand r (match oe with Some e => [e] | None => [] end).
Proof.
  unfold classify_candidate, mbind, M_bind, bind.
  destruct (fuse cfg (c_text cand) w) as [[ex|[[ot c] code]] w2] eqn:Hf;
    [discriminate|].
  destruct ot as [t|]; unfold mret, M_ret, ret; intros H;
    injection H as <- <-.
  - exists (Some t, c, code). split; [reflexivity|].
    eexists. split; [reflexivity|]. simpl.
    repeat split; try reflexivity; apply product_in_unit; assumption.
  - exists (None, c, code). split; reflexivity.
Qed.

(** The entity of a candidate has its text and its offsets. *)
Lemma classify_candidate_span cfg cand w e w1 :
  classify_candidate cfg cand w = (inr (Some e), w1) ->
  text e = c_text cand /\ start_pos e = c_start cand
  /\ end_pos e = c_end cand.
Proof.
  intros H. apply classify_candidate_stored in H as ([[[t|] c] code] & _ & H).
  - destruct H as (e0 & [= <-] & Ht & _ & Hs & He & _). auto.
  - discriminate H.
Qed.

(** One turn of the loop. *)
Lemma classify_entities_cons cfg cand post w classified w' :
  _classify_entities cfg (cand :: post) w = (inr classified, w') ->
  exists r w2 es es2,
    fuse cfg (c_text cand) w = (inr r, w2)
    /\ stored_for cand r es
    /\ _classify_entities cfg post w2 = (inr es2, w')
    /\ classified = es ++ es2.
Proof.
  intros H. simpl in H. unfold mbind, M_bind, bind in H.
  destruct (classify_candidate cfg cand w) as [[ex|oe] w1] eqn:Hc;
    [discriminate|].
  fold (@bind (list MedicalEntity) (list MedicalEntity)) in H.
  destruct (_classify_entities cfg post w1) as [[ex|es2] w2] eqn:Hr;
    [discriminate|].
  unfold mret, M_ret, ret in H. injection H as <- <-.
  apply classify_candidate_stored in Hc as (r & Hf & Hst).
  exists r, w1, (match oe with Some e => [e] | None => [] end), es2.
  repeat split; try assumption. destruct oe; reflexivity.
Qed.

(** The loop on a list in two parts: the second part starts in the world
    the first part leaves. *)
Lemma classify_entities_app cfg pre post :
  forall w classified w',
    _classify_entities cfg (pre ++ post) w = (inr classified, w') ->
    exists es1 w1 es2,
      _classify_entities cfg pre w = (inr es1, w1)
      /\ _classify_entities cfg post w1 = (inr es2, w')
      /\ classified = es1 ++ es2.
Proof.
  induction pre as [|cand pre IH]; intros w classified w' H.
  - exists [], w, classified. repeat split. exact H.
  - simpl in H. unfold mbind, M_bind, bind in H.
    destruct (classify_candidate cfg cand w) as [[ex|oe] w1] eqn:Hc;
      [discriminate|].
    fold (@bind (list MedicalEntity) (list MedicalEntity)) in H.
    destruct (_classify_entities cfg (pre ++ post) w1) as [[ex|es] w2] eqn:Hr;
      [discriminate|].
    unfold mret, M_ret, ret in H. injection H as <- <-.
    destruct (IH _ _ _ Hr) as (es1 & w3 & es2 & H1 & H2 & ->).
    exists (match oe with Some e => e :: es1 | None => es1 end), w3, es2.
    split; [|split; [exact H2|destruct oe; reflexivity]].
    simpl. unfold mbind, M_bind, bind. rewrite Hc.
    fold (@bind (list MedicalEntity) (list MedicalEntity)).
    rewrite H1. reflexivity.
Qed.

(** C1. The confidence [_classify_entities] stores. A run that returns
    visits every candidate, in order, in the world the candidates before it
    have left: there the fusion step (the rule classifier, then the
    knowledge base) returns a type, a classification confidence [c] and a
    code. When there is a type, the run appends at this place one entity
    with this type and code, the text and offsets of the candidate, and the
    confidence [c] times the candidate's detection score, exactly; when
    there is none it appends nothing. Every entity returned is the one
    appended for some candidate in this way, and its confidence lies in
    [0, 1] when [c] and the score do. *)
Theorem classify_entities_confidence :
  forall (cfg : NERConfig) (candidates : list Candidate) (w w' : World)
         (classified : list MedicalEntity),
    _classify_entities cfg candidates w = (inr classified, w') ->
    (forall pre cand post,
       candidates = pre ++ cand :: post ->
       exists es1 w1 r w2 es es2,
         fused_at cfg candidates w pre cand post es1 w1 r w2
         /\ stored_for cand r es
         /\ _classify_entities cfg post w2 = (inr es2, w')
         /\ classified = es1 ++ es ++ es2)
    /\ Forall (fun e => exists pre cand post es1 w1 r w2,
                 fused_at cfg candidates w pre cand post es1 w1 r w2
                 /\ stored_for cand r [e])
              classified.
Proof.
  intros cfg candidates w w' classified H. split.
  - intros pre cand post ->.
    apply classify_entities_app in H as (es1 & w1 & es' & H1 & H2 & ->).
    apply classify_entities_cons in H2 as (r & w2 & es & es2 & Hf & Hst & H2 & ->).
    exists es1, w1, r, w2, es, es2.
    repeat split; try assumption. apply (fuse_choice cfg). exact Hf.
  - revert w' classified H.
    induction candidates as [|cand init IH] using rev_ind;
      intros w' classified H.
    { injection H as <- <-. constructor. }
    apply classify_entities_app in H as (es1 & w1 & es' & H1 & H2 & ->).
    apply classify_entities_cons in H2 as (r & w2 & es & es2 & Hf & Hst & H2 & ->).
    injection H2 as <- <-. rewrite app_nil_r.
    apply Forall_app. split.
    + eapply Forall_impl; [exact (IH _ _ H1)|].
      intros e (pre & c0 & post & es0 & w0 & r0 & w3
                & (-> & Hp & Hf0 & Hch) & Hs0).
      exists pre, c0, (post ++ [cand]), es0, w0, r0, w3.
      split; [|exact Hs0]. split; [|repeat split; assumption].
      rewrite <- app_assoc. reflexivity.
    + destruct r as [[[t|] c] code]; simpl in Hst.
      * destruct Hst as (e & -> & Hrest).
        constructor; [|constructor].
        exists init, cand, [], es1, w1, (Some t, c, code), w2.
        split; [repeat split; try assumption;
                apply (fuse_choice cfg); exact Hf|].
        exists e. split; [reflexivity|exact Hrest].
      * subst es. constructor.
Qed.

Lemma classify_entities_confidence_witness :
  exists (classified : list MedicalEntity) (w' : World),
    _classify_entities default_config kb_candidates (kb_world true one_lookup)
    = (inr classified, w')
    /\ exists es1 w1 r w2 es es2,
         fused_at default_config kb_candidates (kb_world true one_lookup)
                  [heparin_candidate; fever_candidate] heparin_candidate []
                  es1 w1 r w2
         /\ stored_for heparin_candidate r es
         /\ _classify_entities default_config [] w2 = (inr es2, w')
         /\ classified = es1 ++ es ++ es2.
Proof.
  destruct (_classify_entities default_config kb_candidates
              (kb_world true one_lookup)) as [[ex|classified] w'] eqn:E;
    [vm_compute in E; discriminate E|].
  exists classified, w'. split; [reflexivity|].
  apply (proj1 (classify_entities_confidence default_config kb_candidates
                  (kb_world true one_lookup) w' classified E)
               [heparin_candidate; fever_candidate] heparin_candidate []).
  reflexivity.
Defined.

(** ** Dosage linking *)

Lemma same_core_refl a : same_core a a.
Proof. repeat split. Qed.

Lemma same_core_trans a b c : same_core a b -> same_core b c -> same_core a c.
Proof.
  unfold same_core. intros (?&?&?&?&?&?) (?&?&?&?&?&?).
  repeat split; congruence.
Qed.

Lemma postprocess_entity_core e es original :
  same_core e (postprocess_entity e es original).
Proof.
  unfold postprocess_entity.
  destruct (bool_decide (type e = MEDICATION)); simpl;
    destruct (bool_decide _); simpl;
    try destruct (_find_nearest_medication _ _); repeat split.
Qed.

Lemma nearest_loop_spec d meds :
  forall md nm, acc_ok d md nm ->
    match nearest_loop d meds md nm with
    | None => nm = None /\ Forall (fun m => (50 <= distance d m)%Z) meds
    | Some r =>
        (nm = Some r
         /\ Forall (fun m => (distance d r <= distance d m)%Z) meds)
        \/ (first_nearest d meds r
            /\ forall n0, nm = Some n0 -> (distance d r < distance d n0)%Z)
    end.
Proof.
  induction meds as [|med rest IH]; intros md nm Hacc; simpl.
  - destruct nm as [n0|]; simpl in *.
    + left. split; [reflexivity|constructor].
    + split; [reflexivity|constructor].
  - fold (distance d med).
    destruct (below (distance d med) md && (distance d med <? 50)%Z) eqn:E.
    + apply andb_true_iff in E as [Hb Hlt]. apply Z.ltb_lt in Hlt.
      assert (Hnm : forall n0, nm = Some n0 ->
                      (distance d med < distance d n0)%Z).
      { intros n0 ->. simpl in Hacc. destruct Hacc as [-> _].
        simpl in Hb. by apply Z.ltb_lt in Hb. }
      specialize (IH (Some (distance d med)) (Some med)).
      destruct (nearest_loop d rest _ _) as [r|].
      * right. destruct IH as [[[= <-] Hle]|[(pre & post & -> & H50 & Hpre & Hpost) Hn]];
          [split; [reflexivity|exact Hlt]| |].
        -- split; [|exact Hnm].
           exists [], rest. repeat split; [exact Hlt|constructor|exact Hle].
        -- specialize (Hn med eq_refl). split.
           ++ exists (med :: pre), post. repeat split; try assumption.
              constructor; assumption.
           ++ intros n0 Hn0. specialize (Hnm n0 Hn0). lia.
      * destruct IH as [H _]; [split; [reflexivity|exact Hlt]|discriminate H].
    + specialize (IH md nm Hacc).
      assert (Hfar : forall r, (distance d r < 50)%Z ->
                (forall n0, nm = Some n0 -> (distance d r <= distance d n0)%Z) ->
                (nm = None \/ exists n0, nm = Some n0
                                         /\ (distance d r < distance d n0)%Z) ->
                (distance d r < distance d med)%Z).
      { intros r Hr Hn Hstrict. apply andb_false_iff in E as [E|E].
        - destruct Hstrict as [->|(n0 & -> & Hs)].
          + simpl in Hacc. subst md. discriminate E.
          + simpl in Hacc. destruct Hacc as [-> _]. simpl in E.
            apply Z.ltb_ge in E. lia.
        - apply Z.ltb_ge in E. lia. }
      destruct (nearest_loop d rest md nm) as [r|].
      * destruct IH as [[-> Hle]|[(pre & post & -> & H50 & Hpre & Hpost) Hn]].
        -- left. split; [reflexivity|]. constructor; [|exact Hle].
           simpl in Hacc. destruct Hacc as [-> Hr50].
           apply andb_false_iff in E as [E|E]; simpl in E;
             apply Z.ltb_ge in E; lia.
        -- right. split; [|exact Hn].
           exists (med :: pre), post. repeat split; try assumption.
           constructor; [|exact Hpre].
           apply Hfar; [exact H50| |].
           ++ intros n0 Hn0. specialize (Hn n0 Hn0). lia.
           ++ destruct nm as [n0|]; [right; exists n0; auto|by left].
      * destruct IH as [-> H2]. split; [reflexivity|].
        constructor; [|exact H2].
        simpl in Hacc. subst md. simpl in E. by apply Z.ltb_ge in E.
Qed.

Lemma filter_medication_split (es : list MedicalEntity) :
  forall a x b,
    filter (fun e => type e = MEDICATION) es = a ++ x :: b ->
    exists a' b',
      es = a' ++ x :: b'
      /\ filter (fun e => type e = MEDICATION) a' = a
      /\ filter (fun e => type e = MEDICATION) b' = b.
Proof.
  induction es as [|e es IH]; intros a x b H.
  - destruct a; discriminate H.
  - rewrite filter_cons in H.
    destruct (decide (type e = MEDICATION)) as [He|He].
    + destruct a as [|y a]; simpl in H.
      * injection H as -> Hb. exists [], es. auto.
      * injection H as -> Hf. destruct (IH a x b Hf) as (a' & b' & -> & <- & <-).
        exists (y :: a'), b'. repeat split.
        rewrite filter_cons. destruct (decide _); [reflexivity|contradiction].
    + destruct (IH a x b H) as (a' & b' & -> & <- & <-).
      exists (e :: a'), b'. repeat split.
      rewrite filter_cons. destruct (decide _); [contradiction|reflexivity].
Qed.

Lemma Forall_filter_medication (P : MedicalEntity -> Prop)
    (l : list MedicalEntity) :
  Forall P (filter (fun e => type e = MEDICATION) l) ->
  Forall (fun m => type m = MEDICATION -> P m) l.
Proof.
  intros H. apply Forall_forall. intros m Hin Hm.
  rewrite Forall_forall in H. apply H.
  apply list_elem_of_filter. split; assumption.
Qed.

Lemma find_nearest_medication_spec d es :
  match _find_nearest_medication d es with
  | Some med => is_nearest d es med
  | None => Forall (fun m => type m = MEDICATION -> (50 <= distance d m)%Z) es
  end.
Proof.
  unfold _find_nearest_medication.
  pose proof (nearest_loop_spec d (filter (fun e => type e = MEDICATION) es)
                None None eq_refl) as H.
  destruct (filter (fun e => type e = MEDICATION) es) as [|m meds] eqn:Hf.
  - apply Forall_filter_medication. rewrite Hf. constructor.
  - rewrite <- Hf in *.
    destruct (nearest_loop d _ None None) as [r|].
    + destruct H as [[H _]|[(pre & post & Hsplit & H50 & Hpre & Hpost) _]];
        [discriminate H|].
      assert (Hr : type r = MEDICATION).
      { assert (Hin : r ∈ filter (fun e => type e = MEDICATION) es).
        { rewrite Hsplit. apply elem_of_app. right.
          apply list_elem_of_here. }
        apply list_elem_of_filter in Hin as [Hr _]. exact Hr. }
      apply filter_medication_split in Hsplit as (a' & b' & -> & <- & <-).
      exists a', b'. repeat split; try assumption.
      * by apply Forall_filter_medication.
      * by apply Forall_filter_medication.
    + destruct H as [_ H]. by apply Forall_filter_medication.
Qed.

Lemma nearest_loop_same_core d d' meds meds' :
  start_pos d = start_pos d' ->
  Forall2 same_core meds meds' ->
  forall md nm nm', same_core_opt nm nm' ->
    same_core_opt (nearest_loop d meds md nm) (nearest_loop d' meds' md nm').
Proof.
  intros Hd HF. induction HF as [|m m' meds meds' Hm HF IH];
    intros md nm nm' Hn; simpl; [exact Hn|].
  assert (Hdist : Z.abs (start_pos d - end_pos m)
                  = Z.abs (start_pos d' - end_pos m')).
  { destruct Hm as (_&_&_&He&_). rewrite Hd, He. reflexivity. }
  rewrite Hdist.
  destruct (below _ md && _); apply IH; [exact Hm|exact Hn].
Qed.

Lemma filter_medication_same_core (es es' : list MedicalEntity) :
  Forall2 same_core es es' ->
  Forall2 same_core (filter (fun e => type e = MEDICATION) es)
                    (filter (fun e => type e = MEDICATION) es').
Proof.
  intros HF. induction HF as [|e e' es es' He HF IH]; [constructor|].
  rewrite !filter_cons.
  assert (Hty : type e = type e') by (destruct He as (_&?&_); assumption).
  destruct (decide (type e = MEDICATION)) as [Ht|Ht];
    destruct (decide (type e' = MEDICATION)) as [Ht'|Ht']; try congruence.
  constructor; assumption.
Qed.

Lemma find_nearest_medication_same_core d d' es es' :
  start_pos d = start_pos d' ->
  Forall2 same_core es es' ->
  same_core_opt (_find_nearest_medication d es)
                (_find_nearest_medication d' es').
Proof.
  intros Hd HF. unfold _find_nearest_medication.
  pose proof (filter_medication_same_core _ _ HF) as Hf.
  pose proof (nearest_loop_same_core d d' _ _ Hd Hf None None None I) as Hn.
  destruct Hf; [exact I|exact Hn].
Qed.

Lemma Forall2_same_core_refl (es : list MedicalEntity) :
  Forall2 same_core es es.
Proof. induction es; constructor; [apply same_core_refl|assumption]. Qed.

Lemma Forall2_same_core_trans (a b c : list MedicalEntity) :
  Forall2 same_core a b -> Forall2 same_core b c -> Forall2 same_core a c.
Proof.
  intros Hab. revert c. induction Hab as [|x y a b Hxy Hab IH]; intros c Hbc.
  - inversion Hbc. constructor.
  - inversion Hbc as [|y' z b' c' Hyz Hbc']; subst.
    constructor; [eapply same_core_trans; eassumption|apply IH; assumption].
Qed.

Lemma Forall2_same_core_insert (es : list MedicalEntity) i e e' :
  es !! i = Some e -> same_core e e' ->
  Forall2 same_core es (<[i := e']> es).
Proof.
  revert i. induction es as [|x es IH]; intros [|i] Hi He; simpl in *;
    try discriminate.
  - injection Hi as ->. constructor; [exact He|apply Forall2_same_core_refl].
  - constructor; [apply same_core_refl|apply IH; assumption].
Qed.

(** The loop leaves the entries before the current index alone. *)
Lemma postprocess_loop_before original n :
  forall i (es : list MedicalEntity) j,
    (j < i)%nat -> postprocess_loop n i es original !! j = es !! j.
Proof.
  induction n as [|n IH]; intros i es j Hj; simpl; [reflexivity|].
  destruct (es !! i) as [e|] eqn:Hi; [|reflexivity].
  rewrite IH by lia. apply list_lookup_insert_ne. lia.
Qed.

(** The entry at an index the loop passes is [postprocess_entity] of the
    original entry, run against a list that differs from the original one in
    the written fields only. *)
Lemma postprocess_loop_at original n :
  forall i (es : list MedicalEntity) j e,
    es !! j = Some e -> (i <= j < i + n)%nat ->
    exists es_j,
      Forall2 same_core es es_j
      /\ postprocess_loop n i es original !! j
         = Some (postprocess_entity e es_j original).
Proof.
  induction n as [|n IH]; intros i es j e Hj Hij; [lia|]. simpl.
  destruct (es !! i) as [ei|] eqn:Hi.
  - destruct (decide (j = i)) as [->|Hne].
    + rewrite Hi in Hj. injection Hj as ->.
      exists es. split; [apply Forall2_same_core_refl|].
      rewrite postprocess_loop_before by lia.
      apply list_lookup_insert_eq. eapply lookup_lt_Some. exact Hi.
    + destruct (IH (S i) (<[i := postprocess_entity ei es original]> es) j e)
        as (es_j & HF & Hl).
      * rewrite list_lookup_insert_ne by lia. exact Hj.
      * lia.
      * exists es_j. split; [|exact Hl].
        eapply Forall2_same_core_trans; [|exact HF].
        eapply Forall2_same_core_insert; [exact Hi|].
        apply postprocess_entity_core.
  - exfalso. apply lookup_ge_None in Hi.
    apply lookup_lt_Some in Hj. lia.
Qed.

Lemma postprocess_entity_link d es original :
  type d = DOSAGE -> metadata d = None ->
  metadata_get "linked_medication" (postprocess_entity d es original)
  = text <$> _find_nearest_medication d es.
Proof.
  intros Hty Hmeta. unfold postprocess_entity.
  rewrite (bool_decide_eq_false_2 (type d = MEDICATION))
    by (rewrite Hty; discriminate).
  rewrite (bool_decide_eq_true_2 (type d = DOSAGE)) by exact Hty.
  destruct (_find_nearest_medication d es) as [med|]; simpl.
  - unfold metadata_get, metadata_set. simpl.
    rewrite lookup_insert_ne by discriminate.
    apply lookup_singleton_eq.
  - unfold metadata_get, metadata_set. simpl. rewrite Hmeta. simpl.
    rewrite lookup_insert_ne by discriminate. apply lookup_empty.
Qed.

(** What post-processing records for the dosage at index [i]: the text of
    the medication [_find_nearest_medication] finds in the list. *)
Lemma postprocess_entities_link (es : list MedicalEntity) original i d :
  es !! i = Some d -> type d = DOSAGE -> metadata d = None ->
  exists d',
    _postprocess_entities es original !! i = Some d'
    /\ same_core d d'
    /\ metadata_get "linked_medication" d'
       = text <$> _find_nearest_medication d es.
Proof.
  intros Hi Hty Hmeta. unfold _postprocess_entities.
  destruct (postprocess_loop_at original (length es) 0 es i d Hi)
    as (es_i & HF & Hl).
  { apply lookup_lt_Some in Hi. lia. }
  exists (postprocess_entity d es_i original).
  split; [exact Hl|]. split; [apply postprocess_entity_core|].
  rewrite postprocess_entity_link by assumption.
  pose proof (find_nearest_medication_same_core d d es es_i eq_refl HF) as Hs.
  destruct (_find_nearest_medication d es) as [m|],
           (_find_nearest_medication d es_i) as [m'|]; simpl in *;
    try contradiction; [|reflexivity].
  destruct Hs as (Ht & _). rewrite Ht. reflexivity.
Qed.

(** C6. For a DOSAGE entity of the classified list, post-processing records
    [linked_medication] exactly when some MEDICATION entity of the list lies
    less than 50 characters away ([|dosage start - medication end| < 50]);
    the recorded value is the surface text of the medication at the least
    distance (the first such in the list when several are equally near);
    when every medication is 50 or more characters away, or there is none,
    nothing is recorded. *)
Theorem dosage_linking :
  forall (es : list MedicalEntity) (original : string) (i : nat)
         (d : MedicalEntity),
    es !! i = Some d -> type d = DOSAGE -> metadata d = None ->
    exists d',
      _postprocess_entities es original !! i = Some d'
      /\ ((exists med, med ∈ es /\ type med = MEDICATION
                       /\ (distance d med < 50)%Z)
          <-> is_Some (metadata_get "linked_medication" d'))
      /\ (forall t, metadata_get "linked_medication" d' = Some t ->
                    exists med, is_nearest d es med /\ text med = t)
      /\ (Forall (fun m => type m = MEDICATION -> (50 <= distance d m)%Z) es ->
          metadata_get "linked_medication" d' = None).
Proof.
  intros es original i d Hi Hty Hmeta.
  destruct (postprocess_entities_link es original i d Hi Hty Hmeta)
    as (d' & Hl & _ & Hlink).
  exists d'. split; [exact Hl|]. rewrite Hlink.
  pose proof (find_nearest_medication_spec d es) as Hspec.
  destruct (_find_nearest_medication d es) as [med|]; simpl.
  - assert (Hin : med ∈ es /\ type med = MEDICATION
                  /\ (distance d med < 50)%Z).
    { destruct Hspec as (pre & post & -> & Hmed & Hlt & _).
      split; [|split; assumption].
      apply elem_of_app. right. apply list_elem_of_here. }
    split; [|split].
    + split; [intros _; eexists; reflexivity|].
      intros _. exists med. exact Hin.
    + intros t [= <-]. exists med. split; [exact Hspec|reflexivity].
    + intros Hfar. rewrite Forall_forall in Hfar.
      destruct Hin as (Hin & Hmed & Hlt).
      specialize (Hfar med Hin Hmed). lia.
  - split; [|split].
    + split.
      * intros (med & Hin & Hmed & Hlt). rewrite Forall_forall in Hspec.
        specialize (Hspec med Hin Hmed). lia.
      * intros [x Hx]. discriminate Hx.
    + intros t Ht. discriminate Ht.
    + intros _. reflexivity.
Qed.

(** The two examples of the specification: a dosage 2 characters after the
    medication is linked to it, a dosage 100 characters after the only
    medication is not linked. *)
Lemma dosage_linking_examples :
  (exists d',
     _postprocess_entities [lisinopril; dosage_at_52] near_text !! 1%nat
     = Some d'
     /\ metadata_get "linked_medication" d' = Some "lisinopril")
  /\ (exists d',
        _postprocess_entities [lisinopril; dosage_at_150] far_text !! 1%nat
        = Some d'
        /\ metadata_get "linked_medication" d' = None).
Proof.
  split.
  - destruct (dosage_linking [lisinopril; dosage_at_52] near_text 1
                dosage_at_52 eq_refl eq_refl eq_refl)
      as (d' & Hl & Ha & Hb & _).
    exists d'. split; [exact Hl|].
    destruct Ha as [Ha _].
    destruct Ha as [t Ht].
    { exists lisinopril. split; [apply list_elem_of_here|].
      split; [reflexivity|]. vm_compute. reflexivity. }
    rewrite Ht. f_equal.
    destruct (Hb t Ht) as (med & (pre & post & Hsplit & Hmed & _) & <-).
    assert (Hin : med ∈ [lisinopril; dosage_at_52]).
    { rewrite Hsplit. apply elem_of_app. right. apply list_elem_of_here. }
    apply elem_of_cons in Hin as [->|Hin]; [reflexivity|].
    apply elem_of_cons in Hin as [->|Hin]; [discriminate Hmed|].
    by apply not_elem_of_nil in Hin.
  - destruct (dosage_linking [lisinopril; dosage_at_150] far_text 1
                dosage_at_150 eq_refl eq_refl eq_refl)
      as (d' & Hl & _ & _ & Hc).
    exists d'. split; [exact Hl|]. apply Hc.
    constructor; [intros _; vm_compute; discriminate|].
    constructor; [intros Hm; discriminate Hm|constructor].
Defined.

(** ** Facts about the matcher *)

Lemma length_chars s : length (Py.chars s) = String.length s.
Proof. induction s as [|c s IH]; simpl; [reflexivity|]. f_equal. exact IH. Qed.

Lemma length_str l : String.length (Py.str l) = length l.
Proof. induction l as [|c l IH]; simpl; [reflexivity|]. f_equal. exact IH. Qed.

Lemma lit_match_length ic p l t rest :
  Re.lit_match ic p l = Some (t, rest) -> length t = length p.
Proof.
  revert l t rest. induction p as [|a p IH]; intros l t rest H; simpl in H.
  - injection H as <- _. reflexivity.
  - destruct l as [|b l]; [discriminate|].
    destruct (Re.char_eq ic a b); [|discriminate].
    destruct (Re.lit_match ic p l) as [[t' r']|] eqn:E; [|discriminate].
    injection H as <- _. simpl. f_equal. eapply IH. exact E.
Qed.

Lemma run_seq ic r1 r2 prev l m :
  In m (Re.run ic (Seq r1 r2) prev l) ->
  exists m1 m2,
    In m1 (Re.run ic r1 prev l)
    /\ In m2 (Re.run ic r2 (Re.prev_after prev (m_text m1)) (m_rest m1))
    /\ m = MRes (m_text m1 ++ m_text m2) (m_caps m2 ++ m_caps m1) (m_rest m2).
Proof.
  simpl. intros H. apply in_flat_map in H as (m1 & H1 & H).
  apply in_map_iff in H as (m2 & <- & H2). exists m1, m2. auto.
Qed.

Lemma run_group ic n r prev l m :
  In m (Re.run ic (Group n r) prev l) ->
  exists m0, In m0 (Re.run ic r prev l)
             /\ m = MRes (m_text m0) ((n, m_text m0) :: m_caps m0) (m_rest m0).
Proof.
  simpl. intros H. apply in_map_iff in H as (m0 & <- & H0). exists m0. auto.
Qed.

Lemma run_no_group ic r :
  no_group r = true ->
  forall prev l m, In m (Re.run ic r prev l) -> m_caps m = [].
Proof.
  induction r as [s|c| |r1 IH1 r2 IH2|r1 IH1 r2 IH2|c|r1 IH1|n r1 IH1];
    intros Hg prev l m H; simpl in Hg.
  - simpl in H. destruct (Re.lit_match ic _ l) as [[t rest]|]; [|contradiction].
    destruct H as [<-|[]]. reflexivity.
  - simpl in H. destruct l as [|a l]; [contradiction|].
    destruct (Re.cset_match ic c a); [|contradiction].
    destruct H as [<-|[]]. reflexivity.
  - simpl in H. destruct (xorb _ _); [|contradiction].
    destruct H as [<-|[]]. reflexivity.
  - apply andb_true_iff in Hg as [Hg1 Hg2].
    apply run_seq in H as (m1 & m2 & H1 & H2 & ->). simpl.
    rewrite (IH1 Hg1 _ _ _ H1), (IH2 Hg2 _ _ _ H2). reflexivity.
  - apply andb_true_iff in Hg as [Hg1 Hg2].
    simpl in H. apply in_app_or in H as [H|H]; eauto.
  - simpl in H. apply in_map_iff in H as (tr & <- & _). reflexivity.
  - simpl in H. apply in_app_or in H as [H|H]; [eauto|].
    destruct H as [<-|[]]. reflexivity.
  - discriminate Hg.
Qed.

Lemma run_max_len ic r :
  forall n prev l m,
    max_len r = Some n -> In m (Re.run ic r prev l) ->
    (length (m_text m) <= n)%nat.
Proof.
  induction r as [s|c| |r1 IH1 r2 IH2|r1 IH1 r2 IH2|c|r1 IH1|k r1 IH1];
    intros n prev l m Hn H; simpl in Hn.
  - injection Hn as <-. simpl in H.
    destruct (Re.lit_match ic _ l) as [[t rest]|] eqn:E; [|contradiction].
    destruct H as [<-|[]]. simpl.
    rewrite (lit_match_length _ _ _ _ _ E). unfold Py.chars.
    fold (Py.chars s). rewrite length_chars. lia.
  - injection Hn as <-. simpl in H. destruct l as [|a l]; [contradiction|].
    destruct (Re.cset_match ic c a); [|contradiction].
    destruct H as [<-|[]]. simpl. lia.
  - injection Hn as <-. simpl in H. destruct (xorb _ _); [|contradiction].
    destruct H as [<-|[]]. simpl. lia.
  - destruct (max_len r1) as [a|]; [|discriminate].
    destruct (max_len r2) as [b|]; [|discriminate]. injection Hn as <-.
    apply run_seq in H as (m1 & m2 & H1 & H2 & ->). simpl.
    rewrite length_app.
    specialize (IH1 _ _ _ _ eq_refl H1). specialize (IH2 _ _ _ _ eq_refl H2).
    lia.
  - destruct (max_len r1) as [a|]; [|discriminate].
    destruct (max_len r2) as [b|]; [|discriminate]. injection Hn as <-.
    simpl in H. apply in_app_or in H as [H|H].
    + specialize (IH1 _ _ _ _ eq_refl H). lia.
    + specialize (IH2 _ _ _ _ eq_refl H). lia.
  - discriminate Hn.
  - destruct (max_len r1) as [a|]; [|discriminate]. injection Hn as <-.
    simpl in H. apply in_app_or in H as [H|H].
    + exact (IH1 _ _ _ _ eq_refl H).
    + destruct H as [<-|[]]. simpl. lia.
  - apply run_group in H as (m0 & H0 & ->). simpl. eauto.
Qed.

Lemma match_at_in ic r prev l m :
  Re.match_at ic r prev l = Some m -> In m (Re.run ic r prev l).
Proof.
  unfold Re.match_at. destruct (Re.run ic r prev l) as [|m0 ms]; simpl;
    [discriminate|].
  intros [= ->]. by left.
Qed.

(** A substitution whose replacement is never shorter than the match never
    shortens the text. [skip] characters at the front are already paid
    for. *)
Lemma sub_from_length ic r repl :
  (forall prev l m, In m (Re.run ic r prev l) ->
                    (length (m_text m) <= length (Re.expand repl m))%nat) ->
  forall l prev skip,
    (length l - skip <= length (Re.sub_from ic r repl prev l skip))%nat.
Proof.
  intros Hrepl. induction l as [|a l IH]; intros prev skip; simpl; [lia|].
  destruct skip as [|k].
  - destruct (Re.match_at ic r prev (a :: l)) as [m|] eqn:E.
    + apply match_at_in in E. specialize (Hrepl _ _ _ E).
      destruct (m_text m) as [|c t] eqn:Et; simpl.
      * specialize (IH (Some a) 0%nat). lia.
      * rewrite length_app. specialize (IH (Some a) (length t)).
        simpl in Hrepl. lia.
    + simpl. specialize (IH (Some a) 0%nat). lia.
  - specialize (IH (Some a) k). lia.
Qed.

Lemma sub_length ic r repl s :
  (forall prev l m, In m (Re.run ic r prev l) ->
                    (length (m_text m) <= length (Re.expand repl m))%nat) ->
  (String.length s <= String.length (Re.sub ic r repl s))%nat.
Proof.
  intros H. unfold Re.sub. rewrite length_str.
  pose proof (sub_from_length ic r repl H (Py.chars s) None 0%nat) as Hl.
  rewrite length_chars in Hl. lia.
Qed.

(** *** Matches are pieces of the subject *)

Lemma lit_match_split ic p l t rest :
  Re.lit_match ic p l = Some (t, rest) -> t ++ rest = l.
Proof.
  revert l t rest. induction p as [|a p IH]; intros l t rest H; simpl in H.
  - injection H as <- <-. reflexivity.
  - destruct l as [|b l]; [discriminate|].
    destruct (Re.char_eq ic a b); [|discriminate].
    destruct (Re.lit_match ic p l) as [[t' r']|] eqn:E; [|discriminate].
    injection H as <- <-. simpl. f_equal. eapply IH. exact E.
Qed.

Lemma star_run_split ic c l tr :
  In tr (Re.star_run ic c l) -> fst tr ++ snd tr = l.
Proof.
  revert tr. induction l as [|a l IH]; intros tr H; simpl in H.
  - destruct H as [<-|[]]. reflexivity.
  - destruct (Re.cset_match ic c a).
    + apply in_app_or in H as [H|[<-|[]]]; [|reflexivity].
      apply in_map_iff in H as (tr' & <- & H'). simpl. f_equal. apply IH, H'.
    + destruct H as [<-|[]]. reflexivity.
Qed.

Lemma run_split ic r :
  forall prev l m, In m (Re.run ic r prev l) -> m_text m ++ m_rest m = l.
Proof.
  induction r as [s|c| |r1 IH1 r2 IH2|r1 IH1 r2 IH2|c|r1 IH1|n r1 IH1];
    intros prev l m H.
  - simpl in H. destruct (Re.lit_match ic _ l) as [[t rest]|] eqn:E;
      [|contradiction].
    destruct H as [<-|[]]. simpl. eapply lit_match_split. exact E.
  - simpl in H. destruct l as [|a l]; [contradiction|].
    destruct (Re.cset_match ic c a); [|contradiction].
    destruct H as [<-|[]]. reflexivity.
  - simpl in H. destruct (xorb _ _); [|contradiction].
    destruct H as [<-|[]]. reflexivity.
  - apply run_seq in H as (m1 & m2 & H1 & H2 & ->). simpl.
    rewrite <- app_assoc, (IH2 _ _ _ H2). apply (IH1 _ _ _ H1).
  - simpl in H. apply in_app_or in H as [H|H]; eauto.
  - simpl in H. apply in_map_iff in H as (tr & <- & H). simpl.
    eapply star_run_split. exact H.
  - simpl in H. apply in_app_or in H as [H|[<-|[]]]; [eauto|reflexivity].
  - apply run_group in H as (m0 & H0 & ->). simpl. eauto.
Qed.

(** Every match [finditer] reports is a non-empty range of the subject. *)
Lemma finditer_from_range ic r l :
  forall prev pos skip f,
    In f (Re.finditer_from ic r prev l pos skip) ->
    (pos + Z.of_nat skip <= f_start f /\ f_start f < f_end f
     /\ f_end f <= pos + Z.of_nat (length l))%Z.
Proof.
  induction l as [|a l IH]; intros prev pos skip f H; [contradiction|].
  cbn [Re.finditer_from] in H. destruct skip as [|k].
  - destruct (Re.match_at ic r prev (a :: l)) as [m|] eqn:E.
    + apply match_at_in, run_split in E.
      destruct (m_text m) as [|c t] eqn:Et.
      * apply IH in H. simpl length. lia.
      * destruct H as [<-|H].
        -- simpl f_start. simpl f_end.
           assert (Hlen : length ((c :: t) ++ m_rest m) = length (a :: l))
             by (rewrite E; reflexivity).
           rewrite length_app in Hlen. simpl in Hlen. simpl length. lia.
        -- apply IH in H. simpl length. lia.
    + apply IH in H. simpl length. lia.
  - apply IH in H. simpl length. lia.
Qed.

Lemma finditer_range ic r s f :
  In f (Re.finditer ic r s) -> span_in s (f_start f) (f_end f).
Proof.
  unfold Re.finditer. intros H. apply finditer_from_range in H.
  unfold span_in, Py.len. rewrite length_chars in H. lia.
Qed.

(** *** Case-insensitive matching does not see the case of the subject *)

Lemma lower_char_facts (c : ascii) :
  Py.lower_char (Py.lower_char c) = Py.lower_char c
  /\ Py.is_digit (Py.lower_char c) = Py.is_digit c
  /\ Py.is_word (Py.lower_char c) = Py.is_word c
  /\ Py.is_space (Py.lower_char c) = Py.is_space c
  /\ Py.is_alpha (Py.lower_char c) = Py.is_alpha c.
Proof.
  destruct c as [[] [] [] [] [] [] [] []]; vm_compute; repeat split.
Qed.

Lemma char_eq_lower a b :
  Re.char_eq true a (Py.lower_char b) = Re.char_eq true a b.
Proof.
  unfold Re.char_eq. destruct (lower_char_facts b) as (-> & _). reflexivity.
Qed.

Lemma cset_match_lower c a :
  Re.cset_match true c (Py.lower_char a) = Re.cset_match true c a.
Proof.
  destruct (lower_char_facts a) as (_ & Hd & Hw & Hs & Ha).
  destruct c; simpl; [apply char_eq_lower|assumption..].
Qed.

Lemma lit_match_lower p l :
  Re.lit_match true p (map Py.lower_char l)
  = (fun tr => (map Py.lower_char (fst tr), map Py.lower_char (snd tr)))
      <$> Re.lit_match true p l.
Proof.
  revert l. induction p as [|a p IH]; intros l; simpl; [reflexivity|].
  destruct l as [|b l]; simpl; [reflexivity|].
  destruct (lower_char_facts b) as (-> & _).
  destruct (Ascii.eqb _ _); [|reflexivity].
  rewrite IH. destruct (Re.lit_match true p l) as [[t r]|]; reflexivity.
Qed.

Lemma star_run_lower c l :
  Re.star_run true c (map Py.lower_char l)
  = map (fun tr => (map Py.lower_char (fst tr), map Py.lower_char (snd tr)))
        (Re.star_run true c l).
Proof.
  induction l as [|a l IH]; simpl; [reflexivity|].
  rewrite cset_match_lower. destruct (Re.cset_match true c a); [|reflexivity].
  rewrite IH, map_app, !map_map. reflexivity.
Qed.

Lemma word_opt_lower o :
  Re.word_opt (option_map Py.lower_char o) = Re.word_opt o.
Proof.
  destruct o as [c|]; simpl; [|reflexivity].
  by destruct (lower_char_facts c) as (_ & _ & -> & _).
Qed.

Lemma prev_after_lower prev t :
  Re.prev_after (option_map Py.lower_char prev) (map Py.lower_char t)
  = option_map Py.lower_char (Re.prev_after prev t).
Proof.
  unfold Re.prev_after.
  assert (H : last (map Py.lower_char t) = option_map Py.lower_char (last t)).
  { induction t as [|a [|b t] IH]; try reflexivity. exact IH. }
  rewrite H. destruct (last t); reflexivity.
Qed.

Lemma flat_map_map_commute {A B} (f f' : A -> list B) (g : A -> A)
    (h : B -> B) (xs : list A) :
  (forall x, f (g x) = map h (f' x)) ->
  flat_map f (map g xs) = map h (flat_map f' xs).
Proof.
  intros H. induction xs as [|x xs IH]; simpl; [reflexivity|].
  rewrite map_app, H, IH. reflexivity.
Qed.

Lemma run_lower r :
  forall prev l,
    Re.run true r (option_map Py.lower_char prev) (map Py.lower_char l)
    = map lower_mres (Re.run true r prev l).
Proof.
  induction r as [s|c| |r1 IH1 r2 IH2|r1 IH1 r2 IH2|c|r1 IH1|n r1 IH1];
    intros prev l; simpl.
  - rewrite lit_match_lower.
    destruct (Re.lit_match true (Py.chars s) l) as [[t rest]|]; reflexivity.
  - destruct l as [|a l]; simpl; [reflexivity|].
    rewrite cset_match_lower. destruct (Re.cset_match true c a); reflexivity.
  - rewrite word_opt_lower.
    replace (head (map Py.lower_char l)) with (option_map Py.lower_char (head l))
      by (destruct l; reflexivity).
    rewrite word_opt_lower. destruct (xorb _ _); reflexivity.
  - rewrite IH1. apply flat_map_map_commute. intros m1. simpl.
    rewrite prev_after_lower, IH2, !map_map.
    apply map_ext. intros m2.
    unfold lower_mres. simpl. rewrite !map_app. reflexivity.
  - rewrite IH1, IH2, map_app. reflexivity.
  - rewrite star_run_lower, !map_map. reflexivity.
  - rewrite IH1, map_app. reflexivity.
  - rewrite IH1, !map_map. reflexivity.
Qed.

Lemma chars_lower s : Py.chars (Py.lower s) = map Py.lower_char (Py.chars s).
Proof. unfold Py.lower, Py.chars, Py.str. apply list_ascii_of_string_of_list_ascii. Qed.

Lemma fullmatch_lower r s :
  Re.fullmatch true r (Py.lower s) = Re.fullmatch true r s.
Proof.
  unfold Re.fullmatch. rewrite chars_lower.
  pose proof (run_lower r None (Py.chars s)) as H. cbn [option_map] in H.
  rewrite H. clear H.
  induction (Re.run true r None (Py.chars s)) as [|m ms IH]; simpl;
    [reflexivity|].
  rewrite IH. destruct (m_rest m); reflexivity.
Qed.

Lemma search_from_lower r l :
  forall prev,
    Re.search_from true r (option_map Py.lower_char prev) (map Py.lower_char l)
    = Re.search_from true r prev l.
Proof.
  induction l as [|a l IH]; intros prev.
  - cbn [Re.search_from map]. unfold Re.match_at.
    change (@nil ascii) with (map Py.lower_char []) at 1.
    rewrite (run_lower r prev []).
    destruct (Re.run true r prev []); reflexivity.
  - cbn [Re.search_from map]. unfold Re.match_at.
    change (Py.lower_char a :: map Py.lower_char l)
      with (map Py.lower_char (a :: l)).
    rewrite (run_lower r prev (a :: l)).
    destruct (Re.run true r prev (a :: l)); simpl; [|reflexivity].
    apply (IH (Some a)).
Qed.

Lemma search_lower r s : Re.search true r (Py.lower s) = Re.search true r s.
Proof.
  unfold Re.search. rewrite chars_lower. apply (search_from_lower r _ None).
Qed.

Lemma lstrip_chars_lower l :
  Py.lstrip_chars (map Py.lower_char l) = map Py.lower_char (Py.lstrip_chars l).
Proof.
  induction l as [|a l IH]; simpl; [reflexivity|].
  destruct (lower_char_facts a) as (_ & _ & _ & -> & _).
  destruct (Py.is_space a); [exact IH|reflexivity].
Qed.

(** [text.lower().strip()] is [text.strip().lower()]. *)
Lemma strip_lower s : Py.strip (Py.lower s) = Py.lower (Py.strip s).
Proof.
  unfold Py.strip. rewrite chars_lower. unfold Py.lower, Py.strip_chars.
  f_equal. unfold Py.chars at 2, Py.str.
  rewrite list_ascii_of_string_of_list_ascii.
  rewrite lstrip_chars_lower, <- map_rev, lstrip_chars_lower, map_rev.
  reflexivity.
Qed.

(** ** The rule classifier *)

Section RuleClassifier.
Import RuleBasedClassifier.

Lemma classify_group_silent ty ps t :
  Forall (fun p => pattern_search p t = false) ps ->
  classify_group ty ps t = None.
Proof.
  induction 1 as [|p ps Hp _ IH]; simpl; [reflexivity|].
  rewrite Hp. exact IH.
Qed.

Lemma classify_group_first ty pre p post t :
  Forall (fun q => pattern_search q t = false) pre ->
  pattern_search p t = true ->
  classify_group ty (pre ++ p :: post) t = Some (Some ty, rule_confidence p t).
Proof.
  induction 1 as [|q pre Hq _ IH]; intros Hp; simpl.
  - rewrite Hp. reflexivity.
  - rewrite Hq. apply IH. exact Hp.
Qed.

Lemma classify_group_found ty ps t p :
  In p ps -> pattern_search p t = true ->
  exists q, In q ps /\ classify_group ty ps t = Some (Some ty, rule_confidence q t).
Proof.
  induction ps as [|q ps IH]; intros Hin Hp; [contradiction|]. simpl.
  destruct (pattern_search q t) eqn:Hq.
  - exists q. split; [by left|reflexivity].
  - destruct Hin as [->|Hin]; [congruence|].
    destruct (IH Hin Hp) as (q' & Hq' & Hc).
    exists q'. split; [by right|exact Hc].
Qed.

Lemma classify_groups_silent groups t :
  Forall (group_silent t) groups -> classify_groups groups t = (None, 0).
Proof.
  induction 1 as [|[ty ps] groups Hg _ IH]; simpl; [reflexivity|].
  rewrite (classify_group_silent ty ps t Hg). exact IH.
Qed.

Lemma classify_groups_first before ty pre p post after t :
  Forall (group_silent t) before ->
  Forall (fun q => pattern_search q t = false) pre ->
  pattern_search p t = true ->
  classify_groups (before ++ (ty, pre ++ p :: post) :: after) t
  = (Some ty, rule_confidence p t).
Proof.
  induction 1 as [|[ty' ps'] before Hg _ IH]; intros Hpre Hp; simpl.
  - rewrite (classify_group_first ty pre p post t Hpre Hp). reflexivity.
  - rewrite (classify_group_silent ty' ps' t Hg). apply IH; assumption.
Qed.

(** C3. The rule classifier walks the groups in the order MEDICATION,
    DOSAGE, SYMPTOM, DISEASE, ANATOMY; the first pattern found in the
    candidate decides the type, with confidence 0.95 when that pattern matches
    the whole candidate and 0.85 otherwise; when no pattern is found the
    result is (None, 0.0). A candidate in which a MEDICATION pattern and a
    DISEASE pattern are both found is classified MEDICATION. The candidate is
    matched after [lower().strip()]; the patterns ignore case, so the outcome
    of every match is that on the stripped candidate itself. *)
Theorem rule_classifier_first_match :
  map fst compiled_patterns = [MEDICATION; DOSAGE; SYMPTOM; DISEASE; ANATOMY]
  /\ forall text : string,
       let t := Py.strip (Py.lower text) in
       (Forall (group_silent t) compiled_patterns ->
        classify text = (None, 0))
       /\ (forall before ty pre p post after,
             compiled_patterns = before ++ (ty, pre ++ p :: post) :: after ->
             Forall (group_silent t) before ->
             Forall (fun q => pattern_search q t = false) pre ->
             pattern_search p t = true ->
             classify text = (Some ty, rule_confidence p t))
       /\ (forall p q,
             In p medication_patterns -> pattern_search p t = true ->
             In q disease_patterns -> pattern_search q t = true ->
             exists p', In p' medication_patterns
                        /\ classify text = (Some MEDICATION, rule_confidence p' t))
       /\ (forall p,
             pattern_search p t = pattern_search p (Py.strip text)
             /\ pattern_fullmatch p t = pattern_fullmatch p (Py.strip text)).
Proof.
  split; [reflexivity|].
  intros text t. split; [|split; [|split]].
  - intros Hs. unfold classify. fold t. apply classify_groups_silent. exact Hs.
  - intros before ty pre p post after Heq Hb Hpre Hp.
    unfold classify. fold t. rewrite Heq.
    apply classify_groups_first; assumption.
  - intros p q Hp Hpt _ _.
    destruct (classify_group_found MEDICATION medication_patterns t p Hp Hpt)
      as (p' & Hin & Hc).
    exists p'. split; [exact Hin|].
    unfold classify. fold t.
    unfold compiled_patterns, _initialize_patterns.
    cbn [classify_groups]. rewrite Hc. reflexivity.
  - intros p. unfold t, pattern_search, pattern_fullmatch.
    rewrite strip_lower. split; [apply search_lower|apply fullmatch_lower].
Qed.

End RuleClassifier.

(** The example of the priority rule: "insulin" is a MEDICATION name and
    "diabetes" a DISEASE name. *)
Lemma rule_classifier_priority_example :
  fst (RuleBasedClassifier.classify "Insulin diabetes") = Some MEDICATION.
Proof.
  destruct rule_classifier_first_match as [_ H].
  destruct (H "Insulin diabetes") as (_ & _ & Hprio & _).
  destruct (Hprio (nth 1 RuleBasedClassifier.medication_patterns WordB)
                  (nth 1 RuleBasedClassifier.disease_patterns WordB))
    as (p' & _ & Hc).
  - right. left. reflexivity.
  - vm_compute. reflexivity.
  - right. left. reflexivity.
  - vm_compute. reflexivity.
  - rewrite Hc. reflexivity.
Defined.

(** ** The text normalizer *)

Lemma abbreviation_sub_length abbr full s :
  (String.length abbr <= String.length full)%nat ->
  (String.length s
   <= String.length (Re.sub true (abbr_pattern abbr) [PLit full] s))%nat.
Proof.
  intros Hlen. apply sub_length. intros prev l m Hm.
  assert (Hmax : max_len (abbr_pattern abbr)
                 = Some (0 + (String.length abbr + 0))%nat) by reflexivity.
  pose proof (run_max_len _ _ _ _ _ _ Hmax Hm) as Hb.
  unfold Re.expand. simpl. rewrite app_nil_r.
  fold (Py.chars full). rewrite length_chars. lia.
Qed.

Lemma expand_abbreviations_length abbrs :
  Forall (fun af => (String.length (fst af) <= String.length (snd af))%nat)
         abbrs ->
  forall s,
    (String.length s <= String.length (expand_abbreviations abbrs s))%nat.
Proof.
  induction 1 as [|[abbr full] abbrs Hlen _ IH]; intros s; simpl; [lia|].
  etransitivity; [|apply IH].
  apply abbreviation_sub_length. exact Hlen.
Qed.

Lemma abbreviations_expand :
  Forall (fun af => (String.length (fst af) <= String.length (snd af))%nat)
         abbreviations.
Proof. repeat constructor; simpl; lia. Qed.

Lemma split_number_unit_length s :
  (String.length s
   <= String.length
        (Re.sub false (Seq (Group 1 (Plus CDigit)) (Group 2 (Plus CAlpha)))
                [PRef 1; PLit " "; PRef 2] s))%nat.
Proof.
  apply sub_length. intros prev l m Hm.
  apply run_seq in Hm as (m1 & m2 & H1 & H2 & ->).
  apply run_group in H1 as (a & Ha & ->).
  apply run_group in H2 as (b & Hb & ->).
  rewrite (run_no_group false (Plus CDigit) eq_refl _ _ _ Ha).
  rewrite (run_no_group false (Plus CAlpha) eq_refl _ _ _ Hb).
  unfold Re.expand, Re.group_text. simpl.
  rewrite app_nil_r, !length_app. simpl. lia.
Qed.

(** Without two whitespace characters in a row the whitespace collapse
    replaces single characters by single spaces. *)
Lemma collapse_from_length l :
  no_adjacent_space l = true ->
  forall prev,
    length (Re.sub_from false (Plus CSpace) [PLit " "] prev l 0) = length l.
Proof.
  induction l as [|a l IH]; intros Hn prev; [reflexivity|].
  assert (Hl : no_adjacent_space l = true).
  { simpl in Hn. destruct l as [|b l']; [reflexivity|].
    apply andb_true_iff in Hn as [_ Hn]. exact Hn. }
  cbn [Re.sub_from].
  unfold Re.match_at, Plus. cbn [Re.run Re.cset_match].
  destruct (Py.is_space a) eqn:Ea.
  - assert (Hstar : Re.star_run false CSpace l = [([], l)]).
    { destruct l as [|b l']; [reflexivity|].
      simpl in Hn. rewrite Ea in Hn. simpl in Hn.
      apply andb_true_iff in Hn as [Hb _]. apply negb_true_iff in Hb.
      simpl. rewrite Hb. reflexivity. }
    cbn [flat_map m_rest m_text m_caps]. rewrite Hstar. simpl. f_equal.
    apply IH. exact Hl.
  - simpl. f_equal. apply IH. exact Hl.
Qed.

Lemma collapse_whitespace_length text :
  no_adjacent_space (Py.chars text) = true ->
  String.length (collapse_whitespace text) = String.length text.
Proof.
  intros Hn. unfold collapse_whitespace, Re.sub.
  rewrite length_str, collapse_from_length by exact Hn.
  apply length_chars.
Qed.

(** Only the whitespace collapse can shorten the text: the two later steps
    never do. *)
Lemma preprocess_text_length_collapsed text :
  (String.length (collapse_whitespace text)
   <= String.length (_preprocess_text text))%nat.
Proof.
  unfold _preprocess_text. fold (collapse_whitespace text).
  etransitivity; [apply split_number_unit_length|].
  apply expand_abbreviations_length. exact abbreviations_expand.
Qed.

(** C8, as the code has it. The normalizer collapses every run of
    whitespace to one space, so its output can be shorter than its input.
    For an input without two whitespace characters in a row the output is at
    least as long as the input. *)
Theorem preprocess_text_length :
  forall text : string,
    no_adjacent_space (Py.chars text) = true ->
    (String.length text <= String.length (_preprocess_text text))%nat.
Proof.
  intros text Hn.
  rewrite <- (collapse_whitespace_length text Hn).
  apply preprocess_text_length_collapsed.
Qed.

Lemma preprocess_text_length_witness :
  no_adjacent_space (Py.chars "pt c/o 101F fever") = true
  /\ _preprocess_text "pt c/o 101F fever" = "patient complains of 101 F fever"
  /\ (String.length "pt c/o 101F fever"
      <= String.length (_preprocess_text "pt c/o 101F fever"))%nat.
Proof.
  split; [reflexivity|]. split; [vm_compute; reflexivity|].
  apply (preprocess_text_length "pt c/o 101F fever"). reflexivity.
Defined.

(** C8, as the specification states it, fails: two spaces in a row become
    one. *)
Lemma preprocess_text_shortens :
  _preprocess_text "mild  fever" = "mild fever"
  /\ ~ (String.length "mild  fever"
        <= String.length (_preprocess_text "mild  fever"))%nat.
Proof.
  split; [vm_compute; reflexivity|].
  vm_compute. lia.
Qed.

(** ** Spans *)

Section Spans.
Context (P : Z -> Z -> Prop).

Lemma classify_entities_spans cfg cands :
  Forall (fun c => P (c_start c) (c_end c)) cands ->
  forall w w' es,
    _classify_entities cfg cands w = (inr es, w') ->
    Forall (fun e => P (start_pos e) (end_pos e)) es.
Proof.
  induction 1 as [|cand rest Hc _ IH]; intros w w' es H.
  - injection H as <- <-. constructor.
  - simpl in H. unfold mbind, M_bind, bind in H.
    destruct (classify_candidate cfg cand w) as [[ex|oe] w1] eqn:Hcand;
      [discriminate|].
    fold (@bind (list MedicalEntity) (list MedicalEntity)) in H.
    destruct (_classify_entities cfg rest w1) as [[ex|es'] w2] eqn:Hr;
      [discriminate|].
    unfold mret, M_ret, ret in H. injection H as <- <-.
    specialize (IH _ _ _ Hr).
    destruct oe as [e|]; [|exact IH].
    constructor; [|exact IH].
    apply classify_candidate_span in Hcand as (_ & Hs & He).
    rewrite Hs, He. exact Hc.
Qed.

Lemma postprocess_loop_same_core original n :
  forall i (es : list MedicalEntity),
    Forall2 same_core es (postprocess_loop n i es original).
Proof.
  induction n as [|n IH]; intros i es; simpl;
    [apply Forall2_same_core_refl|].
  destruct (es !! i) as [e|] eqn:Hi; [|apply Forall2_same_core_refl].
  eapply Forall2_same_core_trans; [|apply IH].
  eapply Forall2_same_core_insert; [exact Hi|apply postprocess_entity_core].
Qed.

Lemma same_core_spans (es es' : list MedicalEntity) :
  Forall2 same_core es es' ->
  Forall (fun e => P (start_pos e) (end_pos e)) es ->
  Forall (fun e => P (start_pos e) (end_pos e)) es'.
Proof.
  induction 1 as [|a b es es' (_ & _ & Hs & He & _) _ IH]; intros H;
    [constructor|].
  inversion H as [|? ? Ha Hes]; subst.
  constructor; [rewrite <- Hs, <- He; exact Ha|apply IH; exact Hes].
Qed.

Lemma filter_by_confidence_spans cfg (es : list MedicalEntity) :
  Forall (fun e => P (start_pos e) (end_pos e)) es ->
  Forall (fun e => P (start_pos e) (end_pos e)) (_filter_by_confidence cfg es).
Proof.
  induction 1 as [|e es He _ IH]; simpl; [constructor|].
  destruct (Qle_bool _ _); [constructor; assumption|].
  destruct (Qle_bool _ _); [constructor; assumption|assumption].
Qed.

Lemma unique_candidates_Forall (Q : Candidate -> Prop) cands :
  Forall Q cands -> forall seen, Forall Q (unique_candidates seen cands).
Proof.
  induction 1 as [|c cands Hc _ IH]; intros seen; simpl; [constructor|].
  destruct (bool_decide _); [apply IH|constructor; [exact Hc|apply IH]].
Qed.

End Spans.

Lemma regex_candidates_range text :
  Forall (fun c => span_in text (c_start c) (c_end c)) (regex_candidates text).
Proof.
  apply List.Forall_forall. intros c Hin. unfold regex_candidates in Hin.
  apply in_flat_map in Hin as (pb & _ & Hin).
  apply in_map_iff in Hin as (f & <- & Hf). simpl.
  eapply finditer_range. exact Hf.
Qed.

(** What the code does guarantee: the spans of the entities index the
    normalized text, provided the tagger reports spans of the text it is
    given. *)
Lemma extract_entities_spans_normalized p text w es w' :
  tagger_in_range p ->
  extract_entities p text w = (inr es, w') ->
  Forall (fun e => span_in (_preprocess_text text) (start_pos e) (end_pos e))
         es.
Proof.
  intros Htag. unfold extract_entities, mbind, M_bind, bind.
  destruct (_classify_entities _ _ w) as [[ex|classified] w1] eqn:Hc;
    [discriminate|].
  unfold mret, M_ret, ret. intros [= <- _].
  apply filter_by_confidence_spans.
  eapply same_core_spans; [apply postprocess_loop_same_core|].
  eapply classify_entities_spans; [|exact Hc].
  unfold _extract_entity_candidates. apply unique_candidates_Forall.
  apply Forall_app. split; [|apply regex_candidates_range].
  unfold tagger_in_range in Htag.
  destruct (ner_pipeline p) as [tagger|]; [|constructor].
  destruct (tagger (_preprocess_text text)) as [ex|ents] eqn:Ht; [constructor|].
  eapply Htag. exact Ht.
Qed.

(** C7 at a concrete input. "pt" is expanded to "patient" before the
    candidates are searched, so "fever" is reported at [12, 17) although the
    input has 12 characters: the offsets index the normalized text. *)
Theorem extract_entities_span_outside_text :
  exists (e : MedicalEntity) (w' : World),
    extract_entities regex_pipeline "pt has fever" quiet_world = (inr [e], w')
    /\ _preprocess_text "pt has fever" = "patient has fever"
    /\ text e = "fever" /\ start_pos e = 12%Z /\ end_pos e = 17%Z
    /\ Py.len "pt has fever" = 12%Z
    /\ ~ (end_pos e <= Py.len "pt has fever")%Z.
Proof.
  eexists. eexists.
  split; [vm_compute; reflexivity|].
  split; [vm_compute; reflexivity|].
  repeat split. vm_compute. intros H. apply H. reflexivity.
Qed.

(** ** Grouping dosages with medications *)

(** One step of the grouping loop on a DOSAGE entity takes exactly one of
    two branches: it writes the text into the record of the linked
    medication, which must already be in [medications_with_dosage], or it
    appends the entity to the flat bucket. *)
Lemma group_entity_dosage g d :
  type d = DOSAGE ->
  (exists lm rec,
     metadata_get "linked_medication" d = Some lm /\ Py.truthy lm = true
     /\ odict_get lm (medications_with_dosage g) = Some rec
     /\ dosages (group_entity g d) = dosages g
     /\ medications_with_dosage (group_entity g d)
        = odict_set lm (set_dosage (text d) rec) (medications_with_dosage g))
  \/ ((metadata_get "linked_medication" d = None
       \/ exists lm, metadata_get "linked_medication" d = Some lm
                     /\ (Py.truthy lm = false
                         \/ odict_get lm (medications_with_dosage g) = None))
      /\ dosages (group_entity g d) = dosages g ++ [to_dict d]
      /\ medications_with_dosage (group_entity g d)
         = medications_with_dosage g).
Proof.
  intros Hty. unfold group_entity. rewrite Hty.
  destruct (metadata_get "linked_medication" d) as [lm|] eqn:Hl.
  - destruct (Py.truthy lm) eqn:Ht.
    + destruct (odict_get lm (medications_with_dosage g)) as [rec|] eqn:Hg.
      * left. exists lm, rec. simpl. auto.
      * right. simpl. split; [right; exists lm; auto|auto].
    + right. simpl. split; [right; exists lm; auto|auto].
  - right. simpl. auto.
Qed.

(** C10 at a concrete input. In "metformin 500mg" the dosage "500 mg" is
    linked to "metformin" and both survive the gate, but the dosage candidate
    precedes the medication candidate, so the grouping loop finds no record
    to write to: the dosage stays in the flat bucket and the record of
    "metformin" has no dosage. *)
Theorem process_document_dosage_before_medication :
  exists (out : Output) (w' : World) (d : EntityDict),
    process_document regex_pipeline "metformin 500mg" quiet_world
    = (inr out, w')
    /\ dosages (entities out) = [d]
    /\ d_text d = "500 mg"
    /\ (d_metadata d ≫= fun m => m !! "linked_medication") = Some "metformin"
    /\ (d_metadata d ≫= fun m => m !! "review_status") = Some "auto_accepted"
    /\ map (fun m => (med_name m, med_dosage m)) (medications out)
       = [("metformin 500 mg", None); ("metformin", None)].
Proof.
  eexists. eexists. eexists.
  split; [vm_compute; reflexivity|].
  split; [reflexivity|].
  repeat split; vm_compute; reflexivity.
Qed.

(** ** The knowledge-base client *)

Section Keeps.
Import UMLSClient.
Context (R : World -> World -> Prop).
Hypothesis R_refl : forall w, R w w.
Hypothesis R_trans : forall a b c, R a b -> R b c -> R a c.

Lemma keeps_ret {A} (a : A) : keeps R (ret a).
Proof. intros w. apply R_refl. Qed.

Lemma keeps_raise {A} (e : exn) : keeps R (@raise A e).
Proof. intros w. apply R_refl. Qed.

Lemma keeps_get {A} (f : World -> A) : keeps R (get f).
Proof. intros w. apply R_refl. Qed.

Lemma keeps_modify (f : World -> World) :
  (forall w, R w (f w)) -> keeps R (modify f).
Proof. intros H w. apply H. Qed.

Lemma keeps_bind {A B} (m : M A) (k : A -> M B) :
  keeps R m -> (forall a, keeps R (k a)) -> keeps R (bind m k).
Proof.
  intros Hm Hk w. unfold bind. specialize (Hm w).
  destruct (m w) as [[e|a] w']; simpl in *; [exact Hm|].
  eapply R_trans; [exact Hm|apply Hk].
Qed.

Lemma keeps_try {A} (m : M A) (h : exn -> M A) :
  keeps R m -> (forall e, keeps R (h e)) -> keeps R (try_except m h).
Proof.
  intros Hm Hh w. unfold try_except. specialize (Hm w).
  destruct (m w) as [[e|a] w']; simpl in *; [|exact Hm].
  eapply R_trans; [exact Hm|apply Hh].
Qed.

Lemma keeps_http rq :
  (forall rs rqs w, R w (set_replies rs rqs w)) -> keeps R (http rq).
Proof.
  intros H w. unfold http.
  destruct (replies w) as [|[e|resp] rs]; simpl; apply H.
Qed.

End Keeps.

Lemma net_frame_refl w : net_frame w w.
Proof. repeat split. Qed.

Lemma net_frame_trans a b c : net_frame a b -> net_frame b c -> net_frame a c.
Proof.
  unfold net_frame. intros (?&?&?&?&?) (?&?&?&?&?). repeat split; congruence.
Qed.

(** One step of a proof that a computation keeps [net_frame]. *)
Ltac frame_step :=
  lazymatch goal with
  | |- keeps _ (ret _) => apply keeps_ret; exact net_frame_refl
  | |- keeps _ (raise _) => apply keeps_raise; exact net_frame_refl
  | |- keeps _ (get _) => apply keeps_get; exact net_frame_refl
  | |- keeps _ (UMLSClient.http _) => apply keeps_http; intros; repeat split
  | |- keeps _ (modify _) => apply keeps_modify; intros; repeat split
  | |- keeps _ (bind _ _) =>
      apply (keeps_bind net_frame net_frame_trans); [|intros ?]
  | |- keeps _ (try_except _ _) =>
      apply (keeps_try net_frame net_frame_trans); [|intros ?]
  | |- keeps _ (if ?b then _ else _) => destruct b
  | |- keeps _ (match ?x with _ => _ end) => destruct x
  end.

Lemma get_tgt_url_frame : keeps net_frame UMLSClient._get_tgt_url.
Proof.
  unfold UMLSClient._get_tgt_url, mbind, M_bind, mret, M_ret.
  repeat frame_step.
Qed.

Lemma get_fresh_service_ticket_frame :
  keeps net_frame UMLSClient._get_fresh_service_ticket.
Proof.
  unfold UMLSClient._get_fresh_service_ticket, mbind, M_bind, mret, M_ret.
  apply (keeps_bind net_frame net_frame_trans); [apply get_tgt_url_frame|].
  intros ?. repeat frame_step.
Qed.

Lemma json_results_frame b : keeps net_frame (UMLSClient.json_results b).
Proof. unfold UMLSClient.json_results. repeat frame_step. Qed.

Lemma search_umls_concept_frame term :
  keeps net_frame (UMLSClient._search_umls_concept term).
Proof.
  unfold UMLSClient._search_umls_concept, mbind, M_bind, mret, M_ret.
  apply (keeps_bind net_frame net_frame_trans);
    [apply get_fresh_service_ticket_frame|].
  intros ?.
  repeat first [ apply json_results_frame
               | apply get_fresh_service_ticket_frame
               | frame_step ].
Qed.

Lemma get_concept_details_frame cui :
  keeps net_frame (UMLSClient._get_concept_details cui).
Proof.
  unfold UMLSClient._get_concept_details, UMLSClient.json_concept,
    mbind, M_bind, mret, M_ret.
  apply (keeps_bind net_frame net_frame_trans);
    [apply get_fresh_service_ticket_frame|].
  intros ?. repeat frame_step.
Qed.

Section Lookup.
Import UMLSClient.

(** Reading the cache changes nothing and never fails. *)
Lemma get_cached_result_eq term w :
  _get_cached_result term w
  = (inr (if use_cache w
          then match cache w !! cache_key term with
               | Some row => if row_live (clock w) row
                             then Some (row_result row) else None
               | None => None
               end
          else None), w).
Proof.
  unfold _get_cached_result, mbind, M_bind, bind, get, ret.
  destruct (use_cache w); simpl; [|reflexivity].
  destruct (cache w !! cache_key term) as [row|]; [|reflexivity].
  destruct (row_live (clock w) row); reflexivity.
Qed.

Lemma cache_result_eq term r w :
  _cache_result term r w
  = (inr tt,
     if use_cache w
     then set_cache (<[cache_key term := result_row r (clock w)]> (cache w)) w
     else w).
Proof.
  unfold _cache_result, mbind, M_bind, bind, get, ret, modify.
  destruct (use_cache w); reflexivity.
Qed.

(** A remote lookup that returns has written what it returns. *)
Lemma lookup_remote_stores term w r w1 :
  lookup_remote term w = (inr r, w1) ->
  exists w', net_frame w w'
    /\ w1 = (if use_cache w'
             then set_cache (<[cache_key term := result_row r (clock w')]>
                               (cache w')) w'
             else w').
Proof.
  unfold lookup_remote, mbind, M_bind, bind. intros H.
  pose proof (search_umls_concept_frame term w) as Hs.
  destruct (_search_umls_concept term w) as [[e|rs] wa]; [discriminate|].
  simpl in Hs.
  destruct rs as [|best rest].
  - rewrite cache_result_eq in H. unfold ret in H. injection H as <- <-.
    exists wa. split; [exact Hs|reflexivity].
  - pose proof (get_concept_details_frame (field_get (ui best) "") wa) as Hc.
    destruct (_get_concept_details (field_get (ui best) "") wa)
      as [[e|cd] wb]; [discriminate|].
    simpl in Hc.
    destruct (_map_semantic_type_to_entity _) as [ety bc].
    destruct (field_get (name best) "") as [nm|]; simpl in H; [|discriminate].
    unfold ret in H. rewrite cache_result_eq in H. injection H as <- <-.
    exists wb. split; [eapply net_frame_trans; eassumption|reflexivity].
Qed.

Lemma lookup_term_total term : total (lookup_term term).
Proof.
  intros w. unfold lookup_term, mbind, M_bind, bind.
  rewrite get_cached_result_eq.
  destruct (if use_cache w then _ else _) as [r|]; [eexists _, _; reflexivity|].
  unfold get. destruct (negb _); [eexists _, _; reflexivity|].
  unfold try_except. destruct (lookup_remote term w) as [[e|r] w'];
    eexists _, _; reflexivity.
Qed.

(** A live entry answers the call: nothing else is read or written. *)
Lemma lookup_term_hit term w row t :
  use_cache w = true ->
  cache w !! cache_key term = Some row ->
  row_live t row = true ->
  lookup_term term (set_clock t w) = (inr (row_result row), set_clock t w).
Proof.
  intros Huc Hrow Hlive.
  unfold lookup_term, mbind, M_bind, bind.
  rewrite get_cached_result_eq. simpl.
  rewrite Huc, Hrow, Hlive. reflexivity.
Qed.

Lemma result_row_result r now : row_result (result_row r now) = r.
Proof. destruct r. reflexivity. Qed.

(** C4, as the code has it. With the cache switched on, a call that does
    not end in an error result (no API key, or an exception during the
    lookup) leaves the result in the cache under the lower-cased, stripped
    term; until that entry is 30 days old every call for a term with the
    same key returns the same result and leaves the client, the cache and
    the log of network requests as they were. *)
Theorem lookup_term_idempotent :
  forall (term : string) (w w1 : World) (r1 : Result),
    use_cache w = true ->
    lookup_term term w = (inr r1, w1) ->
    (forall msg, res_metadata r1 <> Some (MetaError msg)) ->
    exists row,
      cache w1 !! cache_key term = Some row
      /\ row_result row = r1
      /\ forall (term2 : string) (t2 : Q),
           cache_key term2 = cache_key term ->
           row_live t2 row = true ->
           lookup_term term2 (set_clock t2 w1) = (inr r1, set_clock t2 w1).
Proof.
  intros term w w1 r1 Huc H Hne.
  assert (Hremote : lookup_remote term w = (inr r1, w1) ->
    exists row,
      cache w1 !! cache_key term = Some row
      /\ row_result row = r1
      /\ forall (term2 : string) (t2 : Q),
           cache_key term2 = cache_key term ->
           row_live t2 row = true ->
           lookup_term term2 (set_clock t2 w1) = (inr r1, set_clock t2 w1)).
  { intros Hr.
    apply lookup_remote_stores in Hr as (w' & (Hck & _ & _ & Hu & _) & ->).
    rewrite Hu, Huc. exists (result_row r1 (clock w')).
    split; [simpl; apply lookup_insert_eq|].
    split; [apply result_row_result|].
    intros term2 t2 Hkey Hlive.
    rewrite <- (result_row_result r1 (clock w')) at 2.
    apply lookup_term_hit; [simpl; congruence| |exact Hlive].
    simpl. rewrite Hkey. apply lookup_insert_eq. }
  unfold lookup_term, mbind, M_bind, bind in H.
  rewrite get_cached_result_eq in H. rewrite Huc in H.
  assert (Hmiss :
    (let (y, w') := get env_api_key w in
     match y with
     | inl e => (inl e, w')
     | inr a =>
         (if negb (opt_truthy a) then ret no_key_result
          else try_except (lookup_remote term)
                          (fun e => ret (error_result e))) w'
     end) = (inr r1, w1) ->
    lookup_remote term w = (inr r1, w1)).
  { unfold get. destruct (negb _).
    - intros [= <- _]. exfalso. eapply Hne. reflexivity.
    - unfold try_except.
      destruct (lookup_remote term w) as [[e|r] w'] eqn:Hr.
      + intros [= <- _]. exfalso. eapply Hne. reflexivity.
      + intros [= -> ->]. reflexivity. }
  destruct (cache w !! cache_key term) as [row|] eqn:Hrow.
  - destruct (row_live (clock w) row) eqn:Hlive.
    + injection H as <- <-. exists row.
      split; [exact Hrow|]. split; [reflexivity|].
      intros term2 t2 Hkey Hl2.
      apply lookup_term_hit; [exact Huc| |exact Hl2].
      rewrite Hkey. exact Hrow.
    + apply Hremote, Hmiss, H.
  - apply Hremote, Hmiss, H.
Qed.

End Lookup.

Lemma lookup_term_idempotent_witness :
  UMLSClient.lookup_term "Fever" (kb_world true (one_lookup ++ next_lookup))
  = (inr fever_result, after_fever true)
  /\ UMLSClient.lookup_term " fever" (next_hour (after_fever true))
     = (inr fever_result, next_hour (after_fever true))
  /\ length (requests (after_fever true)) = 5%nat.
Proof.
  assert (H : UMLSClient.lookup_term "Fever"
                (kb_world true (one_lookup ++ next_lookup))
              = (inr fever_result, after_fever true))
    by (vm_compute; reflexivity).
  split; [exact H|]. split; [|vm_compute; reflexivity].
  destruct (lookup_term_idempotent "Fever"
              (kb_world true (one_lookup ++ next_lookup)) (after_fever true)
              fever_result eq_refl H)
    as (row & Hrow & _ & Hsecond).
  - intros msg Hm. discriminate Hm.
  - apply Hsecond; [vm_compute; reflexivity|].
    vm_compute in Hrow. injection Hrow as <-. vm_compute. reflexivity.
Defined.

(** C4, as the specification states it, fails in two ways. With the cache
    switched off (as the front end does) the second call goes through the
    whole exchange again: four more requests. With the cache on, a lookup
    that ends in the exception handler (here the top hit has no name) stores
    nothing, and the second call goes to the network again and returns
    another result. *)
Lemma lookup_term_repeats_network :
  (UMLSClient.lookup_term "Fever" (kb_world false (one_lookup ++ next_lookup))
   = (inr fever_result, after_fever false)
   /\ length (requests (after_fever false)) = 5%nat
   /\ fst (UMLSClient.lookup_term "Fever" (next_hour (after_fever false)))
      = inr fever_result
   /\ length (requests (snd (UMLSClient.lookup_term "Fever"
                               (next_hour (after_fever false))))) = 9%nat)
  /\ (fst (UMLSClient.lookup_term "Fever"
             (kb_world true (nameless_lookup ++ next_lookup)))
      = inr (UMLSClient.error_result
               (Exn "'NoneType' object has no attribute 'lower'"))
      /\ cache after_nameless = ∅
      /\ length (requests after_nameless) = 5%nat
      /\ fst (UMLSClient.lookup_term "Fever" (next_hour after_nameless))
         = inr fever_result
      /\ length (requests (snd (UMLSClient.lookup_term "Fever"
                                  (next_hour after_nameless)))) = 9%nat).
Proof.
  repeat split; vm_compute; reflexivity.
Qed.

(** *** Failures degrade to a result *)

Section Total.
Import UMLSClient.

Lemma total_ret {A} (a : A) : total (ret a).
Proof. intros w. eexists _, _. reflexivity. Qed.

Lemma total_get {A} (f : World -> A) : total (get f).
Proof. intros w. eexists _, _. reflexivity. Qed.

Lemma total_modify (f : World -> World) : total (modify f).
Proof. intros w. eexists _, _. reflexivity. Qed.

Lemma total_bind {A B} (m : M A) (k : A -> M B) :
  total m -> (forall a, total (k a)) -> total (bind m k).
Proof.
  intros Hm Hk w. unfold bind. destruct (Hm w) as (a & w' & ->). apply Hk.
Qed.

(** A handler that returns makes the whole [try] return, whatever the body
    does. *)
Lemma total_try {A} (m : M A) (h : exn -> M A) :
  (forall e, total (h e)) -> total (try_except m h).
Proof.
  intros Hh w. unfold try_except.
  destruct (m w) as [[e|a] w']; [apply Hh|eexists _, _; reflexivity].
Qed.

End Total.

Ltac total_step :=
  lazymatch goal with
  | |- total (ret _) => apply total_ret
  | |- total (get _) => apply total_get
  | |- total (modify _) => apply total_modify
  | |- total (bind _ _) => apply total_bind; [|intros ?]
  | |- total (try_except _ _) => apply total_try; intros ?
  | |- total (if ?b then _ else _) => destruct b
  | |- total (match ?x with _ => _ end) => destruct x
  end.

Section Degrade.
Import UMLSClient.

Lemma get_tgt_url_total : total _get_tgt_url.
Proof.
  unfold _get_tgt_url, mbind, M_bind, mret, M_ret. repeat total_step.
Qed.

Lemma get_fresh_service_ticket_total : total _get_fresh_service_ticket.
Proof.
  unfold _get_fresh_service_ticket, mbind, M_bind, mret, M_ret.
  apply total_bind; [apply get_tgt_url_total|]. intros ?. repeat total_step.
Qed.

Lemma search_umls_concept_total term : total (_search_umls_concept term).
Proof.
  unfold _search_umls_concept, mbind, M_bind, mret, M_ret.
  apply total_bind; [apply get_fresh_service_ticket_total|].
  intros ?. repeat total_step.
Qed.

Lemma get_concept_details_total cui : total (_get_concept_details cui).
Proof.
  unfold _get_concept_details, mbind, M_bind, mret, M_ret.
  apply total_bind; [apply get_fresh_service_ticket_total|].
  intros ?. repeat total_step.
Qed.

(** No granting credential, no service ticket. *)
Lemma ticket_needs_credential w :
  fst (_get_tgt_url w) = inr None ->
  fst (_get_fresh_service_ticket w) = inr None.
Proof.
  unfold _get_fresh_service_ticket, mbind, M_bind, bind.
  destruct (_get_tgt_url w) as [[e|t] w']; simpl; intros H; [discriminate|].
  injection H as ->. reflexivity.
Qed.

(** No service ticket, no search. *)
Lemma search_needs_ticket term w t :
  fst (_get_fresh_service_ticket w) = inr t -> opt_truthy t = false ->
  fst (_search_umls_concept term w) = inr [].
Proof.
  unfold _search_umls_concept, mbind, M_bind, bind.
  destruct (_get_fresh_service_ticket w) as [[e|t'] w']; simpl;
    intros H Ht; [discriminate|].
  injection H as ->. rewrite Ht. reflexivity.
Qed.

(** An empty search ends the lookup with the no-result marker. *)
Lemma lookup_remote_no_results term w :
  fst (_search_umls_concept term w) = inr [] ->
  fst (lookup_remote term w) = inr no_results_result.
Proof.
  unfold lookup_remote, mbind, M_bind, bind.
  destruct (_search_umls_concept term w) as [[e|rs] w']; simpl;
    intros H; [discriminate|].
  injection H as ->. rewrite cache_result_eq. reflexivity.
Qed.

Lemma lookup_remote_no_details term w best rest w1 :
  _search_umls_concept term w = (inr (best :: rest), w1) ->
  fst (_get_concept_details (field_get (ui best) "") w1) = inr None ->
  match fst (lookup_remote term w) with
  | inr r => r = unresolved_result term best
  | inl e => error_result e = unresolved_result term best
  end.
Proof.
  intros Hs Hc. unfold lookup_remote, mbind, M_bind, bind. rewrite Hs.
  destruct (_get_concept_details _ w1) as [[e|cd] w2]; simpl in Hc;
    [discriminate|].
  injection Hc as ->. unfold unresolved_result.
  change (_map_semantic_type_to_entity []) with ("UNKNOWN", 5 # 10).
  cbv iota beta.
  destruct (field_get (name best) "") as [nm|]; simpl; [|reflexivity].
  rewrite cache_result_eq. reflexivity.
Qed.

End Degrade.

Section Valid.
Import UMLSClient.

Lemma add_score_keys ty scores :
  map fst (add_score ty scores) = map fst scores.
Proof.
  induction scores as [|[k v] scores IH]; simpl; [reflexivity|].
  destruct (String.eqb k ty); simpl; f_equal; exact IH.
Qed.

Lemma accumulate_keys sts :
  forall scores, map fst (accumulate sts scores) = map fst scores.
Proof.
  induction sts as [|st sts IH]; intros scores; simpl; [reflexivity|].
  destruct (mapping_get st); [|apply IH].
  rewrite IH. apply add_score_keys.
Qed.

Lemma map_semantic_type_valid sts :
  valid_type (fst (_map_semantic_type_to_entity sts)).
Proof.
  unfold _map_semantic_type_to_entity.
  pose proof (accumulate_keys sts
    [("DISEASE", 0); ("SYMPTOM", 0); ("MEDICATION", 0); ("ANATOMY", 0)]) as Hk.
  destruct (accumulate sts _) as [|[k1 v1] [|[k2 v2] [|[k3 v3] [|[k4 v4] [|]]]]];
    try discriminate Hk.
  simpl in Hk. injection Hk as -> -> -> ->. simpl.
  repeat (destruct (Qltb _ _); simpl); eexists; reflexivity.
Qed.

(** A remote lookup that returns gives a name of [EntityType]; one that
    raises has written nothing to the cache. *)
Lemma lookup_remote_valid term w :
  match lookup_remote term w with
  | (inr r, w1) => valid_type (res_entity_type r)
  | (inl e, w1) => net_frame w w1
  end.
Proof.
  unfold lookup_remote, mbind, M_bind, bind.
  pose proof (search_umls_concept_frame term w) as Hs.
  destruct (_search_umls_concept term w) as [[e|rs] wa]; [exact Hs|].
  simpl in Hs. destruct rs as [|best rest].
  - rewrite cache_result_eq. eexists; reflexivity.
  - pose proof (get_concept_details_frame (field_get (ui best) "") wa) as Hc.
    destruct (_get_concept_details (field_get (ui best) "") wa)
      as [[e|cd] wb]; simpl in Hc; [eapply net_frame_trans; eassumption|].
    pose proof (map_semantic_type_valid
                  match cd with
                  | Some sem_types => extract_tcodes sem_types
                  | None => []
                  end) as Hv.
    destruct (_map_semantic_type_to_entity _) as [ety bc].
    destruct (field_get (name best) "") as [nm|]; simpl.
    + rewrite cache_result_eq. exact Hv.
    + eapply net_frame_trans; eassumption.
Qed.

Lemma cache_valid_frame w w' : net_frame w w' -> cache_valid w -> cache_valid w'.
Proof. intros (_&_&_&_&Hc) Hv. unfold cache_valid. rewrite Hc. exact Hv. Qed.

Lemma lookup_term_valid term w :
  cache_valid w ->
  exists r w', lookup_term term w = (inr r, w')
               /\ valid_type (res_entity_type r) /\ cache_valid w'.
Proof.
  intros Hv. unfold lookup_term, mbind, M_bind, bind.
  rewrite get_cached_result_eq.
  assert (Hmiss : exists r w',
    (let (y, w') := get env_api_key w in
     match y with
     | inl e => (inl e, w')
     | inr a =>
         (if negb (opt_truthy a) then ret no_key_result
          else try_except (lookup_remote term)
                          (fun e => ret (error_result e))) w'
     end) = (inr r, w')
    /\ valid_type (res_entity_type r) /\ cache_valid w').
  { unfold get. destruct (negb _).
    - eexists _, _. split; [reflexivity|]. split; [eexists; reflexivity|exact Hv].
    - unfold try_except.
      pose proof (lookup_remote_valid term w) as Hr.
      pose proof (lookup_remote_stores term w) as Hst.
      destruct (lookup_remote term w) as [[e|r] w1].
      + eexists _, _. split; [reflexivity|].
        split; [eexists; reflexivity|eapply cache_valid_frame; eassumption].
      + eexists _, _. split; [reflexivity|]. split; [exact Hr|].
        destruct (Hst r w1 eq_refl) as (w' & Hf & ->).
        pose proof (cache_valid_frame _ _ Hf Hv) as Hv'.
        destruct (use_cache w'); [|exact Hv'].
        unfold cache_valid. simpl. apply map_Forall_insert_2; [exact Hr|exact Hv']. }
  destruct (use_cache w); [|exact Hmiss].
  destruct (cache w !! cache_key term) as [row|] eqn:Hrow; [|exact Hmiss].
  destruct (row_live (clock w) row); [|exact Hmiss].
  eexists _, _. split; [reflexivity|]. split; [|exact Hv].
  exact (Hv _ _ Hrow).
Qed.

Lemma fuse_returns cfg text w :
  cache_valid w ->
  exists x w', fuse cfg text w = (inr x, w') /\ cache_valid w'.
Proof.
  intros Hv. unfold fuse.
  destruct (RuleBasedClassifier.classify text) as [ot c].
  destruct (bool_decide (ot = None) || Qltb c (8 # 10));
    [|eexists _, _; split; [reflexivity|exact Hv]].
  destruct (ENABLE_UMLS cfg); [|eexists _, _; split; [reflexivity|exact Hv]].
  unfold mbind, M_bind, bind.
  destruct (lookup_term_valid text w Hv) as (r & w' & -> & [t Ht] & Hv').
  destruct (Qltb c (res_confidence r));
    [|eexists _, _; split; [reflexivity|exact Hv']].
  rewrite Ht. eexists _, _; split; [reflexivity|exact Hv'].
Qed.

Lemma classify_candidate_returns cfg cand w :
  cache_valid w ->
  exists oe w', classify_candidate cfg cand w = (inr oe, w') /\ cache_valid w'.
Proof.
  intros Hv. unfold classify_candidate, mbind, M_bind, bind.
  destruct (fuse_returns cfg (c_text cand) w Hv) as ([[ot c] code] & w' & -> & Hv').
  destruct ot; eexists _, _; split; try reflexivity; exact Hv'.
Qed.

Lemma classify_entities_returns cfg cands :
  forall w, cache_valid w ->
    exists es w', _classify_entities cfg cands w = (inr es, w')
                  /\ cache_valid w'.
Proof.
  induction cands as [|cand rest IH]; intros w Hv; simpl.
  - eexists _, _. split; [reflexivity|exact Hv].
  - unfold mbind, M_bind, bind.
    destruct (classify_candidate_returns cfg cand w Hv) as (oe & w1 & -> & Hv1).
    fold (@bind (list MedicalEntity) (list MedicalEntity)).
    destruct (IH w1 Hv1) as (es & w2 & Hes & Hv2).
    unfold bind. rewrite Hes.
    eexists _, _. split; [reflexivity|exact Hv2].
Qed.

Lemma process_document_returns p text w :
  cache_valid w ->
  exists out w', process_document p text w = (inr out, w').
Proof.
  intros Hv. unfold process_document, extract_entities, mbind, M_bind, bind.
  destruct (classify_entities_returns (config p)
              (_extract_entity_candidates p (_preprocess_text text)) w Hv)
    as (es & w' & -> & _).
  eexists _, _. reflexivity.
Qed.

End Valid.

Section DegradeTheorem.
Import UMLSClient.

(** C5, as the code has it. [lookup_term] always returns a result and never
    raises. On a cache miss: without an API key the result is UNKNOWN with
    confidence 0.0; when the granting credential, a service ticket or the
    search fails the result is the no-result marker (UNKNOWN, no code,
    confidence 0.3); when the concept details cannot be fetched the result
    is UNKNOWN with the code of the top hit and confidence
    round(0.5 * name similarity, 3), or the error result when the hit has no
    name. Processing a document never raises either, once the cache holds
    valid entity types. *)
Theorem lookup_term_degrades :
  forall (term : string) (w : World),
    (exists (r : Result) (w' : World),
       lookup_term term w = (inr r, w')
       /\ (fst (_get_cached_result term w) = inr None ->
           (opt_truthy (env_api_key w) = false -> r = no_key_result)
           /\ (opt_truthy (env_api_key w) = true ->
               (fst (_get_tgt_url w) = inr None -> r = no_results_result)
               /\ (forall t, fst (_get_fresh_service_ticket w) = inr t ->
                             opt_truthy t = false -> r = no_results_result)
               /\ (fst (_search_umls_concept term w) = inr [] ->
                   r = no_results_result)
               /\ (forall best rest w1,
                     _search_umls_concept term w = (inr (best :: rest), w1) ->
                     fst (_get_concept_details (field_get (ui best) "") w1)
                     = inr None ->
                     r = unresolved_result term best))))
    /\ (forall (p : Pipeline) (text : string),
          cache_valid w ->
          exists (out : Output) (w' : World),
            process_document p text w = (inr out, w')).
Proof.
  intros term w. split; [|intros p text; apply process_document_returns].
  unfold lookup_term, mbind, M_bind, bind.
  rewrite get_cached_result_eq. simpl fst.
  destruct (if use_cache w then _ else _) as [c|].
  { eexists _, _. split; [reflexivity|]. intros H. discriminate H. }
  unfold get. destruct (opt_truthy (env_api_key w)) eqn:Hkey; cbn [negb].
  - unfold try_except.
    pose proof (lookup_remote_no_results term w) as Hnone.
    pose proof (lookup_remote_no_details term w) as Hdet.
    destruct (lookup_remote term w) as [[e|r] w1]; simpl in Hnone, Hdet.
    + eexists _, _. split; [reflexivity|]. intros _.
      split; [intros H; discriminate H|]. intros _.
      split; [|split; [|split]].
      * intros Ht. apply ticket_needs_credential in Ht.
        apply (search_needs_ticket term) in Ht; [|reflexivity].
        specialize (Hnone Ht). discriminate Hnone.
      * intros t Ht Hf. specialize (Hnone (search_needs_ticket term w t Ht Hf)).
        discriminate Hnone.
      * intros Hs. specialize (Hnone Hs). discriminate Hnone.
      * intros best rest w2 Hs Hc. exact (Hdet best rest w2 Hs Hc).
    + eexists _, _. split; [reflexivity|]. intros _.
      split; [intros H; discriminate H|]. intros _.
      split; [|split; [|split]].
      * intros Ht. apply ticket_needs_credential in Ht.
        apply (search_needs_ticket term) in Ht; [|reflexivity].
        specialize (Hnone Ht). congruence.
      * intros t Ht Hf. specialize (Hnone (search_needs_ticket term w t Ht Hf)).
        congruence.
      * intros Hs. specialize (Hnone Hs). congruence.
      * intros best rest w2 Hs Hc. exact (Hdet best rest w2 Hs Hc).
  - eexists _, _. split; [reflexivity|]. intros _.
    split; [reflexivity|]. intros H. discriminate H.
Qed.

End DegradeTheorem.

Lemma lookup_term_degrades_witness :
  fst (UMLSClient.lookup_term "Fever" no_credential_world)
  = inr UMLSClient.no_results_result.
Proof.
  destruct (lookup_term_degrades "Fever" no_credential_world)
    as [(r & w' & Hl & Hmiss) _].
  rewrite Hl. simpl. f_equal.
  destruct Hmiss as [_ Hkey]; [vm_compute; reflexivity|].
  destruct Hkey as [Htgt _]; [reflexivity|].
  apply Htgt. vm_compute. reflexivity.
Defined.

(** C5, as the specification states it, fails when only the concept details
    cannot be fetched: the result is UNKNOWN, but with the code of the hit
    and confidence 0.5, stored in the cache as a success; it is neither the
    0.0 error result nor the no-result marker. *)
Lemma lookup_term_detail_failure :
  exists r : Result,
    fst (UMLSClient.lookup_term "Fever" detail_failure_world) = inr r
    /\ res_entity_type r = "UNKNOWN"
    /\ res_umls_code r = Some "C0015967"
    /\ res_confidence r = 500 # 1000
    /\ res_metadata r = Some (MetaSuccess "Fever" [] (1000 # 1000))
    /\ ~ (res_confidence r == 0)
    /\ r <> UMLSClient.no_results_result
    /\ UMLSClient.row_result
         <$> cache (snd (UMLSClient.lookup_term "Fever" detail_failure_world))
             !! "fever"
       = Some r.
Proof.
  eexists. split; [vm_compute; reflexivity|].
  repeat split; try (vm_compute; reflexivity).
  - vm_compute. discriminate.
  - intros H. discriminate H.
Qed.

(** * Further properties of the code

    Properties of the client, of the pipeline and of the caller beyond the
    ten claims. As before the clock stands still during one call, and the
    entities of a list are values: no two of them share a metadata
    dictionary, as is the case for the entities [_classify_entities]
    builds. *)

(** ** The cache of the client *)

Section CacheBlind.
Import UMLSClient.

Lemma set_cache_id w : set_cache (cache w) w = w.
Proof. destruct w. reflexivity. Qed.

Lemma cache_blind_ret {A} (a : A) : cache_blind (ret a).
Proof. intros c w. reflexivity. Qed.

Lemma cache_blind_raise {A} (e : exn) : cache_blind (@raise A e).
Proof. intros c w. reflexivity. Qed.

Lemma cache_blind_get {A} (f : World -> A) :
  (forall c w, f (set_cache c w) = f w) -> cache_blind (get f).
Proof. intros H c w. unfold get. rewrite H. reflexivity. Qed.

Lemma cache_blind_modify (f : World -> World) :
  (forall c w, f (set_cache c w) = set_cache c (f w)) ->
  cache_blind (modify f).
Proof. intros H c w. unfold modify. rewrite H. reflexivity. Qed.

Lemma cache_blind_bind {A B} (m : M A) (k : A -> M B) :
  cache_blind m -> (forall a, cache_blind (k a)) -> cache_blind (bind m k).
Proof.
  intros Hm Hk c w. unfold bind. rewrite Hm.
  destruct (m w) as [[e|a] w']; simpl; [reflexivity|]. apply Hk.
Qed.

Lemma cache_blind_try {A} (m : M A) (h : exn -> M A) :
  cache_blind m -> (forall e, cache_blind (h e)) ->
  cache_blind (try_except m h).
Proof.
  intros Hm Hh c w. unfold try_except. rewrite Hm.
  destruct (m w) as [[e|a] w']; simpl; [apply Hh|reflexivity].
Qed.

Lemma cache_blind_http rq : cache_blind (http rq).
Proof.
  intros c w. unfold http. simpl.
  destruct (replies w) as [|[e|resp] rs]; reflexivity.
Qed.

End CacheBlind.

(** One step of a proof that a computation is blind to the cache. *)
Ltac blind_step :=
  lazymatch goal with
  | |- cache_blind (ret _) => apply cache_blind_ret
  | |- cache_blind (raise _) => apply cache_blind_raise
  | |- cache_blind (get _) => apply cache_blind_get; intros; reflexivity
  | |- cache_blind (UMLSClient.http _) => apply cache_blind_http
  | |- cache_blind (modify _) => apply cache_blind_modify; intros; reflexivity
  | |- cache_blind (bind _ _) => apply cache_blind_bind; [|intros ?]
  | |- cache_blind (try_except _ _) => apply cache_blind_try; [|intros ?]
  | |- cache_blind (if ?b then _ else _) => destruct b
  | |- cache_blind (match ?x with _ => _ end) => destruct x
  end.

Section CacheProperties.
Import UMLSClient.

Lemma get_tgt_url_blind : cache_blind _get_tgt_url.
Proof.
  unfold _get_tgt_url, mbind, M_bind, mret, M_ret. repeat blind_step.
Qed.

Lemma get_fresh_service_ticket_blind : cache_blind _get_fresh_service_ticket.
Proof.
  unfold _get_fresh_service_ticket, mbind, M_bind, mret, M_ret.
  apply cache_blind_bind; [apply get_tgt_url_blind|].
  intros ?. repeat blind_step.
Qed.

Lemma search_umls_concept_blind term : cache_blind (_search_umls_concept term).
Proof.
  unfold _search_umls_concept, json_results, mbind, M_bind, mret, M_ret.
  apply cache_blind_bind; [apply get_fresh_service_ticket_blind|].
  intros ?.
  repeat first [ apply get_fresh_service_ticket_blind | blind_step ].
Qed.

Lemma get_concept_details_blind cui : cache_blind (_get_concept_details cui).
Proof.
  unfold _get_concept_details, json_concept, mbind, M_bind, mret, M_ret.
  apply cache_blind_bind; [apply get_fresh_service_ticket_blind|].
  intros ?. repeat blind_step.
Qed.

(** The remote phase of a lookup on any table: the same result, the same
    state of the client and of the network, and at most one row written,
    under the key of the term. Nothing is written when the cache is off or
    when the lookup raises. *)
Lemma lookup_remote_cache term w :
  exists (r : exn + Result) (wn : World) (upd : option CacheRow),
    net_frame w wn
    /\ (use_cache w = false -> upd = None)
    /\ (forall e, r = inl e -> upd = None)
    /\ forall c, lookup_remote term (set_cache c w)
                 = (r, set_cache (write_row (cache_key term) upd c) wn).
Proof.
  unfold lookup_remote, mbind, M_bind, bind.
  pose proof (search_umls_concept_frame term w) as Hs.
  pose proof (search_umls_concept_blind term) as Bs.
  destruct (_search_umls_concept term w) as [[e|rs] wa] eqn:Es; simpl in Hs.
  { exists (inl e), wa, None. repeat split; try exact Hs; try apply Hs.
    intros c. rewrite Bs, Es. reflexivity. }
  assert (Huc : use_cache wa = use_cache w) by apply Hs.
  destruct rs as [|best rest].
  { exists (inr no_results_result), wa,
      (if use_cache wa
       then Some (result_row no_results_result (clock wa)) else None).
    split; [exact Hs|]. split; [intros H; rewrite Huc, H; reflexivity|].
    split; [intros e H; discriminate H|].
    intros c. rewrite Bs, Es. simpl. rewrite cache_result_eq. simpl.
    destruct (use_cache wa); reflexivity. }
  pose proof (get_concept_details_frame (field_get (ui best) "") wa) as Hc.
  pose proof (get_concept_details_blind (field_get (ui best) "")) as Bc.
  destruct (_get_concept_details (field_get (ui best) "") wa)
    as [[e|cd] wb] eqn:Ec; simpl in Hc.
  { exists (inl e), wb, None.
    split; [eapply net_frame_trans; eassumption|].
    split; [reflexivity|]. split; [reflexivity|].
    intros c. rewrite Bs, Es. simpl. rewrite Bc, Ec. reflexivity. }
  assert (Hf : net_frame w wb) by (eapply net_frame_trans; eassumption).
  assert (Hub : use_cache wb = use_cache w) by apply Hf.
  destruct (_map_semantic_type_to_entity
              match cd with
              | Some sem_types => extract_tcodes sem_types
              | None => []
              end) as [ety bc] eqn:Em.
  destruct (field_get (name best) "") as [nm|] eqn:En.
  - eexists (inr _), wb,
      (if use_cache wb then Some (result_row _ (clock wb)) else None).
    split; [exact Hf|]. split; [intros H; rewrite Hub, H; reflexivity|].
    split; [intros e H; discriminate H|].
    intros c. rewrite Bs, Es. simpl. rewrite Bc, Ec. simpl. rewrite Em.
    rewrite En. simpl. rewrite cache_result_eq. simpl.
    destruct (use_cache wb); reflexivity.
  - eexists (inl _), wb, None.
    split; [exact Hf|]. split; [reflexivity|]. split; [reflexivity|].
    intros c. rewrite Bs, Es. simpl. rewrite Bc, Ec. simpl. rewrite Em.
    rewrite En. reflexivity.
Qed.

(** A lookup that misses the cache, on any table. *)
Lemma lookup_miss_cache term w :
  exists (r : Result) (wn : World) (upd : option CacheRow),
    net_frame w wn
    /\ (use_cache w = false -> upd = None)
    /\ forall c,
         fst (_get_cached_result term (set_cache c w)) = inr None ->
         lookup_term term (set_cache c w)
         = (inr r, set_cache (write_row (cache_key term) upd c) wn).
Proof.
  destruct (opt_truthy (env_api_key w)) eqn:Hkey.
  - destruct (lookup_remote_cache term w) as (r & wn & upd & Hf & Hoff & He & Hr).
    destruct r as [e|r].
    + exists (error_result e), wn, upd. split; [exact Hf|].
      split; [exact Hoff|]. intros c Hmiss.
      unfold lookup_term, mbind, M_bind, bind.
      destruct (_get_cached_result term (set_cache c w)) as [x w0] eqn:Eg.
      rewrite get_cached_result_eq in Eg. injection Eg as <- <-.
      simpl in Hmiss. injection Hmiss as Hmiss. simpl. rewrite Hmiss.
      unfold get. simpl. rewrite Hkey. simpl.
      unfold try_except. rewrite Hr. reflexivity.
    + exists r, wn, upd. split; [exact Hf|].
      split; [exact Hoff|]. intros c Hmiss.
      unfold lookup_term, mbind, M_bind, bind.
      destruct (_get_cached_result term (set_cache c w)) as [x w0] eqn:Eg.
      rewrite get_cached_result_eq in Eg. injection Eg as <- <-.
      simpl in Hmiss. injection Hmiss as Hmiss. simpl. rewrite Hmiss.
      unfold get. simpl. rewrite Hkey. simpl.
      unfold try_except. rewrite Hr. reflexivity.
  - exists no_key_result, w, None. split; [apply net_frame_refl|].
    split; [reflexivity|]. intros c Hmiss.
    unfold lookup_term, mbind, M_bind, bind.
    destruct (_get_cached_result term (set_cache c w)) as [x w0] eqn:Eg.
    rewrite get_cached_result_eq in Eg. injection Eg as <- <-.
    simpl in Hmiss. injection Hmiss as Hmiss. simpl. rewrite Hmiss.
    unfold get. simpl. rewrite Hkey. reflexivity.
Qed.

End CacheProperties.

Section CacheTheorems.
Import UMLSClient.

(** X1. Writing and reading the cache is a round trip. With the cache on,
    a result stored under a term is what a read returns for every term with
    the same key (the lower-cased, stripped term), as long as less than 30
    days have passed since the integer second of the write; from 30 days on
    the read returns nothing. Whatever the table held under that key before
    is replaced, and reads under other keys are not affected. *)
Theorem cache_result_round_trip :
  forall (term term' : string) (r : Result) (w : World) (later : Q),
    use_cache w = true ->
    cache_key term' = cache_key term ->
    let w1 := set_clock later (snd (_cache_result term r w)) in
    (later - inject_Z (py_int (clock w)) < cache_ttl ->
     _get_cached_result term' w1 = (inr (Some r), w1))
    /\ (cache_ttl <= later - inject_Z (py_int (clock w)) ->
        _get_cached_result term' w1 = (inr None, w1))
    /\ (forall other, cache_key other <> cache_key term ->
          fst (_get_cached_result other w1)
          = fst (_get_cached_result other (set_clock later w))).
Proof.
  intros term term' r w later Huc Hkey w1. subst w1.
  rewrite cache_result_eq, Huc. simpl.
  split; [|split].
  - intros Hlive. rewrite get_cached_result_eq. simpl. rewrite Huc, Hkey.
    rewrite lookup_insert_eq.
    assert (row_live later (result_row r (clock w)) = true) as ->.
    { unfold row_live. simpl. apply Qltb_lt. exact Hlive. }
    rewrite result_row_result. reflexivity.
  - intros Hdead. rewrite get_cached_result_eq. simpl. rewrite Huc, Hkey.
    rewrite lookup_insert_eq.
    assert (row_live later (result_row r (clock w)) = false) as ->.
    { unfold row_live. simpl. apply Qltb_ge. exact Hdead. }
    reflexivity.
  - intros other Hne. rewrite !get_cached_result_eq. simpl.
    rewrite lookup_insert_ne by congruence. reflexivity.
Qed.

(** X2. Expiry is lazy. A row that is 30 days old or older is treated as
    if it were not there: the lookup returns the same result and leaves the
    same client, network log and table as on the table without that row, up
    to the row itself, which is overwritten when the lookup stores a result
    and otherwise stays in the table. *)
Theorem stale_row_is_absent :
  forall (term : string) (w : World) (row : CacheRow),
    cache w !! cache_key term = Some row ->
    row_live (clock w) row = false ->
    fst (lookup_term term w)
    = fst (lookup_term term (without_row (cache_key term) w))
    /\ without_row (cache_key term) (snd (lookup_term term w))
       = without_row (cache_key term)
           (snd (lookup_term term (without_row (cache_key term) w))).
Proof.
  intros term w row Hrow Hstale.
  destruct (lookup_miss_cache term w) as (r & wn & upd & Hf & _ & Hr).
  pose proof (Hr (cache w)) as H1. rewrite set_cache_id in H1.
  pose proof (Hr (delete (cache_key term) (cache w))) as H2.
  fold (without_row (cache_key term) w) in H2.
  rewrite H1, H2.
  - simpl. split; [reflexivity|].
    change (set_cache (delete (cache_key term)
                         (write_row (cache_key term) upd (cache w))) wn
            = set_cache (delete (cache_key term)
                           (write_row (cache_key term) upd
                              (delete (cache_key term) (cache w)))) wn).
    f_equal. destruct upd as [row'|]; simpl.
    + rewrite !delete_insert_eq, delete_delete_eq. reflexivity.
    + rewrite delete_delete_eq. reflexivity.
  - rewrite get_cached_result_eq. unfold without_row. simpl.
    rewrite lookup_delete_eq. destruct (use_cache w); reflexivity.
  - rewrite get_cached_result_eq. simpl. rewrite Hrow, Hstale.
    destruct (use_cache w); reflexivity.
Qed.

(** X3. With the cache switched off (as app.py and tests/umls_test.py do)
    a lookup neither reads nor writes the table: the table is left as it
    was, and on any other table the lookup returns the same result and
    leaves the same state. *)
Theorem lookup_term_cache_off :
  forall (term : string) (w : World),
    use_cache w = false ->
    cache (snd (lookup_term term w)) = cache w
    /\ forall c : gmap string CacheRow,
         lookup_term term (set_cache c w)
         = (fst (lookup_term term w),
            set_cache c (snd (lookup_term term w))).
Proof.
  intros term w Huc.
  destruct (lookup_miss_cache term w) as (r & wn & upd & Hf & Hoff & Hr).
  rewrite (Hoff Huc) in Hr. simpl in Hr.
  assert (Hmiss : forall c,
    fst (_get_cached_result term (set_cache c w)) = inr None).
  { intros c. rewrite get_cached_result_eq. simpl. rewrite Huc. reflexivity. }
  pose proof (Hr (cache w) (Hmiss _)) as H1. rewrite set_cache_id in H1.
  assert (Hc : cache wn = cache w) by apply Hf.
  rewrite H1. simpl. split; [reflexivity|].
  intros c. rewrite (Hr c (Hmiss c)). reflexivity.
Qed.

(** X4. A lookup writes at most the row of its own term. It never changes
    the clock, the environment, the API key or the cache switch of the
    client, and every row of the table under another key is left as it
    was. *)
Theorem lookup_term_writes_own_row :
  forall (term : string) (w : World),
    let w' := snd (lookup_term term w) in
    clock w' = clock w /\ env_api_key w' = env_api_key w
    /\ api_key w' = api_key w /\ use_cache w' = use_cache w
    /\ forall k, k <> cache_key term -> cache w' !! k = cache w !! k.
Proof.
  intros term w w'. subst w'.
  destruct (fst (_get_cached_result term w)) as [e|[r|]] eqn:Eg.
  - rewrite get_cached_result_eq in Eg. discriminate Eg.
  - rewrite get_cached_result_eq in Eg. simpl in Eg. injection Eg as Eg.
    unfold lookup_term, mbind, M_bind, bind.
    rewrite get_cached_result_eq, Eg. simpl. repeat split.
  - destruct (lookup_miss_cache term w) as (r & wn & upd & Hf & _ & Hr).
    specialize (Hr (cache w)). rewrite set_cache_id in Hr.
    rewrite (Hr Eg). simpl.
    destruct Hf as (Hclock & Henv & Hkey & Huc & Hc).
    repeat split; try assumption.
    intros k Hk. destruct upd as [row|]; simpl.
    + rewrite lookup_insert_ne by congruence. reflexivity.
    + reflexivity.
Qed.

End CacheTheorems.

Lemma cache_result_round_trip_witness :
  UMLSClient._get_cached_result " ASPIRIN "
    (set_clock (1000 + 86400)
       (snd (UMLSClient._cache_result "Aspirin" aspirin_result quiet_world)))
  = (inr (Some aspirin_result),
     set_clock (1000 + 86400)
       (snd (UMLSClient._cache_result "Aspirin" aspirin_result quiet_world))).
Proof.
  apply (cache_result_round_trip "Aspirin" " ASPIRIN " aspirin_result
           quiet_world (1000 + 86400)).
  - reflexivity.
  - vm_compute. reflexivity.
  - vm_compute. reflexivity.
Defined.

Lemma stale_row_is_absent_witness :
  fst (UMLSClient.lookup_term "Fever" stale_world)
  = fst (UMLSClient.lookup_term "Fever"
           (without_row (UMLSClient.cache_key "Fever") stale_world)).
Proof.
  apply (stale_row_is_absent "Fever" stale_world
           (mkRow "UNKNOWN" None (3 # 10) (Some MetaNoResults)
                  (1700000000 - 31 * 24 * 3600))).
  - vm_compute. reflexivity.
  - vm_compute. reflexivity.
Defined.

Lemma lookup_term_cache_off_witness :
  cache (snd (UMLSClient.lookup_term "Fever" (kb_world false one_lookup)))
  = cache (kb_world false one_lookup).
Proof.
  apply (lookup_term_cache_off "Fever" (kb_world false one_lookup)).
  reflexivity.
Defined.

(** ** The requests of a lookup *)

Section Requests.
Import UMLSClient.
Variable term : string.

Lemma tgt_valid_step w w' :
  clock w' = clock w -> tgt_url w' = tgt_url w ->
  tgt_expiry w' = tgt_expiry w -> tgt_valid w' = tgt_valid w.
Proof. unfold tgt_valid. intros -> -> ->. reflexivity. Qed.

Lemma net_step_refl w : net_step term w w [].
Proof.
  unfold net_step. rewrite app_nil_r. repeat split. constructor.
Qed.

Lemma net_step_valid w w' new :
  net_step term w w' new -> tgt_valid w = true -> tgt_valid w' = true.
Proof.
  intros (_ & Hc & _ & Ht & _) Hv. destruct (Ht Hv) as [Hu He].
  rewrite (tgt_valid_step w w') by assumption. exact Hv.
Qed.

Lemma net_step_trans a b c n1 n2 :
  net_step term a b n1 -> net_step term b c n2 ->
  net_step term a c (n1 ++ n2).
Proof.
  intros Hab Hbc.
  pose proof (net_step_valid _ _ _ Hab) as Hv.
  destruct Hab as (Hr1 & Hc1 & Hk1 & Ht1 & Hw1).
  destruct Hbc as (Hr2 & Hc2 & Hk2 & Ht2 & Hw2).
  unfold net_step. rewrite Hr2, Hr1, app_assoc, Hc2, Hc1, Hk2, Hk1.
  repeat split.
  - destruct (Ht1 H) as [E1 _]. destruct (Ht2 (Hv H)) as [E2 _]. congruence.
  - destruct (Ht1 H) as [_ E1]. destruct (Ht2 (Hv H)) as [_ E2]. congruence.
  - apply Forall_app. split; [exact Hw1|]. rewrite <- Hk1. exact Hw2.
Qed.

Lemma http_step rq w :
  well_formed (api_key w) term rq ->
  exists x w', http rq w = (x, w') /\ net_step term w w' [rq]
               /\ tgt_valid w' = tgt_valid w.
Proof.
  intros Hrq. unfold http.
  destruct (replies w) as [|[e|resp] rs]; eexists _, _;
    (split; [reflexivity|]); (split; [|reflexivity]);
    unfold net_step; simpl; repeat split; constructor; auto.
Qed.

Lemma clock_before_expiry (now : Q) : Qltb now (now + inject_Z (8 * 3600)) = true.
Proof.
  apply Qltb_lt. rewrite <- (Qplus_0_r now) at 1.
  apply Qplus_lt_r. reflexivity.
Qed.

(** The granting credential: served from memory while it is good, else one
    request to the authentication endpoint with the client's key; a
    credential that is returned is non-empty and in memory, good for eight
    hours from the call when it is new. *)
Lemma get_tgt_url_step w :
  exists o w' new,
    _get_tgt_url w = (inr o, w') /\ net_step term w w' new
    /\ (if tgt_valid w then new = [] /\ w' = w /\ o = tgt_url w
        else new = [PostAuth auth_endpoint (api_key w)])
    /\ forall u, o = Some u ->
         Py.truthy u = true /\ tgt_url w' = Some u /\ tgt_valid w' = true
         /\ (tgt_valid w = false ->
             tgt_expiry w' = clock w + inject_Z (8 * 3600)).
Proof.
  unfold _get_tgt_url, mbind, M_bind, bind, get. fold (tgt_valid w).
  destruct (tgt_valid w) eqn:Hv.
  - exists (tgt_url w), w, []. split; [reflexivity|].
    split; [apply net_step_refl|]. split; [auto|].
    intros u Hu. unfold tgt_valid in Hv. apply andb_true_iff in Hv as [Ht Hq].
    rewrite Hu in Ht. simpl in Ht. repeat split; try assumption.
    + unfold tgt_valid. rewrite Hu. simpl. rewrite Ht. exact Hq.
    + intros H. discriminate H.
  - unfold try_except.
    assert (Hwf : well_formed (api_key w) term
                    (PostAuth auth_endpoint (api_key w))) by (split; reflexivity).
    destruct (http_step _ w Hwf) as (x & w1 & E & Hs & Hv1). rewrite E.
    assert (Hfresh : forall u, @None string = Some u ->
      Py.truthy u = true /\ tgt_url w1 = Some u /\ tgt_valid w1 = true
      /\ (false = false -> tgt_expiry w1 = clock w + inject_Z (8 * 3600)))
      by (intros u H; discriminate H).
    destruct x as [e|resp]; simpl.
    { exists None, w1, [PostAuth auth_endpoint (api_key w)].
      repeat split; try apply Hs; try reflexivity; try exact Hfresh;
        intros; congruence. }
    destruct (status_code resp =? 201)%Z; simpl.
    2:{ exists None, w1, [PostAuth auth_endpoint (api_key w)].
        repeat split; try apply Hs; try reflexivity; try exact Hfresh;
          intros; congruence. }
    unfold modify. simpl.
    destruct Hs as (Hr & Hc & Hk & _ & Hw).
    destruct (opt_truthy (location resp)) eqn:Hloc; simpl.
    + eexists (location resp), _, [PostAuth auth_endpoint (api_key w)].
      split; [reflexivity|]. split.
      { unfold net_step. simpl. repeat split; try assumption;
          intros; congruence. }
      split; [reflexivity|].
      intros u Hu. rewrite Hu in Hloc. simpl in Hloc.
      split; [exact Hloc|]. split; [simpl; exact Hu|].
      split; [|reflexivity].
      unfold tgt_valid. simpl. rewrite Hu. simpl. rewrite Hloc. simpl.
      rewrite Hc. apply clock_before_expiry.
    + eexists None, _, [PostAuth auth_endpoint (api_key w)].
      split; [reflexivity|]. split.
      { unfold net_step. simpl. repeat split; try assumption;
          intros; congruence. }
      split; [reflexivity|]. intros u H. discriminate H.
Qed.

End Requests.

Lemma ticketed_noget b l :
  Forall (fun rq => is_get rq = false) l -> ticketed b l = true.
Proof.
  intros H. revert b. induction H as [|rq l Hrq _ IH]; intros b; simpl;
    [reflexivity|].
  rewrite Hrq. simpl. apply IH.
Qed.

Lemma ticketed_mono b l : ticketed false l = true -> ticketed b l = true.
Proof.
  destruct l as [|rq l]; simpl; [reflexivity|].
  destruct (is_get rq); simpl; [discriminate|auto].
Qed.

Lemma ticketed_app b l1 l2 :
  ticketed b l1 = true -> ticketed false l2 = true ->
  ticketed b (l1 ++ l2) = true.
Proof.
  revert b. induction l1 as [|rq l1 IH]; intros b H1 H2; simpl in *.
  - apply ticketed_mono. exact H2.
  - apply andb_true_iff in H1 as [Ha Hb]. rewrite Ha. simpl. apply IH; assumption.
Qed.

(** What is sent right after a ticket was minted starts in its place. *)
Lemma ticketed_after_ticket b pre u s l :
  Forall (fun rq => is_get rq = false) pre ->
  ticketed b ((pre ++ [PostTicket u s]) ++ l) = ticketed true l.
Proof.
  intros H. revert b. induction H as [|x pre Hx _ IH]; intros b; simpl.
  - reflexivity.
  - rewrite Hx. simpl. apply IH.
Qed.

Lemma bind_eq {A B} (m : M A) (k : A -> M B) (w : World) :
  (x ← m; k x) w
  = match m w with
    | (inr a, w') => k a w'
    | (inl e, w') => (inl e, w')
    end.
Proof. reflexivity. Qed.

Section RequestSpecs.
Import UMLSClient.
Variable term : string.

(** A service ticket: at most one request for the granting credential and
    one for the ticket, none of them a search or concept request; a ticket
    that is returned was minted by the last request. *)
Lemma get_fresh_service_ticket_step w :
  exists o w' new,
    _get_fresh_service_ticket w = (inr o, w') /\ net_step term w w' new
    /\ Forall (fun rq => is_get rq = false) new
    /\ (length new <= if tgt_valid w then 1 else 2)%nat
    /\ forall t, o = Some t ->
         tgt_valid w' = true
         /\ exists pre u,
              new = pre ++ [PostTicket u "http://umlsks.nlm.nih.gov"]
              /\ Forall (fun rq => is_get rq = false) pre.
Proof.
  unfold _get_fresh_service_ticket, mbind, M_bind, bind.
  destruct (get_tgt_url_step term w) as (o & w1 & n1 & E & Hs & Hsh & Hu).
  rewrite E.
  assert (Hn1 : Forall (fun rq => is_get rq = false) n1
                /\ (length n1 <= if tgt_valid w then 0 else 1)%nat).
  { destruct (tgt_valid w).
    - destruct Hsh as (-> & _). split; [constructor|reflexivity].
    - rewrite Hsh. split; [repeat constructor|reflexivity]. }
  destruct Hn1 as [Hg1 Hl1].
  assert (Hnone : exists o' w' new,
    (@inr exn (option string) None, w1) = (inr o', w')
    /\ net_step term w w' new
    /\ Forall (fun rq => is_get rq = false) new
    /\ (length new <= if tgt_valid w then 1 else 2)%nat
    /\ forall t, o' = Some t ->
         tgt_valid w' = true
         /\ exists pre u,
              new = pre ++ [PostTicket u "http://umlsks.nlm.nih.gov"]
              /\ Forall (fun rq => is_get rq = false) pre).
  { exists None, w1, n1. split; [reflexivity|]. split; [exact Hs|].
    split; [exact Hg1|]. split; [destruct (tgt_valid w); lia|].
    intros t H. discriminate H. }
  destruct o as [u|]; [|exact Hnone].
  destruct (Hu u eq_refl) as (Htr & Hurl & Hv1 & _).
  rewrite Htr. simpl. unfold try_except.
  assert (Hwf : well_formed (api_key w1) term
                  (PostTicket u "http://umlsks.nlm.nih.gov"))
    by (split; [exact Htr|reflexivity]).
  destruct (http_step term _ w1 Hwf) as (x & w2 & E2 & Hs2 & Hv2). rewrite E2.
  pose proof (net_step_trans term _ _ _ _ _ Hs Hs2) as Hst.
  assert (Hlen : (length (n1 ++ [PostTicket u "http://umlsks.nlm.nih.gov"])
                  <= if tgt_valid w then 1 else 2)%nat).
  { rewrite length_app. simpl. destruct (tgt_valid w); lia. }
  assert (Hget : Forall (fun rq => is_get rq = false)
                   (n1 ++ [PostTicket u "http://umlsks.nlm.nih.gov"])).
  { apply Forall_app. split; [exact Hg1|repeat constructor]. }
  destruct x as [e|resp]; simpl.
  { exists None, w2, (n1 ++ [PostTicket u "http://umlsks.nlm.nih.gov"]).
    split; [reflexivity|]. split; [exact Hst|]. split; [exact Hget|].
    split; [exact Hlen|]. intros t H. discriminate H. }
  destruct (status_code resp =? 200)%Z.
  - eexists (Some _), w2, (n1 ++ [PostTicket u "http://umlsks.nlm.nih.gov"]).
    split; [reflexivity|]. split; [exact Hst|]. split; [exact Hget|].
    split; [exact Hlen|]. intros t _.
    split; [rewrite Hv2; exact Hv1|]. exists n1, u. split; [reflexivity|exact Hg1].
  - exists None, w2, (n1 ++ [PostTicket u "http://umlsks.nlm.nih.gov"]).
    split; [reflexivity|]. split; [exact Hst|]. split; [exact Hget|].
    split; [exact Hlen|]. intros t H. discriminate H.
Qed.

(** The approximate search that follows an exact search without a hit. *)
Lemma approximate_search_step w :
  tgt_valid w = true ->
  exists x w' new,
    ((service_ticket ← _get_fresh_service_ticket;
      if negb (opt_truthy service_ticket) then ret [] else
      response ← http (GetSearch (default "" service_ticket) term
                                 "approximate");
      if (status_code response =? 200)%Z
      then json_results (body response)
      else ret []) : M (list SearchItem)) w = (x, w')
    /\ net_step term w w' new /\ ticketed false new = true
    /\ (length new <= 2)%nat.
Proof.
  intros Hv. rewrite bind_eq.
  destruct (get_fresh_service_ticket_step w)
    as (o & w1 & n1 & E & Hs & Hg & Hl & Ho).
  rewrite E, Hv in *. cbv beta iota.
  destruct (opt_truthy o) eqn:Hto; cbn [negb].
  2:{ eexists _, w1, n1. split; [reflexivity|]. split; [exact Hs|].
      split; [apply ticketed_noget; exact Hg|lia]. }
  destruct o as [t|]; [|discriminate Hto].
  destruct (Ho t eq_refl) as (Hv1 & pre & u & -> & Hpre).
  rewrite bind_eq. cbn [default from_option id].
  assert (Hwf : well_formed (api_key w1) term (GetSearch t term "approximate"))
    by (split; [exact Hto|split; [reflexivity|right; reflexivity]]).
  destruct (http_step term _ w1 Hwf) as (x & w2 & E2 & Hs2 & Hv2). rewrite E2.
  pose proof (net_step_trans term _ _ _ _ _ Hs Hs2) as Hst.
  assert (Htk : ticketed false
            ((pre ++ [PostTicket u "http://umlsks.nlm.nih.gov"])
             ++ [GetSearch t term "approximate"]) = true)
    by (rewrite ticketed_after_ticket by exact Hpre; reflexivity).
  assert (Hlen : (length ((pre ++ [PostTicket u "http://umlsks.nlm.nih.gov"])
                          ++ [GetSearch t term "approximate"]) <= 2)%nat)
    by (rewrite length_app; simpl; lia).
  destruct x as [e|resp]; cbv beta iota.
  { eexists _, w2, _. split; [reflexivity|].
    split; [exact Hst|split; [exact Htk|exact Hlen]]. }
  destruct (status_code resp =? 200)%Z.
  - destruct (json_results (body resp) w2) as [y w3] eqn:Ej.
    assert (w3 = w2) as ->.
    { unfold json_results in Ej. destruct (body resp) as [|[| |]];
        injection Ej as _ <-; reflexivity. }
    eexists _, w2, _. split; [reflexivity|].
    split; [exact Hst|split; [exact Htk|exact Hlen]].
  - eexists _, w2, _. split; [reflexivity|].
    split; [exact Hst|split; [exact Htk|exact Hlen]].
Qed.

(** The search: a ticket and the exact search, then, when that finds
    nothing, another ticket and the approximate search. The second ticket
    uses the credential the first one left in memory. *)
Lemma search_umls_concept_step w :
  exists rs w' new,
    _search_umls_concept term w = (inr rs, w') /\ net_step term w w' new
    /\ ticketed false new = true
    /\ (length new <= if tgt_valid w then 4 else 5)%nat
    /\ (rs <> [] -> tgt_valid w' = true).
Proof.
  unfold _search_umls_concept. rewrite bind_eq.
  destruct (get_fresh_service_ticket_step w)
    as (o & w1 & n1 & E & Hs & Hg & Hl & Ho).
  rewrite E. cbv beta iota.
  destruct (opt_truthy o) eqn:Hto; cbn [negb].
  2:{ exists [], w1, n1. split; [reflexivity|]. split; [exact Hs|].
      split; [apply ticketed_noget; exact Hg|].
      split; [destruct (tgt_valid w); lia|]. intros H. congruence. }
  destruct o as [t|]; [|discriminate Hto].
  destruct (Ho t eq_refl) as (Hv1 & pre & u & -> & Hpre).
  unfold try_except. rewrite bind_eq. cbn [default from_option id].
  assert (Hwf : well_formed (api_key w1) term (GetSearch t term "exact"))
    by (split; [exact Hto|split; [reflexivity|left; reflexivity]]).
  destruct (http_step term _ w1 Hwf) as (x & w2 & E2 & Hs2 & Hv2). rewrite E2.
  rewrite Hv1 in Hv2.
  pose proof (net_step_trans term _ _ _ _ _ Hs Hs2) as Hst.
  assert (Htk : ticketed false
            ((pre ++ [PostTicket u "http://umlsks.nlm.nih.gov"])
             ++ [GetSearch t term "exact"]) = true)
    by (rewrite ticketed_after_ticket by exact Hpre; reflexivity).
  assert (Hlen : (length ((pre ++ [PostTicket u "http://umlsks.nlm.nih.gov"])
                          ++ [GetSearch t term "exact"])
                  <= if tgt_valid w then 2 else 3)%nat)
    by (rewrite length_app; simpl; destruct (tgt_valid w); lia).
  assert (Hlen' : (length ((pre ++ [PostTicket u "http://umlsks.nlm.nih.gov"])
                           ++ [GetSearch t term "exact"])
                   <= if tgt_valid w then 4 else 5)%nat)
    by (destruct (tgt_valid w); lia).
  assert (Hstop : forall rs : list SearchItem, exists rs' w' new,
    (@inr exn _ rs, w2) = (inr rs', w') /\ net_step term w w' new
    /\ ticketed false new = true
    /\ (length new <= if tgt_valid w then 4 else 5)%nat
    /\ (rs' <> [] -> tgt_valid w' = true)).
  { intros rs. eexists rs, w2, _. split; [reflexivity|].
    split; [exact Hst|]. split; [exact Htk|]. split; [exact Hlen'|].
    intros _. exact Hv2. }
  assert (Happrox : forall y w3 n3,
    net_step term w2 w3 n3 -> ticketed false n3 = true ->
    (length n3 <= 2)%nat ->
    exists rs' w' new,
      (@inr exn (list SearchItem) y, w3) = (inr rs', w')
      /\ net_step term w w' new /\ ticketed false new = true
      /\ (length new <= if tgt_valid w then 4 else 5)%nat
      /\ (rs' <> [] -> tgt_valid w' = true)).
  { intros y w3 n3 Hs3 Htk3 Hl3. eexists y, w3, _. split; [reflexivity|].
    split; [exact (net_step_trans term _ _ _ _ _ Hst Hs3)|].
    split; [apply ticketed_app; assumption|].
    split; [rewrite length_app; destruct (tgt_valid w); lia|].
    intros _. exact (net_step_valid term _ _ _ Hs3 Hv2). }
  destruct x as [e|resp]; cbv beta iota; [apply Hstop|].
  destruct (status_code resp =? 200)%Z; [|apply Hstop].
  rewrite bind_eq.
  destruct (json_results (body resp) w2) as [y wj] eqn:Ej.
  assert (wj = w2) as ->.
  { unfold json_results in Ej. destruct (body resp) as [|[| |]];
      injection Ej as _ <-; reflexivity. }
  destruct y as [e|[|item rest]]; [apply Hstop| |apply Hstop].
  destruct (approximate_search_step w2 Hv2)
    as (x3 & w3 & n3 & E3 & Hs3 & Htk3 & Hl3).
  rewrite E3. destruct x3 as [e|y]; apply (Happrox _ _ _ Hs3 Htk3 Hl3).
Qed.

End RequestSpecs.

Section LookupRequests.
Import UMLSClient.
Variable term : string.

(** The concept details: a ticket, then one request when the identifier
    looks like a CUI. *)
Lemma get_concept_details_step cui w :
  exists o w' new,
    _get_concept_details cui w = (inr o, w') /\ net_step term w w' new
    /\ ticketed false new = true
    /\ (length new <= if tgt_valid w then 2 else 3)%nat.
Proof.
  unfold _get_concept_details. rewrite bind_eq.
  destruct (get_fresh_service_ticket_step term w)
    as (o & w1 & n1 & E & Hs & Hg & Hl & Ho).
  rewrite E. cbv beta iota.
  assert (Hstop : forall o' : option (list SemType), exists o'' w' new,
    (@inr exn _ o', w1) = (inr o'', w') /\ net_step term w w' new
    /\ ticketed false new = true
    /\ (length new <= if tgt_valid w then 2 else 3)%nat).
  { intros o'. eexists o', w1, n1. split; [reflexivity|]. split; [exact Hs|].
    split; [apply ticketed_noget; exact Hg|destruct (tgt_valid w); lia]. }
  destruct (opt_truthy o) eqn:Hto; cbn [negb]; [|apply Hstop].
  destruct o as [t|]; [|discriminate Hto].
  destruct (Ho t eq_refl) as (Hv1 & pre & u & -> & Hpre).
  unfold try_except.
  destruct cui as [c|]; [|apply Hstop].
  destruct (looks_like_cui c) eqn:Hcui; [|apply Hstop].
  rewrite bind_eq. cbn [default from_option id].
  assert (Hwf : well_formed (api_key w1) term (GetConcept c t))
    by (split; [exact Hto|exact Hcui]).
  destruct (http_step term _ w1 Hwf) as (x & w2 & E2 & Hs2 & Hv2). rewrite E2.
  pose proof (net_step_trans term _ _ _ _ _ Hs Hs2) as Hst.
  assert (Htk : ticketed false
            ((pre ++ [PostTicket u "http://umlsks.nlm.nih.gov"])
             ++ [GetConcept c t]) = true)
    by (rewrite ticketed_after_ticket by exact Hpre; reflexivity).
  assert (Hlen : (length ((pre ++ [PostTicket u "http://umlsks.nlm.nih.gov"])
                          ++ [GetConcept c t])
                  <= if tgt_valid w then 2 else 3)%nat)
    by (rewrite length_app; simpl; destruct (tgt_valid w); lia).
  assert (Hend : forall o' : option (list SemType), exists o'' w' new,
    (@inr exn _ o', w2) = (inr o'', w') /\ net_step term w w' new
    /\ ticketed false new = true
    /\ (length new <= if tgt_valid w then 2 else 3)%nat).
  { intros o'. eexists o', w2, _. split; [reflexivity|].
    split; [exact Hst|split; [exact Htk|exact Hlen]]. }
  destruct x as [e|resp]; cbv beta iota; [apply Hend|].
  destruct (status_code resp =? 200)%Z; [|apply Hend].
  unfold json_concept. destruct (body resp) as [|[| |]]; apply Hend.
Qed.

Lemma cache_result_step t r w :
  net_step term w (snd (_cache_result t r w)) []
  /\ tgt_valid (snd (_cache_result t r w)) = tgt_valid w.
Proof.
  rewrite cache_result_eq. simpl.
  destruct (use_cache w); (split; [apply net_step_refl || idtac|reflexivity]).
  unfold net_step. simpl. rewrite app_nil_r. repeat split. constructor.
Qed.

(** The remote phase of a lookup: the search, then the concept details of
    the first hit, with the credential the search left in memory. *)
Lemma lookup_remote_step w :
  exists x w' new,
    lookup_remote term w = (x, w') /\ net_step term w w' new
    /\ ticketed false new = true
    /\ (length new <= if tgt_valid w then 6 else 7)%nat.
Proof.
  unfold lookup_remote. rewrite bind_eq.
  destruct (search_umls_concept_step term w)
    as (rs & w1 & n1 & E & Hs & Htk & Hl & Hv).
  rewrite E. cbv beta iota.
  destruct rs as [|best rest].
  - rewrite bind_eq.
    destruct (cache_result_step term no_results_result w1) as [Hc _].
    destruct (_cache_result term no_results_result w1) as [[e|[]] w2] eqn:Ec;
      simpl in Hc;
      pose proof (net_step_trans term _ _ _ _ _ Hs Hc) as Hst;
      rewrite app_nil_r in Hst;
      (eexists _, w2, n1; split; [reflexivity|]; split; [exact Hst|];
       split; [exact Htk|destruct (tgt_valid w); lia]).
  - specialize (Hv ltac:(discriminate)).
    rewrite bind_eq.
    destruct (get_concept_details_step (field_get (ui best) "") w1)
      as (cd & w2 & n2 & E2 & Hs2 & Htk2 & Hl2).
    rewrite E2, Hv in *. cbv beta iota.
    pose proof (net_step_trans term _ _ _ _ _ Hs Hs2) as Hst.
    assert (Htk' : ticketed false (n1 ++ n2) = true)
      by (apply ticketed_app; assumption).
    assert (Hlen : (length (n1 ++ n2) <= if tgt_valid w then 6 else 7)%nat)
      by (rewrite length_app; destruct (tgt_valid w); lia).
    destruct (_map_semantic_type_to_entity _) as [ety bc].
    rewrite bind_eq.
    destruct (field_get (name best) "") as [nm|]; simpl lower_opt.
    + unfold ret at 1. cbv beta iota. rewrite bind_eq.
      match goal with
      | |- context [_cache_result term ?r w2] =>
          destruct (cache_result_step term r w2) as [Hc _];
          destruct (_cache_result term r w2) as [[e|[]] w3] eqn:Ec
      end;
        simpl in Hc;
        pose proof (net_step_trans term _ _ _ _ _ Hst Hc) as Hst';
        rewrite app_nil_r in Hst';
        (eexists _, w3, _; split; [reflexivity|]; split; [exact Hst'|];
         split; [exact Htk'|exact Hlen]).
    + eexists _, w2, _. split; [reflexivity|]. split; [exact Hst|].
      split; [exact Htk'|exact Hlen].
Qed.

(** A lookup sends nothing on a cache hit or without a key in the
    environment; else it sends what its remote phase sends. *)
Lemma lookup_term_step w :
  exists r w' new,
    lookup_term term w = (inr r, w') /\ net_step term w w' new
    /\ ticketed false new = true
    /\ (length new <= if tgt_valid w then 6 else 7)%nat
    /\ (opt_truthy (env_api_key w) = false -> new = [])
    /\ (forall c, fst (_get_cached_result term w) = inr (Some c) -> new = []).
Proof.
  unfold lookup_term. rewrite bind_eq, get_cached_result_eq.
  cbv beta iota. simpl fst.
  destruct (if use_cache w then _ else _) as [c|].
  { exists c, w, []. split; [reflexivity|]. split; [apply net_step_refl|].
    split; [reflexivity|]. split; [destruct (tgt_valid w); simpl; lia|].
    split; reflexivity. }
  rewrite bind_eq. unfold get. cbv beta iota.
  destruct (opt_truthy (env_api_key w)) eqn:Hkey; cbn [negb].
  - unfold try_except.
    destruct (lookup_remote_step w) as (x & w1 & new & E & Hs & Htk & Hl).
    rewrite E.
    destruct x as [e|r]; eexists _, w1, new; (split; [reflexivity|]);
      (split; [exact Hs|]); (split; [exact Htk|]); (split; [exact Hl|]);
      (split; [intros H; discriminate H|intros c H; discriminate H]).
  - exists no_key_result, w, []. split; [reflexivity|].
    split; [apply net_step_refl|].
    split; [reflexivity|]. split; [destruct (tgt_valid w); simpl; lia|].
    split; [reflexivity|intros c H; discriminate H].
Qed.

End LookupRequests.

Section RequestTheorems.
Import UMLSClient.

(** X5. The granting credential is reused until it expires. A credential
    the client returns is in memory; a new one expires eight hours after the
    call that fetched it. Until the expiry every later call, whatever the
    network would answer, returns the same credential without a request and
    without a change of state; from the expiry on the next call asks the
    authentication endpoint again. *)
Theorem tgt_reused_until_expiry :
  forall (w w1 : World) (u : string),
    _get_tgt_url w = (inr (Some u), w1) ->
    (tgt_valid w = false ->
     requests w1 = requests w ++ [PostAuth auth_endpoint (api_key w)]
     /\ tgt_expiry w1 = clock w + inject_Z (8 * 3600))
    /\ (forall (later : Q) (rs : list Reply),
          later < tgt_expiry w1 ->
          let w2 := set_clock later (set_replies rs (requests w1) w1) in
          _get_tgt_url w2 = (inr (Some u), w2))
    /\ (forall (later : Q) (rs : list Reply),
          tgt_expiry w1 <= later ->
          let w2 := set_clock later (set_replies rs (requests w1) w1) in
          requests (snd (_get_tgt_url w2))
          = requests w1 ++ [PostAuth auth_endpoint (api_key w)]).
Proof.
  intros w w1 u E.
  destruct (get_tgt_url_step "" w) as (o & w' & new & E' & Hs & Hsh & Hu).
  rewrite E in E'. injection E' as <- <-.
  destruct (Hu u eq_refl) as (Htr & Hurl & Hv1 & Hexp).
  split; [|split].
  - intros Hv. rewrite Hv in Hsh. subst new.
    split; [apply Hs|apply Hexp; exact Hv].
  - intros later rs Hlater w2.
    destruct (get_tgt_url_step "" w2) as (o2 & w3 & n2 & E2 & _ & Hsh2 & _).
    assert (Hv2 : tgt_valid w2 = true).
    { unfold tgt_valid, w2. simpl. rewrite Hurl. simpl. rewrite Htr. simpl.
      apply Qltb_lt. exact Hlater. }
    rewrite Hv2 in Hsh2. destruct Hsh2 as (_ & -> & ->).
    rewrite E2. unfold w2 at 1. simpl. rewrite Hurl. reflexivity.
  - intros later rs Hlater w2.
    destruct (get_tgt_url_step "" w2) as (o2 & w3 & n2 & E2 & Hs2 & Hsh2 & _).
    assert (Hv2 : tgt_valid w2 = false).
    { unfold tgt_valid, w2. simpl. apply andb_false_iff. right.
      apply Qltb_ge. exact Hlater. }
    rewrite Hv2 in Hsh2. subst n2. rewrite E2. simpl.
    destruct Hs2 as (Hr2 & _). rewrite Hr2. unfold w2. simpl.
    destruct Hs as (_ & _ & Hk & _). rewrite Hk. reflexivity.
Qed.

(** X6. The request budget of a lookup. One lookup sends at most seven
    requests, at most six when a good granting credential is in memory, and
    none on a cache hit or when the environment holds no API key. Seven is
    reached: credential, ticket, exact search without a hit, ticket,
    approximate search, ticket, concept details. *)
Theorem lookup_request_budget :
  (forall (term : string) (w : World),
     exists new : list Request,
       requests (snd (lookup_term term w)) = requests w ++ new
       /\ (length new <= 7)%nat
       /\ (tgt_valid w = true -> (length new <= 6)%nat)
       /\ (opt_truthy (env_api_key w) = false -> new = [])
       /\ (forall c, fst (_get_cached_result term w) = inr (Some c) ->
                     new = []))
  /\ length (requests (snd (lookup_term "Fever"
                              (kb_world true longest_lookup)))) = 7%nat.
Proof.
  split; [|vm_compute; reflexivity].
  intros term w.
  destruct (lookup_term_step term w)
    as (r & w' & new & E & Hs & _ & Hl & Hk & Hc).
  exists new. rewrite E. simpl.
  split; [apply Hs|]. split; [destruct (tgt_valid w); lia|].
  split; [intros Hv; rewrite Hv in Hl; exact Hl|].
  split; assumption.
Qed.

(** X7. The requests of a lookup follow the protocol of the service. The
    credential request goes to the authentication endpoint with the key of
    the client; every ticket request goes to a non-empty credential;
    every search carries the term as given, a non-empty ticket and the
    search type exact or approximate; a concept request is sent only for an
    identifier that looks like a CUI. Every search or concept request comes
    directly after the minting of a ticket: one ticket is minted for each
    of them. *)
Theorem lookup_request_protocol :
  forall (term : string) (w : World),
    exists new : list Request,
      requests (snd (lookup_term term w)) = requests w ++ new
      /\ Forall (well_formed (api_key w) term) new
      /\ ticketed false new = true.
Proof.
  intros term w.
  destruct (lookup_term_step term w)
    as (r & w' & new & E & Hs & Htk & _).
  exists new. rewrite E. simpl.
  split; [apply Hs|]. split; [apply Hs|exact Htk].
Qed.

End RequestTheorems.

Lemma tgt_reused_until_expiry_witness :
  let w1 := snd (UMLSClient._get_tgt_url (kb_world true [ok_auth])) in
  let w2 := set_clock (1700000000 + 3600)
              (set_replies [timed_out] (requests w1) w1) in
  UMLSClient._get_tgt_url w2
  = (inr (Some "https://utslogin.nlm.nih.gov/cas/v1/tickets/TGT-1"), w2).
Proof.
  intros w1 w2.
  apply (tgt_reused_until_expiry (kb_world true [ok_auth]) w1
           "https://utslogin.nlm.nih.gov/cas/v1/tickets/TGT-1").
  - vm_compute. reflexivity.
  - vm_compute. reflexivity.
Defined.

(** ** The mapping of semantic types and the name similarity *)

Section SemanticTypes.
Import UMLSClient.

(** [max]: the first entry with the largest value. *)
Lemma max_key_spec scores :
  forall best, exists pre post,
    best :: scores = pre ++ max_key best scores :: post
    /\ Forall (fun kv => snd kv < snd (max_key best scores)) pre
    /\ Forall (fun kv => snd kv <= snd (max_key best scores)) post.
Proof.
  induction scores as [|kv rest IH]; intros best; simpl.
  - exists [], []. repeat split; constructor.
  - destruct (Qltb (snd best) (snd kv)) eqn:Hlt.
    + apply Qltb_lt in Hlt.
      destruct (IH kv) as (pre & post & E & Hpre & Hpost).
      exists (best :: pre), post. rewrite E. split; [reflexivity|].
      split; [|exact Hpost]. constructor; [|exact Hpre].
      destruct pre as [|x pre]; simpl in E; injection E as E1 E2.
      * rewrite <- E1. exact Hlt.
      * subst x. inversion Hpre; subst. eapply Qlt_trans; eassumption.
    + apply Qltb_ge in Hlt.
      destruct (IH best) as (pre & post & E & Hpre & Hpost).
      destruct pre as [|x pre]; simpl in E; injection E as E1 E2.
      * subst post. exists [], (kv :: rest). rewrite <- E1 in Hpost |- *.
        split; [reflexivity|]. split; [constructor|].
        constructor; [exact Hlt|exact Hpost].
      * subst x. exists (best :: kv :: pre), post.
        split; [simpl; do 2 f_equal; exact E2|]. split; [|exact Hpost].
        inversion Hpre; subst.
        constructor; [assumption|].
        constructor; [|assumption]. eapply Qle_lt_trans; eassumption.
Qed.

Lemma votes_snoc ty done s :
  votes ty (done ++ [s])
  = (votes ty done + if bool_decide (mapping_get s = Some ty) then 1 else 0)%nat.
Proof.
  unfold votes. rewrite List.filter_app, length_app. simpl.
  destruct (bool_decide _); reflexivity.
Qed.

(** The score of an entity type is 0.9 times the number of semantic types
    mapped to it. *)
Lemma accumulate_scores rest :
  forall done scores,
    Forall (fun kv => snd kv == (9 # 10) * inject_Z (Z.of_nat (votes (fst kv) done)))
           scores ->
    Forall (fun kv => snd kv == (9 # 10) * inject_Z (Z.of_nat (votes (fst kv) (done ++ rest))))
           (accumulate rest scores).
Proof.
  induction rest as [|s rest IH]; intros done scores H; simpl.
  - rewrite app_nil_r. exact H.
  - replace (done ++ s :: rest) with ((done ++ [s]) ++ rest)
      by (rewrite <- app_assoc; reflexivity).
    destruct (mapping_get s) as [ty|] eqn:Hs; apply IH.
    + unfold add_score. apply List.Forall_map.
      eapply Forall_impl; [exact H|]. intros [k v] Hkv. simpl in *.
      rewrite votes_snoc, Hs.
      destruct (String.eqb k ty) eqn:Hk; simpl.
      * apply String.eqb_eq in Hk. subst k.
        rewrite bool_decide_eq_true_2 by reflexivity.
        rewrite Nat2Z.inj_add, inject_Z_plus, Hkv. simpl. ring.
      * apply String.eqb_neq in Hk.
        rewrite bool_decide_eq_false_2 by congruence.
        rewrite Nat.add_0_r. exact Hkv.
    + eapply Forall_impl; [exact H|]. intros [k v] Hkv. simpl in *.
      rewrite votes_snoc, Hs, bool_decide_eq_false_2 by discriminate.
      rewrite Nat.add_0_r. exact Hkv.
Qed.

Lemma score_lt (a b : nat) :
  (9 # 10) * inject_Z (Z.of_nat a) < (9 # 10) * inject_Z (Z.of_nat b) <->
  (a < b)%nat.
Proof.
  rewrite Qmult_lt_l by reflexivity. rewrite <- Zlt_Qlt. lia.
Qed.

Lemma score_le (a b : nat) :
  (9 # 10) * inject_Z (Z.of_nat a) <= (9 # 10) * inject_Z (Z.of_nat b) <->
  (a <= b)%nat.
Proof.
  rewrite Qmult_le_l by reflexivity. rewrite <- Zle_Qle. lia.
Qed.

(** X8. The mapping of semantic types is a majority vote. Each semantic
    type that the table knows is one vote for its entity type. Without any
    vote the result is UNKNOWN with confidence 0.5. Otherwise the result is
    the entity type with the most votes, the first in the order DISEASE,
    SYMPTOM, MEDICATION, ANATOMY on a tie, with confidence 0.9 for one vote
    and 0.95 for two or more. *)
Theorem map_semantic_type_majority :
  forall semantic_types : list string,
    let '(t, c) := _map_semantic_type_to_entity semantic_types in
    (Forall (fun ty => votes ty semantic_types = 0%nat) entity_order
     /\ t = "UNKNOWN" /\ c = 5 # 10)
    \/ (exists pre post,
          entity_order = pre ++ t :: post
          /\ (0 < votes t semantic_types)%nat
          /\ Forall (fun ty => (votes ty semantic_types
                                < votes t semantic_types)%nat) pre
          /\ Forall (fun ty => (votes ty semantic_types
                                <= votes t semantic_types)%nat) post
          /\ c == (if (votes t semantic_types =? 1)%nat
                   then 9 # 10 else 95 # 100)).
Proof.
  intros sts. unfold _map_semantic_type_to_entity.
  set (init := [("DISEASE", 0); ("SYMPTOM", 0); ("MEDICATION", 0);
                ("ANATOMY", 0)]).
  pose proof (accumulate_keys sts init) as Hk.
  assert (Hsc : Forall (fun kv => snd kv == (9 # 10)
                  * inject_Z (Z.of_nat (votes (fst kv) sts)))
                  (accumulate sts init)).
  { apply (accumulate_scores sts [] init).
    repeat constructor. }
  destruct (accumulate sts init) as [|kv rest]; [discriminate Hk|].
  destruct (max_key_spec rest kv) as (pre & post & E & Hpre & Hpost).
  rewrite E in Hk, Hsc.
  destruct (max_key kv rest) as [t best] eqn:Em. simpl in Hpre, Hpost.
  rewrite map_app in Hk. simpl in Hk.
  apply Forall_app in Hsc as [Hs1 Hs2].
  inversion Hs2 as [|? ? Hbest Hs3]; subst. simpl in Hbest.
  assert (Hpre' : Forall (fun ty => (votes ty sts < votes t sts)%nat)
                         (map fst pre)).
  { apply List.Forall_map. rewrite List.Forall_forall in *.
    intros x Hx. apply score_lt. rewrite <- Hbest, <- (Hs1 x Hx).
    apply Hpre. exact Hx. }
  assert (Hpost' : Forall (fun ty => (votes ty sts <= votes t sts)%nat)
                          (map fst post)).
  { apply List.Forall_map. rewrite List.Forall_forall in *.
    intros x Hx. apply score_le. rewrite <- Hbest, <- (Hs3 x Hx).
    apply Hpost. exact Hx. }
  destruct (Qltb 0 best) eqn:Hpos.
  - right. exists (map fst pre), (map fst post).
    apply Qltb_lt in Hpos. rewrite Hbest in Hpos.
    assert (Hv : (0 < votes t sts)%nat).
    { apply score_lt. eapply Qle_lt_trans; [|exact Hpos].
      unfold Qle. simpl. lia. }
    split; [symmetry; exact Hk|]. split; [exact Hv|].
    split; [exact Hpre'|]. split; [exact Hpost'|].
    unfold Qmin'.
    destruct (votes t sts =? 1)%nat eqn:H1.
    + apply Nat.eqb_eq in H1. rewrite H1 in Hbest.
      assert (Hle : Qle_bool best (95 # 100) = true).
      { apply Qle_bool_iff. rewrite Hbest. unfold Qle. simpl. lia. }
      rewrite Hle, Hbest. unfold Qeq. simpl. lia.
    + apply Nat.eqb_neq in H1.
      assert (Hle : Qle_bool best (95 # 100) = false).
      { apply Qle_bool_false. rewrite Hbest.
        apply Qlt_le_trans with ((9 # 10) * inject_Z (Z.of_nat 2));
          [unfold Qlt; simpl; lia|].
        apply score_le. lia. }
      rewrite Hle. reflexivity.
  - left. apply Qltb_ge in Hpos. rewrite Hbest in Hpos.
    assert (Hv : (votes t sts <= 0)%nat).
    { apply score_le. eapply Qle_trans; [exact Hpos|].
      unfold Qle. simpl. lia. }
    split; [|split; reflexivity].
    unfold entity_order. rewrite <- Hk.
    apply Forall_app. split; [|constructor].
    + eapply Forall_impl; [exact Hpre'|]. simpl. intros; lia.
    + lia.
    + eapply Forall_impl; [exact Hpost'|]. simpl. intros; lia.
Qed.

End SemanticTypes.

Section Similarity.
Import UMLSClient.

(** The share of common words of two terms that have one. *)
Lemma overlap_share (A B : gset string) :
  (0 < size (A ∩ B))%nat ->
  0 <= (Z.of_nat (size (A ∩ B)) # Pos.of_nat (size (A ∪ B)))
  /\ (Z.of_nat (size (A ∩ B)) # Pos.of_nat (size (A ∪ B))) <= 1.
Proof.
  intros Hpos.
  assert (Hle : (size (A ∩ B) <= size (A ∪ B))%nat)
    by (apply subseteq_size; intros x Hx;
        apply elem_of_intersection in Hx as [Hx _];
        apply elem_of_union; left; exact Hx).
  unfold Qle. simpl. split; [lia|].
  rewrite <- (positive_nat_Z (Pos.of_nat (size (A ∪ B)))).
  rewrite Nat2Pos.id by lia. lia.
Qed.

Lemma name_similarity_bounds term1 term2 :
  6 # 10 <= _calculate_name_similarity term1 term2
  /\ _calculate_name_similarity term1 term2 <= 1
  /\ (term1 <> term2 -> _calculate_name_similarity term1 term2 <= 9 # 10).
Proof.
  unfold _calculate_name_similarity.
  destruct (String.eqb term1 term2) eqn:He.
  { apply String.eqb_eq in He.
    split; [unfold Qle; simpl; lia|]. split; [apply Qle_refl|].
    intros H. contradiction. }
  destruct (Py.contains term1 term2 || Py.contains term2 term1).
  { repeat split; unfold Qle; simpl; lia. }
  destruct (0 <? size _)%nat eqn:Hpos.
  2:{ repeat split; unfold Qle; simpl; lia. }
  apply Nat.ltb_lt in Hpos.
  destruct (overlap_share _ _ Hpos) as [H0 H1].
  set (x := (Z.of_nat _ # Pos.of_nat _)) in *.
  assert (Hlo : 0 <= x * (2 # 10))
    by (apply Qmult_le_0_compat; [exact H0|unfold Qle; simpl; lia]).
  assert (Hhi : x * (2 # 10) <= 2 # 10).
  { apply Qle_trans with (1 * (2 # 10)).
    - apply Qmult_le_compat_r; [exact H1|unfold Qle; simpl; lia].
    - unfold Qle; simpl; lia. }
  assert (H9 : (7 # 10) + x * (2 # 10) <= 9 # 10).
  { apply Qle_trans with ((7 # 10) + (2 # 10)).
    - apply Qplus_le_r. exact Hhi.
    - unfold Qle; simpl; lia. }
  split; [|split].
  - apply Qle_trans with ((7 # 10) + 0); [unfold Qle; simpl; lia|].
    apply Qplus_le_r. exact Hlo.
  - eapply Qle_trans; [exact H9|]. unfold Qle; simpl; lia.
  - intros _. exact H9.
Qed.

(** X9. The name similarity of two terms lies between 0.6 and 1. It is 1
    for equal terms and at most 0.9 for different ones, and it does not
    depend on the order of the two terms. *)
Theorem name_similarity_range :
  forall term1 term2 : string,
    let s := _calculate_name_similarity term1 term2 in
    (6 # 10 <= s /\ s <= 1)
    /\ (term1 = term2 -> s = 1)
    /\ (term1 <> term2 -> s <= 9 # 10)
    /\ s = _calculate_name_similarity term2 term1.
Proof.
  intros term1 term2 s. subst s.
  destruct (name_similarity_bounds term1 term2) as (Hlo & Hhi & Hne).
  split; [split; assumption|]. split; [|split; [exact Hne|]].
  - intros ->. unfold _calculate_name_similarity.
    rewrite String.eqb_refl. reflexivity.
  - unfold _calculate_name_similarity.
    rewrite (String.eqb_sym term2 term1).
    rewrite (orb_comm (Py.contains term2 term1)).
    rewrite (comm_L (∩) (list_to_set (Py.split term2) : gset string)).
    rewrite (comm_L (∪) (list_to_set (Py.split term2) : gset string)).
    reflexivity.
Qed.

End Similarity.

(** ** The confidence of a lookup *)

Section LookupConfidence.
Import UMLSClient.

Lemma round_half_even_cases x :
  round_half_even x = Qfloor x
  \/ (round_half_even x = (Qfloor x + 1)%Z /\ inject_Z (Qfloor x) < x).
Proof.
  unfold round_half_even.
  destruct (Qltb (x - inject_Z (Qfloor x)) (1 # 2)) eqn:H1; [left; reflexivity|].
  apply Qltb_ge in H1.
  assert (Hx : inject_Z (Qfloor x) < x).
  { apply Qlt_minus_iff. eapply Qlt_le_trans; [|exact H1].
    unfold Qlt. simpl. lia. }
  destruct (Qltb (1 # 2) _); [right; split; [reflexivity|exact Hx]|].
  destruct (Z.even _); [left; reflexivity|right; split; [reflexivity|exact Hx]].
Qed.

(** Rounding to an integer does not cross an integer. *)
Lemma round_half_even_le x n : x <= inject_Z n -> (round_half_even x <= n)%Z.
Proof.
  intros Hx.
  assert (Hf : (Qfloor x <= n)%Z).
  { rewrite Zle_Qle. eapply Qle_trans; [apply Qfloor_le|exact Hx]. }
  destruct (round_half_even_cases x) as [->|[-> Hlt]]; [exact Hf|].
  assert (Qfloor x < n)%Z; [|lia].
  rewrite Zlt_Qlt. eapply Qlt_le_trans; eassumption.
Qed.

Lemma round_half_even_ge x n : inject_Z n <= x -> (n <= round_half_even x)%Z.
Proof.
  intros Hx.
  assert (Hf : (n <= Qfloor x)%Z).
  { rewrite <- (Qfloor_Z n). apply Qfloor_resp_le. exact Hx. }
  destruct (round_half_even_cases x) as [->|[-> _]]; lia.
Qed.

(** [round(x, 3)] keeps a value between two multiples of 1/1000 between
    them. *)
Lemma round3_between (lo hi : Z) x :
  lo # 1000 <= x -> x <= hi # 1000 ->
  lo # 1000 <= round3 x /\ round3 x <= hi # 1000.
Proof.
  intros Hlo Hhi. unfold round3.
  assert (H1 : inject_Z lo <= x * 1000).
  { apply Qle_trans with ((lo # 1000) * 1000).
    - unfold Qle. simpl. lia.
    - apply Qmult_le_compat_r; [exact Hlo|unfold Qle; simpl; lia]. }
  assert (H2 : x * 1000 <= inject_Z hi).
  { apply Qle_trans with ((hi # 1000) * 1000).
    - apply Qmult_le_compat_r; [exact Hhi|unfold Qle; simpl; lia].
    - unfold Qle. simpl. lia. }
  apply round_half_even_ge in H1. apply round_half_even_le in H2.
  unfold Qle. simpl. lia.
Qed.

Lemma map_semantic_type_confidence sts :
  0 <= snd (_map_semantic_type_to_entity sts)
  /\ snd (_map_semantic_type_to_entity sts) <= 95 # 100.
Proof.
  unfold _map_semantic_type_to_entity.
  destruct (match accumulate sts _ with [] => _ | kv :: rest => _ end)
    as [t best].
  destruct (Qltb 0 best) eqn:Hpos; simpl.
  - apply Qltb_lt in Hpos. unfold Qmin'.
    destruct (Qle_bool best (95 # 100)) eqn:Hle.
    + apply Qle_bool_iff in Hle. split; [apply Qlt_le_weak; exact Hpos|exact Hle].
    + split; unfold Qle; simpl; lia.
  - split; unfold Qle; simpl; lia.
Qed.

(** A remote lookup that returns gives a confidence between 0 and 0.95. *)
Lemma lookup_remote_confidence term w :
  match fst (lookup_remote term w) with
  | inr r => 0 <= res_confidence r /\ res_confidence r <= 95 # 100
  | inl _ => True
  end.
Proof.
  unfold lookup_remote. rewrite bind_eq.
  destruct (_search_umls_concept term w) as [[e|rs] wa]; [exact I|].
  destruct rs as [|best rest].
  - rewrite bind_eq, cache_result_eq. simpl. split; unfold Qle; simpl; lia.
  - rewrite bind_eq.
    destruct (_get_concept_details (field_get (ui best) "") wa)
      as [[e|cd] wb]; [exact I|].
    pose proof (map_semantic_type_confidence
                  match cd with
                  | Some sem_types => extract_tcodes sem_types
                  | None => []
                  end) as [Hb0 Hb1].
    destruct (_map_semantic_type_to_entity _) as [ety bc]. simpl in Hb0, Hb1.
    rewrite bind_eq.
    destruct (field_get (name best) "") as [nm|]; simpl lower_opt;
      [|exact I].
    unfold ret at 1. cbv beta iota. rewrite bind_eq, cache_result_eq.
    simpl.
    destruct (name_similarity_bounds (Py.lower term) (Py.lower nm))
      as (Hs0 & Hs1 & _).
    set (sim := _calculate_name_similarity _ _) in *.
    destruct (round3_between 0 950 (bc * sim)) as [R0 R1].
    + apply Qle_trans with 0; [unfold Qle; simpl; lia|].
      apply Qmult_le_0_compat; [exact Hb0|].
      eapply Qle_trans; [|exact Hs0]. unfold Qle; simpl; lia.
    + apply Qle_trans with ((95 # 100) * 1); [|unfold Qle; simpl; lia].
      apply Qle_trans with ((95 # 100) * sim).
      * apply Qmult_le_compat_r; [exact Hb1|].
        eapply Qle_trans; [|exact Hs0]. unfold Qle; simpl; lia.
      * apply Qmult_le_l; [unfold Qlt; simpl; lia|exact Hs1].
    + split.
      * eapply Qle_trans; [|exact R0]. unfold Qle; simpl; lia.
      * eapply Qle_trans; [exact R1|]. unfold Qle; simpl; lia.
Qed.

Lemma cache_bounded_frame w w' :
  net_frame w w' -> cache_bounded w -> cache_bounded w'.
Proof. intros (_&_&_&_&Hc) Hv. unfold cache_bounded. rewrite Hc. exact Hv. Qed.

Lemma lookup_term_bounded term w :
  cache_bounded w ->
  exists (r : Result) (w' : World),
    lookup_term term w = (inr r, w')
    /\ kb_confidence (res_confidence r) /\ cache_bounded w'.
Proof.
  intros Hu. unfold lookup_term. rewrite bind_eq.
  rewrite get_cached_result_eq. cbv beta iota.
  assert (Hmiss : exists r w',
    (key ← get env_api_key;
     if negb (opt_truthy key) then ret no_key_result
     else try_except (lookup_remote term) (fun e => ret (error_result e))) w
    = (inr r, w')
    /\ kb_confidence (res_confidence r) /\ cache_bounded w').
  { rewrite bind_eq. unfold get. cbv beta iota.
    destruct (negb _).
    - eexists _, _. split; [reflexivity|]. simpl.
      split; [split; unfold Qle; simpl; lia|exact Hu].
    - unfold try_except.
      pose proof (lookup_remote_confidence term w) as Hc.
      pose proof (lookup_remote_valid term w) as Hr.
      pose proof (lookup_remote_stores term w) as Hst.
      destruct (lookup_remote term w) as [[e|r] w1]; simpl in Hc.
      + eexists _, _. split; [reflexivity|]. simpl.
        split; [split; unfold Qle; simpl; lia|].
        eapply cache_bounded_frame; eassumption.
      + eexists _, _. split; [reflexivity|]. split; [exact Hc|].
        destruct (Hst r w1 eq_refl) as (w' & Hf & ->).
        pose proof (cache_bounded_frame _ _ Hf Hu) as Hu'.
        destruct (use_cache w'); [|exact Hu'].
        unfold cache_bounded. simpl.
        apply map_Forall_insert_2; [exact Hc|exact Hu']. }
  destruct (use_cache w); [|exact Hmiss].
  destruct (cache w !! cache_key term) as [row|] eqn:Hrow; [|exact Hmiss].
  destruct (row_live (clock w) row); [|exact Hmiss].
  eexists _, _. split; [reflexivity|].
  split; [exact (Hu _ _ Hrow)|exact Hu].
Qed.

(** X10. The confidence of a lookup result lies between 0 and 0.95, and
    every row a lookup writes to the cache holds such a confidence: on a
    cache whose rows lie in that range, as the rows the client writes do,
    every lookup returns a confidence in that range and leaves such a
    cache. A result that does not come from the cache lies in that range
    whatever the cache holds. *)
Theorem lookup_confidence_range :
  forall (term : string) (w : World),
    (cache_bounded w ->
     exists (r : Result) (w' : World),
       lookup_term term w = (inr r, w')
       /\ kb_confidence (res_confidence r) /\ cache_bounded w')
    /\ (fst (_get_cached_result term w) = inr None ->
        exists (r : Result) (w' : World),
          lookup_term term w = (inr r, w')
          /\ kb_confidence (res_confidence r)).
Proof.
  intros term w. split; [apply lookup_term_bounded|].
  intros Hmiss.
  destruct (lookup_term_bounded term (set_cache ∅ w))
    as (r & w' & E & Hr & _); [apply map_Forall_empty|].
  destruct (lookup_miss_cache term w) as (r0 & wn & upd & _ & _ & H).
  pose proof (H ∅) as H1. pose proof (H (cache w)) as H2.
  rewrite set_cache_id in H2. rewrite H2 by exact Hmiss.
  rewrite H1 in E.
  - injection E as <- _. eexists _, _. split; [reflexivity|exact Hr].
  - rewrite get_cached_result_eq. simpl.
    destruct (use_cache w); reflexivity.
Qed.

End LookupConfidence.

(** ** The candidates *)

Lemma unique_candidates_spec l :
  forall seen,
    let out := unique_candidates seen l in
    Forall (fun c => cand_key c ∉ seen) out
    /\ NoDup (map cand_key out)
    /\ sublist out l
    /\ (forall c, c ∈ l -> cand_key c ∉ seen ->
          exists c', c' ∈ out /\ cand_key c' = cand_key c)
    /\ (forall c', c' ∈ out ->
          exists pre post,
            l = pre ++ c' :: post
            /\ Forall (fun x => cand_key x <> cand_key c') pre).
Proof.
  induction l as [|cand rest IH]; intros seen; simpl.
  { split; [constructor|]. split; [constructor|]. split; [constructor|].
    split; [intros c Hc; inversion Hc|intros c Hc; inversion Hc]. }
  fold (cand_key cand).
  destruct (bool_decide (cand_key cand ∈ seen)) eqn:Hk.
  - apply bool_decide_eq_true in Hk.
    destruct (IH seen) as (Ha & Hb & Hc & Hd & He).
    split; [exact Ha|]. split; [exact Hb|].
    split; [apply sublist_cons; exact Hc|]. split.
    + intros c Hin Hns. apply elem_of_cons in Hin as [->|Hin];
        [contradiction|]. apply Hd; assumption.
    + intros c' Hin. destruct (He c' Hin) as (pre & post & -> & Hp).
      exists (cand :: pre), post. split; [reflexivity|].
      constructor; [|exact Hp]. intros Heq.
      rewrite Forall_forall in Ha. apply (Ha c' Hin).
      rewrite <- Heq. exact Hk.
  - apply bool_decide_eq_false in Hk.
    destruct (IH ({[cand_key cand]} ∪ seen)) as (Ha & Hb & Hc & Hd & He).
    assert (Ha' : Forall (fun c => cand_key c <> cand_key cand
                                   /\ cand_key c ∉ seen)
                         (unique_candidates ({[cand_key cand]} ∪ seen) rest)).
    { eapply Forall_impl; [exact Ha|]. intros c Hc'. simpl in Hc'.
      apply not_elem_of_union in Hc' as [H1 H2].
      split; [|exact H2]. intros Heq. apply H1. rewrite Heq.
      apply elem_of_singleton. reflexivity. }
    rewrite Forall_forall in Ha'.
    split; [|split; [|split; [|split]]].
    + constructor; [exact Hk|]. apply Forall_forall. intros c Hin.
      apply (Ha' c Hin).
    + simpl. apply NoDup_cons. split; [|exact Hb].
      intros Hin. apply list_elem_of_In, in_map_iff in Hin as (c & Heq & Hin).
      apply list_elem_of_In in Hin. destruct (Ha' c Hin) as [Hne _].
      contradiction.
    + apply sublist_skip. exact Hc.
    + intros c Hin Hns. apply elem_of_cons in Hin as [->|Hin].
      * exists cand. split; [apply list_elem_of_here|reflexivity].
      * destruct (decide (cand_key c = cand_key cand)) as [Heq|Hne].
        -- exists cand. split; [apply list_elem_of_here|symmetry; exact Heq].
        -- destruct (Hd c Hin) as (c' & Hc' & Hkey).
           { intros Hu. apply elem_of_union in Hu as [Hu|Hu];
               [|contradiction].
             apply elem_of_singleton in Hu. contradiction. }
           exists c'. split; [apply list_elem_of_further; exact Hc'|exact Hkey].
    + intros c' Hin. apply elem_of_cons in Hin as [->|Hin].
      * exists [], rest. split; [reflexivity|constructor].
      * destruct (He c' Hin) as (pre & post & -> & Hp).
        exists (cand :: pre), post. split; [reflexivity|].
        constructor; [|exact Hp]. intros Heq.
        destruct (Ha' c' Hin) as [Hne _]. congruence.
Qed.

(** X11. The removal of duplicate candidates. The candidates that are kept
    have pairwise different keys (lower-cased text and start offset); they
    are a subsequence of the candidates found, in the same order; every
    candidate found has a kept candidate with its key; and a kept candidate
    is the first one found with its key. ([_extract_entity_candidates] lists
    the spans of the tagger before those of the regular expressions, so on
    equal keys the span of the tagger is the one kept.) *)
Theorem unique_candidates_first :
  forall found : list Candidate,
    let kept := unique_candidates ∅ found in
    NoDup (map cand_key kept)
    /\ sublist kept found
    /\ (forall c, c ∈ found ->
          exists c', c' ∈ kept /\ cand_key c' = cand_key c)
    /\ (forall c', c' ∈ kept ->
          exists pre post,
            found = pre ++ c' :: post
            /\ Forall (fun x => cand_key x <> cand_key c') pre).
Proof.
  intros found kept.
  destruct (unique_candidates_spec found ∅) as (_ & Hb & Hc & Hd & He).
  split; [exact Hb|]. split; [exact Hc|]. split; [|exact He].
  intros c Hin. apply Hd; [exact Hin|]. apply not_elem_of_empty.
Qed.




(** ** Rules before the knowledge base *)

Section RuleFirst.
Import RuleBasedClassifier.

Lemma classify_group_values ty ps t :
  match classify_group ty ps t with
  | Some (ot, c) => ot = Some ty /\ (c = 95 # 100 \/ c = 85 # 100)
  | None => True
  end.
Proof.
  induction ps as [|p ps IH]; simpl; [exact I|].
  destruct (pattern_search p t); [|exact IH].
  split; [reflexivity|]. destruct (pattern_fullmatch p t); auto.
Qed.

Lemma classify_groups_values groups t :
  match classify_groups groups t with
  | (Some ty, c) => In ty (map fst groups) /\ (c = 95 # 100 \/ c = 85 # 100)
  | (None, c) => c = 0
  end.
Proof.
  induction groups as [|[ty ps] groups IH]; simpl; [reflexivity|].
  pose proof (classify_group_values ty ps t) as Hg.
  destruct (classify_group ty ps t) as [[ot c]|].
  - destruct Hg as [-> Hc]. split; [left; reflexivity|exact Hc].
  - destruct (classify_groups groups t) as [[ty'|] c]; [|exact IH].
    destruct IH as [Hin Hc]. split; [right; exact Hin|exact Hc].
Qed.

(** The rule classifier answers with a type other than UNKNOWN and the
    confidence 0.95 or 0.85, or with no type and the confidence 0. *)
Lemma classify_values text :
  match classify text with
  | (Some ty, c) => ty <> UNKNOWN /\ (c = 95 # 100 \/ c = 85 # 100)
  | (None, c) => c = 0
  end.
Proof.
  unfold classify.
  pose proof (classify_groups_values compiled_patterns
                (Py.strip (Py.lower text))) as H.
  destruct (classify_groups _ _) as [[ty|] c]; [|exact H].
  destruct H as [Hin Hc]. split; [|exact Hc].
  simpl in Hin. intros ->.
  repeat (destruct Hin as [Hin|Hin]; [discriminate Hin|]). contradiction.
Qed.

Lemma fuse_rule cfg text w t c :
  classify text = (Some t, c) -> fuse cfg text w = (inr (Some t, c, None), w).
Proof.
  intros E. unfold fuse. pose proof (classify_values text) as Hv.
  rewrite E in *. destruct Hv as [_ Hc].
  rewrite bool_decide_eq_false_2 by discriminate. simpl.
  assert (Qltb c (8 # 10) = false) as ->; [|reflexivity].
  apply Qltb_ge. destruct Hc as [->| ->]; unfold Qle; simpl; lia.
Qed.

Lemma classify_candidate_rule cfg cand w e :
  rule_entity cand = Some e ->
  classify_candidate cfg cand w = (inr (Some e), w).
Proof.
  unfold rule_entity, classify_candidate. intros H.
  destruct (classify (c_text cand)) as [[t|] c] eqn:E; [|discriminate H].
  rewrite bind_eq, (fuse_rule _ _ _ _ _ E). injection H as <-. reflexivity.
Qed.

Lemma classify_candidate_offline cfg cand w :
  ENABLE_UMLS cfg = false ->
  classify_candidate cfg cand w = (inr (rule_entity cand), w).
Proof.
  intros Hoff. destruct (rule_entity cand) as [e|] eqn:He;
    [apply classify_candidate_rule; exact He|].
  unfold rule_entity in He. unfold classify_candidate, fuse.
  rewrite bind_eq. destruct (classify (c_text cand)) as [[t|] c];
    [discriminate He|].
  rewrite bool_decide_eq_true_2 by reflexivity. simpl. rewrite Hoff.
  reflexivity.
Qed.

(** X13. Rules come before the knowledge base. A candidate that a rule
    matches becomes an entity with the rule's type, never UNKNOWN, and the
    rule's confidence 0.95 or 0.85 times the candidate's score, without a
    lookup and without any change of state: the test [confidence < 0.8]
    never sends a rule match to the knowledge base. A candidate that no rule
    matches is dropped when the knowledge base is switched off; else it is
    looked up, and it becomes an entity only when the result has a positive
    confidence. *)
Theorem rule_match_skips_lookup :
  forall (cfg : NERConfig) (cand : Candidate) (w : World),
    match classify (c_text cand) with
    | (Some t, c) =>
        t <> UNKNOWN /\ (c = 95 # 100 \/ c = 85 # 100)
        /\ classify_candidate cfg cand w = (inr (rule_entity cand), w)
    | (None, c) =>
        c = 0
        /\ (ENABLE_UMLS cfg = false ->
            classify_candidate cfg cand w = (inr None, w))
        /\ (ENABLE_UMLS cfg = true ->
            forall r w',
              UMLSClient.lookup_term (c_text cand) w = (inr r, w') ->
              classify_candidate cfg cand w = (kb_entity cand r, w'))
    end.
Proof.
  intros cfg cand w. pose proof (classify_values (c_text cand)) as Hv.
  destruct (classify (c_text cand)) as [[t|] c] eqn:E.
  - destruct Hv as [Ht Hc]. split; [exact Ht|]. split; [exact Hc|].
    destruct (rule_entity cand) as [e|] eqn:Hr.
    + apply classify_candidate_rule. exact Hr.
    + unfold rule_entity in Hr. rewrite E in Hr. discriminate Hr.
  - split; [exact Hv|]. split.
    + intros Hoff. rewrite (classify_candidate_offline _ _ _ Hoff).
      unfold rule_entity. rewrite E. reflexivity.
    + intros Hon r w' Hl. unfold classify_candidate, fuse.
      rewrite bind_eq, E, Hon.
      rewrite bool_decide_eq_true_2 by reflexivity. simpl.
      rewrite bind_eq, Hl. cbv beta iota. subst c. unfold kb_entity.
      destruct (Qltb 0 (res_confidence r)); [|reflexivity].
      destruct (EntityType_of_name (res_entity_type r)); reflexivity.
Qed.

Lemma classify_entities_rule_only cfg cands :
  ENABLE_UMLS cfg = false
  \/ Forall (fun c => is_Some (fst (classify (c_text c)))) cands ->
  forall w, _classify_entities cfg cands w = (inr (omap rule_entity cands), w).
Proof.
  intros H w. induction cands as [|cand rest IH]; [reflexivity|].
  cbn [_classify_entities]. rewrite bind_eq.
  assert (Hc : classify_candidate cfg cand w = (inr (rule_entity cand), w)).
  { destruct H as [Hoff|Hall]; [apply classify_candidate_offline; exact Hoff|].
    inversion Hall as [|? ? [t Ht] _]; subst.
    destruct (rule_entity cand) as [e|] eqn:He;
      [apply classify_candidate_rule; exact He|].
    unfold rule_entity in He.
    destruct (classify (c_text cand)) as [[t'|] c]; simpl in Ht; discriminate. }
  rewrite Hc. cbv beta iota. rewrite bind_eq, IH.
  - simpl. destruct (rule_entity cand); reflexivity.
  - destruct H as [Hoff|Hall]; [left; exact Hoff|right].
    inversion Hall; assumption.
Qed.

End RuleFirst.

(** A property of the fields post-processing and the gate never write is
    kept by both. *)
Lemma pipeline_core_Forall (Q : MedicalEntity -> Prop) cfg es original :
  (forall a b, same_core a b -> Q a -> Q b) ->
  Forall Q es ->
  Forall Q (_filter_by_confidence cfg (_postprocess_entities es original)).
Proof.
  intros HQ H.
  assert (Hp : Forall Q (_postprocess_entities es original)).
  { pose proof (postprocess_loop_same_core original (length es) 0 es) as HF.
    fold (_postprocess_entities es original) in HF.
    induction HF as [|a b l k Hab _ IH]; [constructor|].
    inversion H; subst. constructor; [eapply HQ; eassumption|auto]. }
  induction Hp as [|e l He _ IH]; simpl; [constructor|].
  assert (Hm : forall v, Q (metadata_set "review_status" v e)).
  { intros v. eapply HQ; [|exact He]. repeat split. }
  destruct (Qle_bool _ _); [constructor; [apply Hm|exact IH]|].
  destruct (Qle_bool _ _); [constructor; [apply Hm|exact IH]|exact IH].
Qed.

(** X14. Extraction without the knowledge base. When the knowledge base is
    switched off, or a rule matches every candidate of the text, extraction
    and document processing return without a request, without reading or
    writing the cache and without any other change of state, and their
    result is the same in every state of the client and of the network.
    Every entity then has the type of a rule, never UNKNOWN, and no UMLS
    code. *)
Theorem extraction_without_lookup :
  forall (p : Pipeline) (text : string),
    needs_no_lookup p text ->
    exists es : list MedicalEntity,
      (forall w : World,
         extract_entities p text w = (inr es, w)
         /\ process_document p text w = (inr (build_output text es), w))
      /\ Forall (fun e => type e <> UNKNOWN /\ umls_code e = None) es.
Proof.
  intros p text H.
  set (cands := _extract_entity_candidates p (_preprocess_text text)).
  exists (_filter_by_confidence (config p)
            (_postprocess_entities (omap rule_entity cands) text)).
  assert (He : forall w, extract_entities p text w
    = (inr (_filter_by_confidence (config p)
              (_postprocess_entities (omap rule_entity cands) text)), w)).
  { intros w. unfold extract_entities. rewrite bind_eq.
    fold cands. rewrite (classify_entities_rule_only (config p) cands H).
    reflexivity. }
  split.
  - intros w. split; [apply He|].
    unfold process_document. rewrite bind_eq, He. reflexivity.
  - apply pipeline_core_Forall.
    + intros a b (_ & Ht & _ & _ & _ & Hu) [Ha Hb]. split; congruence.
    + clear He H. induction cands as [|cand rest IH]; [constructor|].
      simpl. destruct (rule_entity cand) as [e|] eqn:E; [|exact IH].
      constructor; [|exact IH]. unfold rule_entity in E.
      pose proof (classify_values (c_text cand)) as Hv.
      destruct (RuleBasedClassifier.classify (c_text cand)) as [[t|] c];
        [|discriminate E].
      injection E as <-. simpl. split; [apply Hv|reflexivity].
Qed.

Lemma extraction_without_lookup_witness :
  exists es : list MedicalEntity,
    forall w : World,
      extract_entities offline_pipeline "pt has fever" w = (inr es, w)
      /\ process_document offline_pipeline "pt has fever" w
         = (inr (build_output "pt has fever" es), w).
Proof.
  destruct (extraction_without_lookup offline_pipeline "pt has fever")
    as (es & H & _).
  - left. reflexivity.
  - exists es. exact H.
Defined.

(** ** Post-processing and the gate *)

Lemma postprocess_entity_shape e es original :
  postprocessed original e (postprocess_entity e es original).
Proof.
  split; [apply postprocess_entity_core|].
  unfold postprocess_entity, context_of.
  destruct (bool_decide (type e = MEDICATION)) eqn:Hm.
  - apply bool_decide_eq_true in Hm.
    rewrite bool_decide_eq_false_2 by (simpl; congruence).
    split; [reflexivity|]. split; [apply metadata_set_get|].
    intros _ k Hk. unfold metadata_get, metadata_set. simpl.
    rewrite lookup_insert_ne by congruence.
    destruct (metadata e); [reflexivity|apply lookup_empty].
  - destruct (bool_decide (type e = DOSAGE)) eqn:Hd.
    + apply bool_decide_eq_true in Hd.
      destruct (_find_nearest_medication e es);
        (split; [reflexivity|]); (split; [apply metadata_set_get|]);
        intros Hne; contradiction.
    + split; [reflexivity|]. split; [apply metadata_set_get|].
      intros _ k Hk. unfold metadata_get, metadata_set. simpl.
      rewrite lookup_insert_ne by congruence.
      destruct (metadata e); [reflexivity|apply lookup_empty].
Qed.

(** X15. Post-processing keeps the entities, one for one and in their
    order, and never changes the text, type, offsets, confidence or code of
    an entity. It gives every MEDICATION its normalized name and leaves the
    normalized name of any other entity alone; it records for every entity
    the context window of 20 characters around its offsets, cut from the
    text it is given; and apart from the context it changes the metadata of
    DOSAGE entities only. *)
Theorem postprocess_entities_shape :
  forall (es : list MedicalEntity) (original : string),
    Forall2 (postprocessed original) es (_postprocess_entities es original).
Proof.
  intros es original.
  pose proof (postprocess_loop_same_core original (length es) 0 es) as HF.
  fold (_postprocess_entities es original) in HF.
  apply Forall2_same_length_lookup_2; [eapply Forall2_length; exact HF|].
  intros i e e' Hi Hi'.
  destruct (postprocess_loop_at original (length es) 0 es i e Hi)
    as (es_i & _ & Hl).
  { apply lookup_lt_Some in Hi. lia. }
  fold (_postprocess_entities es original) in Hl.
  rewrite Hi' in Hl. injection Hl as ->. apply postprocess_entity_shape.
Qed.

Lemma odict_get_cons {V} k k' (v : V) d :
  odict_get k ((k', v) :: d)
  = if String.eqb k' k then Some v else odict_get k d.
Proof. unfold odict_get. simpl. destruct (String.eqb k' k); reflexivity. Qed.

(** X16. The normalization of drug names does not depend on the case of a
    brand name it knows, leaves every other name as it is written, and is
    idempotent: a normalized name is normalized to itself. *)
Theorem normalize_drug_name_idempotent :
  forall drug_name : string,
    _normalize_drug_name (_normalize_drug_name drug_name)
    = _normalize_drug_name drug_name
    /\ (forall generic other,
          odict_get (Py.lower drug_name) brand_to_generic = Some generic ->
          Py.lower other = Py.lower drug_name ->
          _normalize_drug_name other = generic)
    /\ (odict_get (Py.lower drug_name) brand_to_generic = None ->
        _normalize_drug_name drug_name = drug_name).
Proof.
  intros drug_name. unfold _normalize_drug_name.
  split; [|split].
  - destruct (odict_get (Py.lower drug_name) brand_to_generic) as [g|] eqn:E;
      simpl; [|rewrite E; reflexivity].
    unfold brand_to_generic in E.
    repeat (rewrite odict_get_cons in E;
            match type of E with
            | context [String.eqb ?a ?b] =>
                destruct (String.eqb a b);
                [injection E as <-; vm_compute; reflexivity|]
            end).
    discriminate E.
  - intros generic other E Hl. rewrite Hl, E. reflexivity.
  - intros E. rewrite E. reflexivity.
Qed.

Lemma metadata_set_twice k v e :
  metadata_set k v (metadata_set k v e) = metadata_set k v e.
Proof.
  unfold metadata_set, set_metadata. simpl.
  rewrite insert_insert_eq. reflexivity.
Qed.

Lemma metadata_set_gated v e : gated e (metadata_set "review_status" v e).
Proof.
  split; [repeat split|]. split; [reflexivity|].
  intros k Hk. unfold metadata_get, metadata_set. simpl.
  rewrite lookup_insert_ne by congruence.
  destruct (metadata e); [reflexivity|apply lookup_empty].
Qed.

(** X17. The gate keeps a subsequence of the entities, in their order, and
    changes nothing of an entity it keeps but its review status; run on its
    own output it changes nothing. *)
Theorem filter_by_confidence_stable :
  forall (cfg : NERConfig) (es : list MedicalEntity),
    (exists kept : list MedicalEntity,
       sublist kept es
       /\ Forall2 gated kept (_filter_by_confidence cfg es))
    /\ _filter_by_confidence cfg (_filter_by_confidence cfg es)
       = _filter_by_confidence cfg es.
Proof.
  intros cfg es. split.
  - induction es as [|e es (kept & Hs & HF)]; simpl.
    + exists []. split; constructor.
    + destruct (Qle_bool _ _).
      * exists (e :: kept). split; [apply sublist_skip; exact Hs|].
        constructor; [apply metadata_set_gated|exact HF].
      * destruct (Qle_bool _ _).
        -- exists (e :: kept). split; [apply sublist_skip; exact Hs|].
           constructor; [apply metadata_set_gated|exact HF].
        -- exists kept. split; [apply sublist_cons; exact Hs|exact HF].
  - induction es as [|e es IH]; simpl; [reflexivity|].
    destruct (Qle_bool (AUTO_ACCEPT_THRESHOLD cfg) (confidence e)) eqn:E1.
    + cbn [_filter_by_confidence].
      rewrite metadata_set_confidence, E1, IH, metadata_set_twice.
      reflexivity.
    + destruct (Qle_bool (REVIEW_THRESHOLD cfg) (confidence e)) eqn:E2;
        [|exact IH].
      cbn [_filter_by_confidence].
      rewrite metadata_set_confidence, E1, E2, IH, metadata_set_twice.
      reflexivity.
Qed.

(** ** The document result *)

Lemma process_document_extract p text w out w' :
  process_document p text w = (inr out, w') ->
  exists classified,
    _classify_entities (config p)
      (_extract_entity_candidates p (_preprocess_text text)) w
    = (inr classified, w')
    /\ out = build_output text
               (_filter_by_confidence (config p)
                  (_postprocess_entities classified text)).
Proof.
  unfold process_document, extract_entities. rewrite !bind_eq.
  destruct (_classify_entities _ _ w) as [[ex|classified] w1];
    [discriminate|].
  unfold mret, M_ret, ret. intros [= <- <-].
  exists classified. split; reflexivity.
Qed.

Lemma count_cons {A} (f : A -> bool) x l :
  count f (x :: l) = ((if f x then 1 else 0) + count f l)%nat.
Proof. unfold count. simpl. destruct (f x); reflexivity. Qed.

(** Two tests of which exactly one holds for every element count the whole
    list between them. *)
Lemma count_split {A} (f g : A -> bool) l :
  Forall (fun x => f x = negb (g x)) l ->
  (count f l + count g l = length l)%nat.
Proof.
  induction 1 as [|x l Hx _ IH]; [reflexivity|].
  rewrite !count_cons, Hx. simpl length. destruct (g x); simpl; lia.
Qed.

Lemma filter_by_confidence_status cfg es :
  Forall (fun e => has_status "auto_accepted" e
                   = negb (has_status "needs_review" e))
         (_filter_by_confidence cfg es).
Proof.
  induction es as [|e es IH]; simpl; [constructor|].
  destruct (Qle_bool _ _).
  { constructor; [|exact IH]. unfold has_status.
    rewrite !metadata_set_get. reflexivity. }
  destruct (Qle_bool _ _); [|exact IH].
  constructor; [|exact IH]. unfold has_status.
  rewrite !metadata_set_get. reflexivity.
Qed.

(** The three bins of the confidence summary: every confidence falls in
    exactly one. *)
Lemma confidence_bins (es : list MedicalEntity) :
  (count (fun e => Qle_bool (9 # 10) (confidence e)) es
   + count (fun e => Qle_bool (7 # 10) (confidence e)
                     && Qltb (confidence e) (9 # 10)) es
   + count (fun e => Qltb (confidence e) (7 # 10)) es
   = length es)%nat.
Proof.
  induction es as [|e es IH]; [reflexivity|].
  rewrite !count_cons. simpl length. unfold Qltb in *.
  destruct (Qle_bool (9 # 10) (confidence e)) eqn:H9.
  - assert (Qle_bool (7 # 10) (confidence e) = true) as ->.
    { apply Qle_bool_iff. apply Qle_bool_iff in H9.
      eapply Qle_trans; [|exact H9]. unfold Qle. simpl. lia. }
    simpl. lia.
  - destruct (Qle_bool (7 # 10) (confidence e)); simpl; lia.
Qed.

Lemma odict_set_length {V} k (v : V) d :
  (length (odict_set k v d) <= S (length d))%nat.
Proof.
  induction d as [|[k' v'] d IH]; simpl; [lia|].
  destruct (String.eqb k' k); simpl; lia.
Qed.

Lemma group_entity_total g e :
  (bucket_total (group_entity g e) <= S (bucket_total g))%nat.
Proof.
  unfold group_entity, bucket_total.
  destruct (type e); simpl; rewrite ?length_app; simpl; try lia.
  - pose proof (odict_set_length (text e)
      (mkMed (text e) (normalized_text e) (confidence e)
             (start_pos e, end_pos e) None (umls_code e))
      (medications_with_dosage g)). lia.
  - destruct (metadata_get "linked_medication" e) as [lm|];
      [|simpl; rewrite length_app; simpl; lia].
    destruct (if Py.truthy lm then odict_get lm (medications_with_dosage g)
              else None) as [rec|];
      simpl; [|rewrite length_app; simpl; lia].
    pose proof (odict_set_length lm (set_dosage (text e) rec)
                  (medications_with_dosage g)). lia.
Qed.

Lemma fold_group_total l :
  forall g,
    (bucket_total (fold_left group_entity l g) <= bucket_total g + length l)%nat.
Proof.
  induction l as [|e l IH]; intros g; simpl; [lia|].
  pose proof (IH (group_entity g e)). pose proof (group_entity_total g e). lia.
Qed.

(** X18. The counts of the document result are consistent. The three bins
    of the confidence summary (high from 0.9, medium from 0.7, low below)
    add up to the number of entities; so do the entities that were accepted
    automatically and those that need a review; the buckets together, with
    one entry for each medication record, never hold more entries than there
    are entities; and the text length is the length of the text given, not
    of the normalized text. *)
Theorem process_document_statistics :
  forall (p : Pipeline) (text : string) (w w' : World) (out : Output),
    process_document p text w = (inr out, w') ->
    let '(high, medium, low) := confidence_summary out in
    (high + medium + low = total_entities out)%nat
    /\ (n_auto_accepted (statistics out) + n_needs_review (statistics out)
        = total_entities out)%nat
    /\ (n_diseases (statistics out) + n_symptoms (statistics out)
        + n_medications (statistics out)
        + length (dosages (entities out)) + length (anatomy (entities out))
        + length (unclassified (entities out))
        <= total_entities out)%nat
    /\ text_length out = Py.len text.
Proof.
  intros p text w w' out H.
  apply process_document_extract in H as (classified & _ & ->).
  set (es := _filter_by_confidence (config p)
               (_postprocess_entities classified text)).
  unfold build_output. cbn [confidence_summary total_entities statistics
    n_auto_accepted n_needs_review n_diseases n_symptoms n_medications
    entities text_length].
  split; [apply confidence_bins|].
  split; [apply count_split, filter_by_confidence_status|].
  split; [|reflexivity].
  pose proof (fold_group_total es empty_grouped) as Ht.
  fold (group_entities es) in Ht. unfold bucket_total in Ht. simpl in Ht.
  rewrite length_map. lia.
Qed.

Lemma process_document_statistics_witness :
  exists out w',
    process_document regex_pipeline "pt has fever" quiet_world = (inr out, w')
    /\ (n_auto_accepted (statistics out) + n_needs_review (statistics out)
        = total_entities out)%nat.
Proof.
  destruct (process_document regex_pipeline "pt has fever" quiet_world)
    as [[e|out] w'] eqn:E; [vm_compute in E; discriminate E|].
  exists out, w'. split; [reflexivity|].
  pose proof (process_document_statistics _ _ _ _ _ E) as H.
  destruct (confidence_summary out) as [[high medium] low].
  apply H.
Defined.

(** *** The medication records *)

Lemma odict_set_keys_in {V} k (v : V) d :
  In k (map fst d) -> map fst (odict_set k v d) = map fst d.
Proof.
  induction d as [|[k' v'] d IH]; simpl; [intros []|].
  destruct (String.eqb k' k) eqn:E.
  - apply String.eqb_eq in E. subst k'. reflexivity.
  - apply String.eqb_neq in E. intros [H|H]; [contradiction|].
    simpl. rewrite IH by exact H. reflexivity.
Qed.

Lemma odict_set_keys_new {V} k (v : V) d :
  ~ In k (map fst d) -> map fst (odict_set k v d) = map fst d ++ [k].
Proof.
  induction d as [|[k' v'] d IH]; simpl; [reflexivity|].
  intros H. destruct (String.eqb k' k) eqn:E.
  - apply String.eqb_eq in E. tauto.
  - simpl. rewrite IH by tauto. reflexivity.
Qed.

Lemma odict_set_Forall_ne {V} (P : string * V -> Prop) k v
    (d : list (string * V)) :
  NoDup (map fst d) ->
  P (k, v) -> Forall (fun kv => fst kv <> k -> P kv) d ->
  Forall P (odict_set k v d).
Proof.
  intros Hnd Hv H. induction H as [|[k' v'] d Hx Hd IH]; simpl.
  - constructor; [exact Hv|constructor].
  - simpl in Hnd. apply NoDup_cons in Hnd as [Hnot Hnd].
    destruct (String.eqb k' k) eqn:E.
    + apply String.eqb_eq in E. subst k'. constructor; [exact Hv|].
      apply List.Forall_forall. intros kv Hin.
      rewrite List.Forall_forall in Hd. apply Hd; [exact Hin|].
      intros Heq. apply Hnot. apply list_elem_of_In. rewrite <- Heq.
      apply in_map. exact Hin.
    + apply String.eqb_neq in E. constructor; [apply Hx; exact E|].
      apply IH. exact Hnd.
Qed.

Lemma odict_get_In {V} k (v : V) d : odict_get k d = Some v -> In (k, v) d.
Proof.
  unfold odict_get. induction d as [|[k' v'] d IH]; simpl; [discriminate|].
  destruct (String.eqb k' k) eqn:E; simpl.
  - apply String.eqb_eq in E. intros [= ->]. left. congruence.
  - intros H. right. apply IH. exact H.
Qed.

(** What one step of the grouping loop does to the medication records. *)
Lemma group_entity_medications g e :
  medications_with_dosage (group_entity g e)
  = match type e with
    | MEDICATION =>
        odict_set (text e)
          (mkMed (text e) (normalized_text e) (confidence e)
                 (start_pos e, end_pos e) None (umls_code e))
          (medications_with_dosage g)
    | DOSAGE =>
        match metadata_get "linked_medication" e with
        | Some lm =>
            match (if Py.truthy lm
                   then odict_get lm (medications_with_dosage g)
                   else None) with
            | Some rec =>
                odict_set lm (set_dosage (text e) rec)
                          (medications_with_dosage g)
            | None => medications_with_dosage g
            end
        | None => medications_with_dosage g
        end
    | _ => medications_with_dosage g
    end.
Proof.
  unfold group_entity. destruct (type e); try reflexivity.
  destruct (metadata_get "linked_medication" e) as [lm|]; [|reflexivity].
  destruct (if Py.truthy lm then _ else _); reflexivity.
Qed.

(** An entity that is not a mention of [k] leaves the last mention of [k]
    the last one. *)
Lemma last_mention_snoc es k m e :
  (type e = MEDICATION -> text e <> k) ->
  last_mention es k m -> last_mention (es ++ [e]) k m.
Proof.
  intros He (pre & e0 & post & -> & Hty & Htx & Hn & Hnn & Hc & Hp & Hu
             & Hpost & Hd).
  exists pre, e0, (post ++ [e]).
  split; [rewrite <- app_assoc; reflexivity|].
  repeat (split; [assumption|]).
  split.
  - apply Forall_app. split; [exact Hpost|]. constructor; [exact He|constructor].
  - intros d Hdos. destruct (Hd d Hdos) as (x & Hin & Hx).
    exists x. split; [apply in_or_app; left; exact Hin|exact Hx].
Qed.

Lemma medication_records_inv (es : list MedicalEntity) :
  let d := medications_with_dosage (group_entities es) in
  NoDup (map fst d)
  /\ (forall k, In k (map fst d) <->
                exists e, In e es /\ type e = MEDICATION /\ text e = k)
  /\ Forall (fun kv => last_mention es (fst kv) (snd kv)) d.
Proof.
  induction es as [|e es IH] using rev_ind.
  { simpl. split; [constructor|]. split; [|constructor].
    intros k. split; [intros []|intros (e & [] & _)]. }
  unfold group_entities in *. rewrite fold_left_app. simpl.
  set (g := fold_left group_entity es empty_grouped) in *.
  destruct IH as (Hnd & Hkeys & Hlast).
  rewrite group_entity_medications.
  assert (Hkeep : type e <> MEDICATION ->
    NoDup (map fst (medications_with_dosage g))
    /\ (forall k, In k (map fst (medications_with_dosage g)) <->
                  exists e0, In e0 (es ++ [e]) /\ type e0 = MEDICATION
                             /\ text e0 = k)
    /\ Forall (fun kv => last_mention (es ++ [e]) (fst kv) (snd kv))
              (medications_with_dosage g)).
  { intros Hty. split; [exact Hnd|]. split.
    - intros k. rewrite Hkeys. split.
      + intros (e0 & Hin & H). exists e0.
        split; [apply in_or_app; left; exact Hin|exact H].
      + intros (e0 & Hin & Ht & Hx). apply in_app_or in Hin as [Hin|[<-|[]]].
        * exists e0. split; [exact Hin|]. split; assumption.
        * contradiction.
    - eapply Forall_impl; [exact Hlast|]. intros kv Hkv.
      apply last_mention_snoc; [|exact Hkv]. intros H. contradiction. }
  destruct (type e) eqn:Hty; try (apply Hkeep; discriminate).
  - (* a mention *)
    destruct (in_dec string_dec (text e)
                (map fst (medications_with_dosage g))) as [Hin|Hin].
    + split; [rewrite (odict_set_keys_in _ _ _ Hin); exact Hnd|]. split.
      * intros k. rewrite (odict_set_keys_in _ _ _ Hin), Hkeys. split.
        -- intros (e0 & Hin0 & H). exists e0.
           split; [apply in_or_app; left; exact Hin0|exact H].
        -- intros (e0 & Hin0 & Ht & Hx).
           apply in_app_or in Hin0 as [Hin0|[<-|[]]].
           ++ exists e0. split; [exact Hin0|]. split; assumption.
           ++ subst k. apply Hkeys. exact Hin.
      * apply odict_set_Forall_ne; [exact Hnd| |].
        -- exists es, e, []. simpl.
           repeat (split; [reflexivity || assumption|]).
           split; [constructor|]. intros d Hd. discriminate Hd.
        -- eapply Forall_impl; [exact Hlast|]. intros kv Hkv Hne.
           apply last_mention_snoc; [|exact Hkv]. intros _ Heq.
           apply Hne. symmetry. exact Heq.
    + split; [|split].
      * rewrite (odict_set_keys_new _ _ _ Hin). apply NoDup_app. split; [exact Hnd|]. split; [|apply NoDup_singleton].
        intros x Hx Hx'. apply list_elem_of_singleton in Hx'. subst x.
        apply Hin. apply list_elem_of_In. exact Hx.
      * intros k. rewrite (odict_set_keys_new _ _ _ Hin). split.
        -- intros Hk. apply in_app_or in Hk as [Hk|[<-|[]]].
           ++ apply Hkeys in Hk as (e0 & Hin0 & H). exists e0.
              split; [apply in_or_app; left; exact Hin0|exact H].
           ++ exists e. split; [apply in_or_app; right; left; reflexivity|].
              split; [exact Hty|reflexivity].
        -- intros (e0 & Hin0 & Ht & Hx). apply in_or_app.
           apply in_app_or in Hin0 as [Hin0|[<-|[]]].
           ++ left. apply Hkeys. exists e0. split; [exact Hin0|].
              split; assumption.
           ++ right. left. exact Hx.
      * apply odict_set_Forall_ne; [exact Hnd| |].
        -- exists es, e, []. simpl.
           repeat (split; [reflexivity || assumption|]).
           split; [constructor|]. intros d Hd. discriminate Hd.
        -- eapply Forall_impl; [exact Hlast|]. intros kv Hkv Hne.
           apply last_mention_snoc; [|exact Hkv]. intros _ Heq.
           apply Hne. symmetry. exact Heq.
  - (* a dosage *)
    destruct (metadata_get "linked_medication" e) as [lm|] eqn:Hlm;
      [|apply Hkeep; discriminate].
    destruct (Py.truthy lm); [|apply Hkeep; discriminate].
    destruct (odict_get lm (medications_with_dosage g)) as [rec|] eqn:Hget;
      [|apply Hkeep; discriminate].
    apply odict_get_In in Hget.
    assert (Hin : In lm (map fst (medications_with_dosage g)))
      by (apply (in_map fst) in Hget; exact Hget).
    destruct (Hkeep ltac:(discriminate)) as (_ & Hkeys' & Hlast').
    split; [|split].
    + rewrite (odict_set_keys_in _ _ _ Hin). exact Hnd.
    + intros k. rewrite (odict_set_keys_in _ _ _ Hin). apply Hkeys'.
    + apply odict_set_Forall_ne; [exact Hnd| |].
      * rewrite List.Forall_forall in Hlast.
        destruct (Hlast _ Hget)
          as (pre & e0 & post & -> & Ht0 & Htx & Hn & Hnn & Hc & Hp & Hu
              & Hpost & _).
        simpl in *.
        exists pre, e0, (post ++ [e]).
        split; [rewrite <- app_assoc; reflexivity|].
        repeat (split; [assumption|]).
        split.
        -- apply Forall_app. split; [exact Hpost|].
           constructor; [|constructor]. intros H. congruence.
        -- intros d [= <-]. exists e.
           split; [apply in_or_app; right; left; reflexivity|].
           split; [exact Hty|]. split; [reflexivity|exact Hlm].
      * eapply Forall_impl; [exact Hlast'|]. intros kv Hkv _. exact Hkv.
Qed.

(** X19. The medication records of the document result. There is one
    record for each distinct text of a MEDICATION entity. A record reports
    the last mention of its name: the normalized name, confidence, offsets
    and code are those of the last MEDICATION entity with that text, so that
    a repeated mention replaces the record of the earlier one. The dosage of
    a record, if it has one, is the text of a DOSAGE entity that comes after
    that last mention and is linked to the name. *)
Theorem medication_records :
  forall (doc : string) (es : list MedicalEntity),
    let out := build_output doc es in
    NoDup (map med_name (medications out))
    /\ (forall k, In k (map med_name (medications out)) <->
                  exists e, In e es /\ type e = MEDICATION /\ text e = k)
    /\ Forall (fun m => last_mention es (med_name m) m) (medications out).
Proof.
  intros doc es out. subst out. unfold build_output. cbn [medications].
  destruct (medication_records_inv es) as (Hnd & Hkeys & Hlast).
  set (d := medications_with_dosage (group_entities es)) in *.
  assert (Hname : map med_name (map snd d) = map fst d).
  { rewrite map_map. apply map_ext_in. intros kv Hin.
    rewrite List.Forall_forall in Hlast.
    destruct (Hlast kv Hin) as (_ & _ & _ & _ & _ & _ & Hn & _).
    exact Hn. }
  rewrite Hname. split; [exact Hnd|]. split; [exact Hkeys|].
  apply List.Forall_map. eapply Forall_impl; [exact Hlast|].
  intros kv Hkv. simpl.
  destruct Hkv as (pre & e & post & H1 & H2 & H3 & Hn & H).
  rewrite Hn. exists pre, e, post. repeat (split; [assumption|]). exact H.
Qed.

(** ** From the candidates to the entities *)

Lemma classify_entities_sublist cfg cands :
  forall w w' es,
    _classify_entities cfg cands w = (inr es, w') ->
    sublist (map entity_span es) (map cand_span cands).
Proof.
  induction cands as [|cand rest IH]; intros w w' es H.
  - injection H as <- <-. constructor.
  - cbn [_classify_entities] in H. rewrite bind_eq in H.
    destruct (classify_candidate cfg cand w) as [[ex|oe] w1] eqn:Hc;
      [discriminate|].
    rewrite bind_eq in H.
    destruct (_classify_entities cfg rest w1) as [[ex|es'] w2] eqn:Hr;
      [discriminate|].
    unfold mret, M_ret, ret in H. injection H as <- <-.
    specialize (IH _ _ _ Hr). simpl.
    destruct oe as [e|]; [|apply sublist_cons; exact IH].
    apply classify_candidate_span in Hc as (Ht & Hs & He).
    simpl. unfold entity_span at 1, cand_span at 1. rewrite Ht, Hs, He.
    apply sublist_skip. exact IH.
Qed.

Lemma same_core_span (a b : list MedicalEntity) :
  Forall2 same_core a b -> map entity_span a = map entity_span b.
Proof.
  induction 1 as [|x y a b (Ht & _ & Hs & He & _) _ IH]; [reflexivity|].
  simpl. unfold entity_span at 1 3. rewrite Ht, Hs, He, IH. reflexivity.
Qed.

Lemma filter_by_confidence_sublist cfg es :
  sublist (map entity_span (_filter_by_confidence cfg es)) (map entity_span es).
Proof.
  induction es as [|e es IH]; simpl; [constructor|].
  destruct (Qle_bool _ _); [apply sublist_skip; exact IH|].
  destruct (Qle_bool _ _); [apply sublist_skip; exact IH|].
  apply sublist_cons; exact IH.
Qed.

Lemma extract_entities_inv p text w es w' :
  extract_entities p text w = (inr es, w') ->
  exists classified,
    _classify_entities (config p)
      (_extract_entity_candidates p (_preprocess_text text)) w
    = (inr classified, w')
    /\ es = _filter_by_confidence (config p)
              (_postprocess_entities classified text).
Proof.
  unfold extract_entities. rewrite bind_eq.
  destruct (_classify_entities _ _ w) as [[ex|classified] w1];
    [discriminate|].
  unfold mret, M_ret, ret. intros [= <- <-].
  exists classified. split; reflexivity.
Qed.

(** X20. The pipeline neither invents nor reorders entities. The texts and
    offsets of the entities it returns are a subsequence of the texts and
    offsets of the candidates found in the normalized text: every entity has
    the text and the offsets of a candidate, and the entities come in the
    order of their candidates. *)
Theorem extract_entities_subsequence :
  forall (p : Pipeline) (text : string) (w w' : World)
         (es : list MedicalEntity),
    extract_entities p text w = (inr es, w') ->
    sublist (map entity_span es)
            (map cand_span
                 (_extract_entity_candidates p (_preprocess_text text))).
Proof.
  intros p text w w' es H.
  apply extract_entities_inv in H as (classified & Hc & ->).
  apply classify_entities_sublist in Hc.
  etransitivity; [apply filter_by_confidence_sublist|].
  unfold _postprocess_entities.
  rewrite <- (same_core_span _ _
                (postprocess_loop_same_core text (length classified) 0
                                            classified)).
  exact Hc.
Qed.

Lemma extract_entities_subsequence_witness :
  exists es w',
    extract_entities regex_pipeline "pt has fever" quiet_world = (inr es, w')
    /\ sublist (map entity_span es)
         (map cand_span
              (_extract_entity_candidates regex_pipeline
                 (_preprocess_text "pt has fever"))).
Proof.
  destruct (extract_entities regex_pipeline "pt has fever" quiet_world)
    as [[e|es] w'] eqn:E; [vm_compute in E; discriminate E|].
  exists es, w'. split; [reflexivity|].
  exact (extract_entities_subsequence _ _ _ _ _ E).
Defined.

(** *** The confidence of the entities *)

Section EntityConfidence.
Import UMLSClient.

Lemma fuse_bounded cfg text w :
  cache_bounded w ->
  match fuse cfg text w with
  | (inr (ot, c, code), w') =>
      cache_bounded w' /\ (is_Some ot -> kb_confidence c)
  | (inl _, w') => cache_bounded w'
  end.
Proof.
  intros Hb. pose proof (classify_values text) as Hv.
  destruct (RuleBasedClassifier.classify text) as [[t|] c] eqn:E.
  - rewrite (fuse_rule cfg text w t c E). split; [exact Hb|]. intros _.
    destruct Hv as [_ [-> | ->]]; split; unfold Qle; simpl; lia.
  - unfold fuse. rewrite E. rewrite bool_decide_eq_true_2 by reflexivity.
    simpl. destruct (ENABLE_UMLS cfg).
    2:{ split; [exact Hb|]. intros [x Hx]. discriminate Hx. }
    rewrite bind_eq.
    destruct (lookup_term_bounded text w Hb) as (r & w' & -> & Hr & Hb').
    destruct (Qltb c (res_confidence r)).
    2:{ split; [exact Hb'|]. intros [x Hx]. discriminate Hx. }
    destruct (EntityType_of_name (res_entity_type r)); [|exact Hb'].
    split; [exact Hb'|]. intros _. exact Hr.
Qed.

Lemma classify_candidate_bounded cfg smax cand w :
  0 <= c_score cand /\ c_score cand <= smax ->
  cache_bounded w ->
  match classify_candidate cfg cand w with
  | (inr oe, w') =>
      cache_bounded w'
      /\ forall e, oe = Some e ->
                   0 <= confidence e /\ confidence e <= (95 # 100) * smax
  | (inl _, w') => cache_bounded w'
  end.
Proof.
  intros [Hs0 Hs1] Hb. unfold classify_candidate. rewrite bind_eq.
  pose proof (fuse_bounded cfg (c_text cand) w Hb) as Hf.
  destruct (fuse cfg (c_text cand) w) as [[ex|[[ot c] code]] w1];
    [exact Hf|].
  destruct Hf as [Hb1 Hc]. destruct ot as [t|].
  - split; [exact Hb1|]. intros e [= <-]. simpl.
    destruct (Hc ltac:(eexists; reflexivity)) as [Hc0 Hc1].
    split; [apply Qmult_le_0_compat; assumption|].
    apply Qle_trans with ((95 # 100) * c_score cand).
    + apply Qmult_le_compat_r; assumption.
    + apply Qmult_le_l; [unfold Qlt; simpl; lia|exact Hs1].
  - split; [exact Hb1|]. intros e H. discriminate H.
Qed.

(** With scores between 0 and [smax], the classified entities have
    confidences between 0 and 0.95 times [smax]. *)
Lemma classify_entities_bounded cfg smax cands :
  Forall (fun c => 0 <= c_score c /\ c_score c <= smax) cands ->
  forall w w' es,
    cache_bounded w ->
    _classify_entities cfg cands w = (inr es, w') ->
    cache_bounded w'
    /\ Forall (fun e => 0 <= confidence e
                        /\ confidence e <= (95 # 100) * smax) es.
Proof.
  induction 1 as [|cand rest Hs _ IH]; intros w w' es Hb H.
  - injection H as <- <-. split; [exact Hb|constructor].
  - cbn [_classify_entities] in H. rewrite bind_eq in H.
    pose proof (classify_candidate_bounded cfg smax cand w Hs Hb) as Hc.
    destruct (classify_candidate cfg cand w) as [[ex|oe] w1];
      [discriminate|].
    destruct Hc as [Hb1 Hoe]. rewrite bind_eq in H.
    destruct (_classify_entities cfg rest w1) as [[ex|es'] w2] eqn:Hr;
      [discriminate|].
    unfold mret, M_ret, ret in H. injection H as <- <-.
    destruct (IH _ _ _ Hb1 Hr) as [Hb2 Hes]. split; [exact Hb2|].
    destruct oe as [e|]; [|exact Hes].
    constructor; [apply Hoe; reflexivity|exact Hes].
Qed.

Lemma regex_candidates_score text :
  Forall (fun c => 0 <= c_score c /\ c_score c <= 90 # 100)
         (regex_candidates text).
Proof.
  apply List.Forall_forall. intros c Hin. unfold regex_candidates in Hin.
  apply in_flat_map in Hin as (pb & Hpb & Hin).
  apply in_map_iff in Hin as (f & <- & Hf). simpl.
  unfold candidate_patterns in Hpb. simpl in Hpb.
  repeat (destruct Hpb as [<-|Hpb];
          [simpl; split; unfold Qle; simpl; lia|]).
  contradiction.
Qed.

Lemma extract_candidates_score p text :
  tagger_scores p ->
  Forall (fun c => 0 <= c_score c /\ c_score c <= 1)
         (_extract_entity_candidates p text)
  /\ (ner_pipeline p = None ->
      Forall (fun c => 0 <= c_score c /\ c_score c <= 90 # 100)
             (_extract_entity_candidates p text)).
Proof.
  intros Ht. unfold _extract_entity_candidates, tagger_scores in *.
  assert (Hre : Forall (fun c => 0 <= c_score c /\ c_score c <= 1)
                       (regex_candidates text)).
  { eapply Forall_impl; [apply regex_candidates_score|].
    intros c [H0 H1]. split; [exact H0|].
    eapply Qle_trans; [exact H1|]. unfold Qle. simpl. lia. }
  split.
  - apply unique_candidates_Forall. apply Forall_app. split; [|exact Hre].
    destruct (ner_pipeline p) as [tagger|]; [|constructor].
    destruct (tagger text) as [e|ents] eqn:E; [constructor|].
    eapply Ht. exact E.
  - intros ->. apply unique_candidates_Forall. simpl.
    apply regex_candidates_score.
Qed.

Lemma filter_by_confidence_threshold cfg es :
  Forall (fun e => AUTO_ACCEPT_THRESHOLD cfg <= confidence e
                   \/ REVIEW_THRESHOLD cfg <= confidence e)
         (_filter_by_confidence cfg es).
Proof.
  induction es as [|e es IH]; simpl; [constructor|].
  destruct (Qle_bool (AUTO_ACCEPT_THRESHOLD cfg) (confidence e)) eqn:E1.
  { constructor; [|exact IH]. left. apply Qle_bool_iff. exact E1. }
  destruct (Qle_bool (REVIEW_THRESHOLD cfg) (confidence e)) eqn:E2;
    [|exact IH].
  constructor; [|exact IH]. right. apply Qle_bool_iff. exact E2.
Qed.

Lemma count_none {A} (f : A -> bool) l :
  Forall (fun x => f x = false) l -> count f l = 0%nat.
Proof.
  induction 1 as [|x l Hx _ IH]; [reflexivity|].
  rewrite count_cons, Hx, IH. reflexivity.
Qed.

(** X21. The confidence of the entities the pipeline returns. On a cache
    whose rows hold confidences between 0 and 0.95, and with a tagger whose
    scores lie between 0 and 1, every entity returned has a confidence of at
    least one of the two thresholds of the gate and at most 0.95, and the
    cache is left with such rows. Without the tagger no confidence exceeds
    0.855, the best rule confidence times the best score of a regular
    expression, so that the high bin of the confidence summary (0.9 and
    more) stays empty. *)
Theorem extract_entities_confidence :
  forall (p : Pipeline) (text : string) (w w' : World)
         (es : list MedicalEntity),
    cache_bounded w -> tagger_scores p ->
    extract_entities p text w = (inr es, w') ->
    Forall (fun e => (AUTO_ACCEPT_THRESHOLD (config p) <= confidence e
                      \/ REVIEW_THRESHOLD (config p) <= confidence e)
                     /\ confidence e <= 95 # 100) es
    /\ (ner_pipeline p = None ->
        Forall (fun e => confidence e <= 855 # 1000) es
        /\ fst (fst (confidence_summary (build_output text es))) = 0%nat)
    /\ cache_bounded w'.
Proof.
  intros p text w w' es Hb Ht H.
  apply extract_entities_inv in H as (classified & Hc & ->).
  destruct (extract_candidates_score p (_preprocess_text text) Ht)
    as [Hs1 Hs9].
  destruct (classify_entities_bounded _ 1 _ Hs1 _ _ _ Hb Hc) as [Hb' Hes].
  split; [|split; [|exact Hb']].
  - apply Forall_and. split; [apply filter_by_confidence_threshold|].
    apply pipeline_core_Forall.
    + intros a b (_ & _ & _ & _ & Hconf & _) Ha. rewrite <- Hconf. exact Ha.
    + eapply Forall_impl; [exact Hes|]. intros e [_ H1].
      eapply Qle_trans; [exact H1|]. unfold Qle. simpl. lia.
  - intros Hnone. specialize (Hs9 Hnone).
    destruct (classify_entities_bounded _ (90 # 100) _ Hs9 _ _ _ Hb Hc)
      as [_ Hes9].
    assert (Hlow : Forall (fun e => confidence e <= 855 # 1000)
      (_filter_by_confidence (config p)
         (_postprocess_entities classified text))).
    { apply pipeline_core_Forall.
      - intros a b (_ & _ & _ & _ & Hconf & _) Ha. rewrite <- Hconf. exact Ha.
      - eapply Forall_impl; [exact Hes9|]. intros e [_ H1].
        eapply Qle_trans; [exact H1|]. unfold Qle. simpl. lia. }
    split; [exact Hlow|]. unfold build_output. cbn [confidence_summary fst].
    apply count_none. eapply Forall_impl; [exact Hlow|].
    intros e He. simpl. apply Qle_bool_false.
    eapply Qle_lt_trans; [exact He|]. unfold Qlt. simpl. lia.
Qed.

End EntityConfidence.

Lemma extract_entities_confidence_witness :
  exists es w',
    extract_entities regex_pipeline "pt has fever" quiet_world = (inr es, w')
    /\ Forall (fun e => confidence e <= 855 # 1000) es.
Proof.
  destruct (extract_entities regex_pipeline "pt has fever" quiet_world)
    as [[e|es] w'] eqn:E; [vm_compute in E; discriminate E|].
  exists es, w'. split; [reflexivity|].
  destruct (extract_entities_confidence regex_pipeline "pt has fever"
              quiet_world w' es) as (_ & H & _).
  - apply map_Forall_empty.
  - exact I.
  - exact E.
  - apply H. reflexivity.
Defined.

(** ** The summary of the caller *)

Section Summary.
Import Enhanced_Medical_NLP_Agent.

(** X22. The summary line of the caller counts diseases, symptoms and
    medication records only. It reads "No medical entities found" exactly
    when these three counts are zero, whatever the dosages, anatomy terms
    and unclassified entities of the result: a text whose only entities
    are dosages is summarized as having no medical entities, although its
    result has two entities. *)
Theorem generate_summary_none :
  (forall result : Output,
     _generate_summary result = "No medical entities found" <->
     n_diseases (statistics result) = 0%nat
     /\ n_symptoms (statistics result) = 0%nat
     /\ n_medications (statistics result) = 0%nat)
  /\ exists (result : Output) (w' : World),
       process_medical_text regex_pipeline dosage_only_text quiet_world
       = (inr (result, "No medical entities found"), w')
       /\ total_entities result = 2%nat.
Proof.
  split.
  - intros result. unfold _generate_summary, append_count.
    destruct (n_diseases (statistics result)) as [|nd];
      destruct (n_symptoms (statistics result)) as [|ns];
      destruct (n_medications (statistics result)) as [|nm];
      cbn [Nat.ltb Nat.leb app];
      (split; [intros H|intros (H1 & H2 & H3)]);
      try reflexivity; try discriminate; try (repeat split; reflexivity);
      cbn [String.append] in H; discriminate H.
  - eexists _, _. split; [vm_compute; reflexivity|reflexivity].
Qed.

End Summary.

(** ** The confidence a document result reports *)







(** ** Failures in the cache *)

Section NegativeCache.
Import UMLSClient.

(** X24. A search that yields nothing is remembered for 30 days. With the
    cache on, a lookup whose search yields nothing returns the no-result
    marker and stores it; the search yields nothing not only when the
    service knows no such term but also when the credential, the ticket or
    the request fails. Until the row is 30 days old every lookup of that
    term returns the marker from the cache, without a request, whatever the
    network would answer by then. *)
Theorem search_failure_is_cached :
  forall (term : string) (w : World),
    use_cache w = true ->
    fst (_get_cached_result term w) = inr None ->
    opt_truthy (env_api_key w) = true ->
    fst (_search_umls_concept term w) = inr [] ->
    let w1 := snd (lookup_term term w) in
    fst (lookup_term term w) = inr no_results_result
    /\ cache w1 !! cache_key term
       = Some (result_row no_results_result (clock w))
    /\ forall (later : Q) (rs : list Reply),
         later - inject_Z (py_int (clock w)) < cache_ttl ->
         let w2 := set_clock later (set_replies rs (requests w1) w1) in
         lookup_term term w2 = (inr no_results_result, w2).
Proof.
  intros term w Huc Hmiss Hkey Hsearch w1.
  assert (E : exists wa,
    net_frame w wa
    /\ lookup_term term w
       = (inr no_results_result,
          set_cache (<[cache_key term
                       := result_row no_results_result (clock w)]>
                       (cache wa)) wa)).
  { unfold lookup_term. rewrite bind_eq.
    destruct (_get_cached_result term w) as [x w0] eqn:Eg.
    rewrite get_cached_result_eq in Eg. injection Eg as <- <-.
    simpl in Hmiss. injection Hmiss as ->. cbv beta iota.
    rewrite bind_eq. unfold get. cbv beta iota. rewrite Hkey. cbn [negb].
    unfold try_except, lookup_remote. rewrite bind_eq.
    pose proof (search_umls_concept_frame term w) as Hf.
    destruct (_search_umls_concept term w) as [[e|rs] wa];
      simpl in Hsearch; [discriminate|]. injection Hsearch as ->.
    simpl in Hf. exists wa. split; [exact Hf|].
    cbv beta iota. rewrite bind_eq, cache_result_eq.
    destruct Hf as (Hc & _ & _ & Hu & _). rewrite Hu, Huc, Hc. reflexivity. }
  destruct E as (wa & Hf & E). subst w1. rewrite E. simpl.
  split; [reflexivity|]. split; [apply lookup_insert_eq|].
  intros later rs Hlater.
  apply (lookup_term_hit term
           (set_replies rs (requests wa)
              (set_cache (<[cache_key term
                            := result_row no_results_result (clock w)]>
                            (cache wa)) wa))
           (result_row no_results_result (clock w)) later).
  - simpl. destruct Hf as (_ & _ & _ & Hu & _). rewrite Hu. exact Huc.
  - simpl. apply lookup_insert_eq.
  - unfold row_live. simpl. apply Qltb_lt. exact Hlater.
Qed.

End NegativeCache.

Lemma search_failure_is_cached_witness :
  let w1 := snd (UMLSClient.lookup_term "Fever" outage_world) in
  let w2 := set_clock (1700000000 + 3600)
              (set_replies one_lookup (requests w1) w1) in
  UMLSClient.lookup_term "Fever" w2
  = (inr UMLSClient.no_results_result, w2).
Proof.
  intros w1 w2.
  apply (search_failure_is_cached "Fever" outage_world).
  - reflexivity.
  - vm_compute. reflexivity.
  - reflexivity.
  - vm_compute. reflexivity.
  - vm_compute. reflexivity.
Defined.

(** ** The whitespace of the normalized text *)

Lemma ends_clear_cons a l : l <> [] -> ends_clear (a :: l) -> ends_clear l.
Proof.
  unfold ends_clear. destruct l as [|b l]; [congruence|]. intros _ H. exact H.
Qed.

Lemma ws_normal_app l1 l2 :
  ws_normal l1 -> ends_clear l1 -> ws_normal l2 -> ws_normal (l1 ++ l2).
Proof.
  induction l1 as [|a l1 IH]; intros H1 He H2; [exact H2|].
  destruct H1 as [Ha H1]. simpl. split.
  - intros Hs. destruct (Ha Hs) as [-> Hh]. split; [reflexivity|].
    destruct l1 as [|b l1]; [|exact Hh].
    unfold ends_clear in He. simpl in He. congruence.
  - destruct l1 as [|b l1]; [exact H2|].
    apply IH; [exact H1| |exact H2].
    eapply ends_clear_cons; [discriminate|exact He].
Qed.

Lemma ends_clear_app l1 l2 : l2 <> [] -> ends_clear l2 -> ends_clear (l1 ++ l2).
Proof.
  intros Hne H. unfold ends_clear in *.
  destruct l2 as [|b l2] using rev_ind; [congruence|].
  rewrite app_assoc, !last_snoc in *. exact H.
Qed.

(** A text without whitespace. *)
Lemma space_free_clean t :
  t <> [] -> Forall (fun c => Py.is_space c = false) t -> clean_text t.
Proof.
  intros Hne H. split; [|split; [exact Hne|split]].
  - clear Hne. induction H as [|c t Hc _ IH]; simpl; [exact I|].
    split; [intros Hs; congruence|exact IH].
  - destruct H; [reflexivity|assumption].
  - unfold ends_clear. destruct (last t) as [c|] eqn:E; [|exact I].
    apply last_Some in E as (t' & ->).
    apply Forall_app in H as [_ H]. inversion H; assumption.
Qed.

(** Substitution keeps whitespace normalized when every replacement text is
    clean. *)
Lemma sub_from_normal ic r repl :
  (forall prev l m, In m (Re.run ic r prev l) -> m_text m <> [] ->
                    clean_text (Re.expand repl m)) ->
  forall l prev skip,
    ws_normal l ->
    ws_normal (Re.sub_from ic r repl prev l skip)
    /\ (skip = 0%nat ->
        head_space (Re.sub_from ic r repl prev l skip) = true ->
        head_space l = true).
Proof.
  intros Hrepl. induction l as [|a l IH]; intros prev skip Hn.
  { simpl. split; [exact I|intros _ H; discriminate H]. }
  destruct Hn as [Ha Hn]. cbn [Re.sub_from].
  assert (Hcopy : ws_normal (a :: Re.sub_from ic r repl (Some a) l 0)
    /\ (0%nat = 0%nat ->
        head_space (a :: Re.sub_from ic r repl (Some a) l 0) = true ->
        head_space (a :: l) = true)).
  { destruct (IH (Some a) 0%nat Hn) as [Hout Hhead].
    split; [|intros _ H; exact H]. simpl. split; [|exact Hout].
    intros Hs. destruct (Ha Hs) as [-> Hl]. split; [reflexivity|].
    destruct (head_space (Re.sub_from ic r repl (Some " "%char) l 0)) eqn:Eh;
      [|reflexivity].
    rewrite (Hhead eq_refl eq_refl) in Hl. discriminate Hl. }
  destruct skip as [|k].
  - destruct (Re.match_at ic r prev (a :: l)) as [m|] eqn:E; [|exact Hcopy].
    apply match_at_in in E.
    destruct (m_text m) as [|c t] eqn:Et; [exact Hcopy|].
    destruct (Hrepl _ _ _ E) as (He1 & He2 & He3 & He4);
      [rewrite Et; discriminate|].
    split.
    + apply ws_normal_app; [exact He1|exact He4|].
      apply (IH (Some a) (length t) Hn).
    + intros _ H. destruct (Re.expand repl m) as [|x E']; [congruence|].
      simpl in H, He3. congruence.
  - split; [apply (IH (Some a) k Hn)|intros H; discriminate H].
Qed.

Lemma chars_str l : Py.chars (Py.str l) = l.
Proof. apply list_ascii_of_string_of_list_ascii. Qed.

Lemma sub_normal ic r repl s :
  (forall prev l m, In m (Re.run ic r prev l) -> m_text m <> [] ->
                    clean_text (Re.expand repl m)) ->
  ws_normal (Py.chars s) -> ws_normal (Py.chars (Re.sub ic r repl s)).
Proof.
  intros Hrepl Hn. unfold Re.sub. rewrite chars_str.
  apply (sub_from_normal ic r repl Hrepl). exact Hn.
Qed.

(** The longest run of [c*] comes first, and what follows it does not start
    with a character of [c]. *)
Lemma star_run_head ic c l :
  exists tr tl,
    Re.star_run ic c l = tr :: tl
    /\ match snd tr with
       | b :: _ => Re.cset_match ic c b = false
       | [] => True
       end.
Proof.
  induction l as [|a l (tr & tl & E & H)]; simpl.
  - exists ([], []), []. split; [reflexivity|exact I].
  - destruct (Re.cset_match ic c a) eqn:Ea.
    + rewrite E. simpl. eexists _, _. split; [reflexivity|]. exact H.
    + exists ([], a :: l), []. split; [reflexivity|exact Ea].
Qed.

(** The whitespace collapse [re.sub(r'\s+', ' ', text)] leaves normalized
    whitespace, whatever the text. *)
Lemma collapse_from_normal l :
  forall prev skip,
    (skip <> 0%nat -> head_space (drop skip l) = false) ->
    ws_normal (Re.sub_from false (Plus CSpace) [PLit " "] prev l skip)
    /\ head_space (Re.sub_from false (Plus CSpace) [PLit " "] prev l skip)
       = head_space (drop skip l).
Proof.
  induction l as [|a l IH]; intros prev skip Hskip.
  { simpl. rewrite drop_nil. split; reflexivity. }
  cbn [Re.sub_from]. destruct skip as [|k].
  - unfold Re.match_at, Plus. cbn [Re.run Re.cset_match].
    destruct (Py.is_space a) eqn:Ea.
    + destruct (star_run_head false CSpace l) as ([t rest] & tl & Est & Hmax).
      pose proof (star_run_split false CSpace l (t, rest)) as Hsplit.
      rewrite Est in Hsplit. specialize (Hsplit (or_introl eq_refl)).
      simpl in Hsplit, Hmax.
      cbn [flat_map m_rest m_text m_caps]. rewrite Est.
      cbn [map app head fst snd m_text]. cbn [length].
      unfold Re.expand. cbn [flat_map app Py.chars list_ascii_of_string].
      assert (Hrest : head_space (drop (length t) l) = false).
      { rewrite <- Hsplit, drop_app_length.
        destruct rest as [|b rest]; [reflexivity|exact Hmax]. }
      destruct (IH (Some a) (length t) (fun _ => Hrest)) as [Hout Hhead].
      rewrite Hrest in Hhead. simpl. rewrite Ea.
      split; [|reflexivity]. split; [|exact Hout].
      intros _. split; [reflexivity|exact Hhead].
    + cbn [flat_map head]. destruct (IH (Some a) 0%nat) as [Hout _];
        [intros H; congruence|].
      simpl. split; [|reflexivity]. split; [|exact Hout].
      intros H. congruence.
  - simpl drop. apply IH. intros Hk. apply Hskip. discriminate.
Qed.

Lemma class_not_space (a : ascii) :
  (Py.is_digit a = true -> Py.is_space a = false)
  /\ (Py.is_alpha a = true -> Py.is_space a = false).
Proof.
  destruct a as [[] [] [] [] [] [] [] []]; split; intros H;
    first [reflexivity | discriminate H].
Qed.

Lemma star_run_Forall ic c l tr :
  In tr (Re.star_run ic c l) ->
  Forall (fun a => Re.cset_match ic c a = true) (fst tr).
Proof.
  revert tr. induction l as [|a l IH]; intros tr H; simpl in H.
  - destruct H as [<-|[]]. constructor.
  - destruct (Re.cset_match ic c a) eqn:Ea.
    + apply in_app_or in H as [H|[<-|[]]]; [|constructor].
      apply in_map_iff in H as (tr' & <- & H'). simpl.
      constructor; [exact Ea|apply IH; exact H'].
    + destruct H as [<-|[]]. constructor.
Qed.

(** What [c+] matches: one character of [c] or more. *)
Lemma run_plus ic c prev l m :
  In m (Re.run ic (Plus c) prev l) ->
  m_text m <> []
  /\ Forall (fun a => Re.cset_match ic c a = true) (m_text m).
Proof.
  unfold Plus. intros H. apply run_seq in H as (m1 & m2 & H1 & H2 & ->).
  simpl in H1. destruct l as [|a l]; [contradiction|].
  destruct (Re.cset_match ic c a) eqn:Ea; [|contradiction].
  destruct H1 as [<-|[]]. simpl in H2.
  apply in_map_iff in H2 as (tr & <- & Htr). simpl.
  split; [discriminate|].
  constructor; [exact Ea|eapply star_run_Forall; exact Htr].
Qed.

(** The replacement of a number glued to letters: the digits, one space,
    the letters. *)
Lemma split_number_unit_clean prev l m :
  In m (Re.run false (Seq (Group 1 (Plus CDigit)) (Group 2 (Plus CAlpha)))
               prev l) ->
  clean_text (Re.expand [PRef 1; PLit " "; PRef 2] m).
Proof.
  intros Hm. apply run_seq in Hm as (m1 & m2 & H1 & H2 & ->).
  apply run_group in H1 as (a & Ha & ->).
  apply run_group in H2 as (b & Hb & ->).
  rewrite (run_no_group false (Plus CDigit) eq_refl _ _ _ Ha).
  rewrite (run_no_group false (Plus CAlpha) eq_refl _ _ _ Hb).
  apply run_plus in Ha as [Hane Ha]. apply run_plus in Hb as [Hbne Hb].
  unfold Re.expand, Re.group_text. simpl. rewrite app_nil_r.
  assert (Ha' : Forall (fun c => Py.is_space c = false) (m_text a)).
  { eapply Forall_impl; [exact Ha|]. intros c Hc. simpl in Hc.
    destruct (class_not_space c) as [Hd _]. apply Hd. exact Hc. }
  assert (Hb' : Forall (fun c => Py.is_space c = false) (m_text b)).
  { eapply Forall_impl; [exact Hb|]. intros c Hc. simpl in Hc.
    destruct (class_not_space c) as [_ Hal]. apply Hal. exact Hc. }
  destruct (space_free_clean _ Hane Ha') as (Hna & _ & Hha & Hea).
  destruct (space_free_clean _ Hbne Hb') as (Hnb & _ & Hhb & Heb).
  split; [|split; [|split]].
  - apply ws_normal_app; [exact Hna|exact Hea|]. simpl.
    split; [|exact Hnb]. intros _. split; [reflexivity|exact Hhb].
  - destruct (m_text a); [congruence|discriminate].
  - destruct (m_text a); [congruence|exact Hha].
  - apply ends_clear_app; [discriminate|].
    change (" "%char :: m_text b) with ([" "%char] ++ m_text b).
    apply ends_clear_app; assumption.
Qed.

Lemma abbreviations_clean :
  Forall (fun af => clean_text (Py.chars (snd af))) abbreviations.
Proof.
  repeat constructor; try discriminate;
    simpl; intros H; discriminate H.
Qed.

Lemma expand_abbreviations_normal abbrs :
  Forall (fun af => clean_text (Py.chars (snd af))) abbrs ->
  forall s, ws_normal (Py.chars s) ->
            ws_normal (Py.chars (expand_abbreviations abbrs s)).
Proof.
  induction 1 as [|[abbr full] abbrs Hc _ IH]; intros s Hs; simpl;
    [exact Hs|].
  apply IH. apply sub_normal; [|exact Hs].
  intros prev l m _ _. unfold Re.expand. simpl. rewrite app_nil_r. exact Hc.
Qed.

Lemma ws_normal_spec l :
  ws_normal l ->
  no_adjacent_space l = true
  /\ Forall (fun c => Py.is_space c = true -> c = " "%char) l.
Proof.
  induction l as [|a l IH]; intros H; [split; [reflexivity|constructor]|].
  destruct H as [Ha Hl]. destruct (IH Hl) as [IH1 IH2].
  split; [|constructor; [intros Hs; apply Ha; exact Hs|exact IH2]].
  cbn [no_adjacent_space]. destruct l as [|b l]; [reflexivity|].
  rewrite IH1, andb_true_r. apply negb_true_iff.
  destruct (Py.is_space a) eqn:Ea; [|reflexivity].
  destruct (Ha eq_refl) as [_ Hb]. simpl in Hb. rewrite Hb. reflexivity.
Qed.

(** X25. The whitespace of the normalized text. Whatever the input, the
    text the normalizer returns has no whitespace character other than the
    space and no two spaces in a row: the first step leaves single spaces
    only, and neither the split of numbers from units nor the expansion of
    an abbreviation puts whitespace next to whitespace. *)
Theorem preprocess_text_whitespace :
  forall text : string,
    no_adjacent_space (Py.chars (_preprocess_text text)) = true
    /\ Forall (fun c => Py.is_space c = true -> c = " "%char)
              (Py.chars (_preprocess_text text)).
Proof.
  intros text. apply ws_normal_spec. unfold _preprocess_text.
  apply expand_abbreviations_normal; [exact abbreviations_clean|].
  apply sub_normal.
  - intros prev l m Hm _. eapply split_number_unit_clean. exact Hm.
  - unfold Re.sub. rewrite chars_str.
    apply (collapse_from_normal (Py.chars text) None 0%nat).
    intros H. congruence.
Qed.

(** *** The buckets without records *)

Lemma of_type_snoc ty es e :
  of_type ty (es ++ [e])
  = of_type ty es ++ (if bool_decide (type e = ty) then [to_dict e] else []).
Proof.
  unfold of_type. rewrite List.filter_app, map_app. simpl.
  destruct (bool_decide (type e = ty)); reflexivity.
Qed.

(** X26. The buckets of diseases, symptoms, anatomy terms and unclassified
    entities hold the dictionaries of all the entities of their type, in
    the order of the entities and with repeated mentions kept (only the
    medications are merged by name); the bucket of dosages holds, in that
    order too, dictionaries of DOSAGE entities, those that were not put
    into a medication record. *)
Theorem plain_buckets :
  forall es : list MedicalEntity,
    let g := group_entities es in
    diseases g = of_type DISEASE es
    /\ symptoms g = of_type SYMPTOM es
    /\ anatomy g = of_type ANATOMY es
    /\ unclassified g = of_type UNKNOWN es
    /\ sublist (dosages g) (of_type DOSAGE es).
Proof.
  intros es. simpl.
  induction es as [|e es (Hd & Hs & Ha & Hu & Hdos)] using rev_ind.
  { repeat split; constructor. }
  unfold group_entities in *. rewrite fold_left_app. simpl.
  rewrite !of_type_snoc.
  set (g := fold_left group_entity es empty_grouped) in *.
  unfold group_entity.
  destruct (type e) eqn:Hty; simpl;
    rewrite ?bool_decide_eq_true_2 by reflexivity;
    rewrite ?bool_decide_eq_false_2 by discriminate;
    rewrite ?app_nil_r, ?Hd, ?Hs, ?Ha, ?Hu;
    try (repeat split; try reflexivity; exact Hdos).
  assert (Hskip : sublist (dosages g) (of_type DOSAGE es ++ [to_dict e])).
  { apply sublist_inserts_r. exact Hdos. }
  assert (Hkeep : sublist (dosages g ++ [to_dict e])
                          (of_type DOSAGE es ++ [to_dict e])).
  { apply sublist_app; [exact Hdos|reflexivity]. }
  destruct (metadata_get "linked_medication" e) as [lm|]; simpl;
    [|rewrite ?Hd, ?Hs, ?Ha, ?Hu; repeat split; exact Hkeep].
  destruct (if Py.truthy lm then _ else _); simpl;
    rewrite ?Hd, ?Hs, ?Ha, ?Hu; repeat split; assumption.
Qed.

(** ** What the knowledge base can answer *)

Section KnowledgeBaseTypes.
Import UMLSClient.

Lemma map_semantic_type_kb sts :
  kb_type (fst (_map_semantic_type_to_entity sts)).
Proof.
  unfold _map_semantic_type_to_entity, kb_type.
  pose proof (accumulate_keys sts
    [("DISEASE", 0); ("SYMPTOM", 0); ("MEDICATION", 0); ("ANATOMY", 0)]) as Hk.
  destruct (accumulate sts _) as [|[k1 v1] [|[k2 v2] [|[k3 v3] [|[k4 v4] [|]]]]];
    try discriminate Hk.
  simpl in Hk. injection Hk as -> -> -> ->. simpl.
  repeat (destruct (Qltb _ _); simpl); tauto.
Qed.

Lemma lookup_remote_kb term w :
  match fst (lookup_remote term w) with
  | inr r => kb_type (res_entity_type r)
  | inl _ => True
  end.
Proof.
  unfold lookup_remote. rewrite bind_eq.
  destruct (_search_umls_concept term w) as [[e|rs] wa]; [exact I|].
  destruct rs as [|best rest].
  - rewrite bind_eq, cache_result_eq. simpl. unfold kb_type. simpl. tauto.
  - rewrite bind_eq.
    destruct (_get_concept_details (field_get (ui best) "") wa)
      as [[e|cd] wb]; [exact I|].
    pose proof (map_semantic_type_kb
                  match cd with
                  | Some sem_types => extract_tcodes sem_types
                  | None => []
                  end) as Hv.
    destruct (_map_semantic_type_to_entity _) as [ety bc]. simpl in Hv.
    rewrite bind_eq.
    destruct (field_get (name best) "") as [nm|]; simpl lower_opt;
      [|exact I].
    unfold ret at 1. cbv beta iota. rewrite bind_eq, cache_result_eq.
    exact Hv.
Qed.

Lemma cache_kb_types_frame w w' :
  net_frame w w' -> cache_kb_types w -> cache_kb_types w'.
Proof. intros (_&_&_&_&Hc) Hv. unfold cache_kb_types. rewrite Hc. exact Hv. Qed.

Lemma lookup_term_kb term w :
  cache_kb_types w ->
  exists (r : Result) (w' : World),
    lookup_term term w = (inr r, w')
    /\ kb_type (res_entity_type r) /\ cache_kb_types w'.
Proof.
  intros Hu. unfold lookup_term. rewrite bind_eq.
  rewrite get_cached_result_eq. cbv beta iota.
  assert (Hunknown : kb_type "UNKNOWN") by (unfold kb_type; simpl; tauto).
  assert (Hmiss : exists r w',
    (key ← get env_api_key;
     if negb (opt_truthy key) then ret no_key_result
     else try_except (lookup_remote term) (fun e => ret (error_result e))) w
    = (inr r, w')
    /\ kb_type (res_entity_type r) /\ cache_kb_types w').
  { rewrite bind_eq. unfold get. cbv beta iota.
    destruct (negb _).
    - eexists _, _. split; [reflexivity|]. split; [exact Hunknown|exact Hu].
    - unfold try_except.
      pose proof (lookup_remote_kb term w) as Hc.
      pose proof (lookup_remote_valid term w) as Hr.
      pose proof (lookup_remote_stores term w) as Hst.
      destruct (lookup_remote term w) as [[e|r] w1]; simpl in Hc.
      + eexists _, _. split; [reflexivity|]. split; [exact Hunknown|].
        eapply cache_kb_types_frame; eassumption.
      + eexists _, _. split; [reflexivity|]. split; [exact Hc|].
        destruct (Hst r w1 eq_refl) as (w' & Hf & ->).
        pose proof (cache_kb_types_frame _ _ Hf Hu) as Hu'.
        destruct (use_cache w'); [|exact Hu'].
        unfold cache_kb_types. simpl.
        apply map_Forall_insert_2; [exact Hc|exact Hu']. }
  destruct (use_cache w); [|exact Hmiss].
  destruct (cache w !! cache_key term) as [row|] eqn:Hrow; [|exact Hmiss].
  destruct (row_live (clock w) row); [|exact Hmiss].
  eexists _, _. split; [reflexivity|].
  split; [exact (Hu _ _ Hrow)|exact Hu].
Qed.

Lemma kb_type_not_dosage name :
  kb_type name -> EntityType_of_name name <> Some DOSAGE.
Proof.
  unfold kb_type. simpl.
  intros [<-|[<-|[<-|[<-|[<-|[]]]]]]; discriminate.
Qed.

(** A candidate on a cache of such types: a DOSAGE entity is the entity of
    a rule. *)
Lemma classify_candidate_dosage cfg cand w :
  cache_kb_types w ->
  match classify_candidate cfg cand w with
  | (inr oe, w') =>
      cache_kb_types w'
      /\ forall e, oe = Some e -> type e = DOSAGE -> rule_entity cand = Some e
  | (inl _, w') => cache_kb_types w'
  end.
Proof.
  intros Hu. destruct (rule_entity cand) as [e0|] eqn:Hr.
  { rewrite (classify_candidate_rule cfg cand w e0 Hr).
    split; [exact Hu|]. intros e [= <-] _. reflexivity. }
  destruct (ENABLE_UMLS cfg) eqn:Hon.
  2:{ rewrite (classify_candidate_offline cfg cand w Hon), Hr.
      split; [exact Hu|]. intros e H. discriminate H. }
  unfold rule_entity in Hr. unfold classify_candidate, fuse.
  rewrite bind_eq.
  destruct (RuleBasedClassifier.classify (c_text cand)) as [[t|] c];
    [discriminate Hr|].
  rewrite bool_decide_eq_true_2 by reflexivity. simpl. rewrite Hon.
  rewrite bind_eq.
  destruct (lookup_term_kb (c_text cand) w Hu) as (r & w' & -> & Hk & Hu').
  destruct (Qltb c (res_confidence r)).
  2:{ split; [exact Hu'|]. intros e H. discriminate H. }
  pose proof (kb_type_not_dosage _ Hk) as Hnd.
  destruct (EntityType_of_name (res_entity_type r)) as [t|]; [|exact Hu'].
  split; [exact Hu'|]. intros e [= <-] Hty. simpl in Hty. congruence.
Qed.

Lemma classify_entities_dosage cfg cands :
  forall w w' es,
    cache_kb_types w ->
    _classify_entities cfg cands w = (inr es, w') ->
    cache_kb_types w'
    /\ Forall (fun e => type e = DOSAGE ->
                 exists cand, In cand cands /\ rule_entity cand = Some e) es.
Proof.
  induction cands as [|cand rest IH]; intros w w' es Hu H.
  - injection H as <- <-. split; [exact Hu|constructor].
  - cbn [_classify_entities] in H. rewrite bind_eq in H.
    pose proof (classify_candidate_dosage cfg cand w Hu) as Hc.
    destruct (classify_candidate cfg cand w) as [[ex|oe] w1];
      [discriminate|].
    destruct Hc as [Hu1 Hoe]. rewrite bind_eq in H.
    destruct (_classify_entities cfg rest w1) as [[ex|es'] w2] eqn:Hr;
      [discriminate|].
    unfold mret, M_ret, ret in H. injection H as <- <-.
    destruct (IH _ _ _ Hu1 Hr) as [Hu2 Hes]. split; [exact Hu2|].
    assert (Hes' : Forall (fun e => type e = DOSAGE ->
      exists cand0, In cand0 (cand :: rest) /\ rule_entity cand0 = Some e) es').
    { eapply Forall_impl; [exact Hes|]. intros e He Hty.
      destruct (He Hty) as (c0 & Hin & Hc0). exists c0.
      split; [right; exact Hin|exact Hc0]. }
    destruct oe as [e|]; [|exact Hes'].
    constructor; [|exact Hes']. intros Hty. exists cand.
    split; [left; reflexivity|apply Hoe; [reflexivity|exact Hty]].
Qed.

(** X27. The knowledge base never answers DOSAGE. A lookup result that
    does not come from the cache has one of the types DISEASE, SYMPTOM,
    MEDICATION, ANATOMY and UNKNOWN, and so has every row a lookup writes.
    On a cache with such rows, every DOSAGE entity the pipeline returns is
    the entity a rule made of one of the candidates: it has the rule's
    confidence times the candidate's score and no UMLS code. *)
Theorem knowledge_base_never_dosage :
  (forall (term : string) (w : World),
     fst (_get_cached_result term w) = inr None ->
     exists (r : Result) (w' : World),
       lookup_term term w = (inr r, w') /\ kb_type (res_entity_type r))
  /\ (forall (p : Pipeline) (text : string) (w w' : World)
             (es : list MedicalEntity),
        cache_kb_types w ->
        extract_entities p text w = (inr es, w') ->
        Forall (fun e =>
                  type e = DOSAGE ->
                  umls_code e = None
                  /\ exists cand e0,
                       In cand (_extract_entity_candidates p
                                  (_preprocess_text text))
                       /\ rule_entity cand = Some e0 /\ same_core e0 e) es
        /\ cache_kb_types w').
Proof.
  split.
  - intros term w Hmiss.
    destruct (lookup_term_kb term (set_cache ∅ w))
      as (r & w' & E & Hr & _); [apply map_Forall_empty|].
    destruct (lookup_miss_cache term w) as (r0 & wn & upd & _ & _ & H).
    pose proof (H ∅) as H1. pose proof (H (cache w)) as H2.
    rewrite set_cache_id in H2. rewrite H2 by exact Hmiss.
    rewrite H1 in E.
    + injection E as <- _. eexists _, _. split; [reflexivity|exact Hr].
    + rewrite get_cached_result_eq. simpl.
      destruct (use_cache w); reflexivity.
  - intros p text w w' es Hu H.
    apply extract_entities_inv in H as (classified & Hc & ->).
    destruct (classify_entities_dosage _ _ _ _ _ Hu Hc) as [Hu' Hes].
    split; [|exact Hu'].
    apply pipeline_core_Forall.
    + intros a b Hab Ha Hty.
      assert (Hta : type a = DOSAGE) by (destruct Hab as (_ & -> & _); exact Hty).
      destruct (Ha Hta) as (Hcode & cand & e0 & Hin & Hr & Hcore).
      split; [destruct Hab as (_ & _ & _ & _ & _ & <-); exact Hcode|].
      exists cand, e0. split; [exact Hin|]. split; [exact Hr|].
      eapply same_core_trans; eassumption.
    + eapply Forall_impl; [exact Hes|]. intros e He Hty.
      destruct (He Hty) as (cand & Hin & Hr).
      split.
      * unfold rule_entity in Hr.
        destruct (RuleBasedClassifier.classify (c_text cand)) as [[t|] c];
          [|discriminate Hr].
        injection Hr as <-. reflexivity.
      * exists cand, e. split; [exact Hin|]. split; [exact Hr|].
        apply same_core_refl.
Qed.

End KnowledgeBaseTypes.
